(** * NebulaRaceServer: the room lifecycle orchestrator, the per-room physics
    worker, the procedural terrain field and the curve helpers, embedded in
    Rocq and checked against the natural-language specification.

    Layout: JavaScript numbers (IEEE 754 binary64, the kernel's primitive
    floats), the host's [Math] object, [fbm.js], [utils.js], [math.js],
    [workers/PhysicsWorker.js], [server.js]; then the lemmas and the theorems
    about them. *)

From Stdlib Require Import ZArith List Bool String Lia.
From Stdlib Require Import Floats.
From Stdlib Require Import Sorted Permutation.
From Stdlib Require Uint63.
Import ListNotations.

Set Implicit Arguments.
Set Warnings "-inexact-float".

(* ====================================================================== *)
(** * JavaScript numbers *)
(* ====================================================================== *)

(** A JavaScript number is an IEEE 754 binary64 value: the primitive type
    [float], with [+ - * /], [sqrt] and the comparisons of the standard.
    Integer-valued quantities of the program (array lengths and indices, loop
    counters, octave counts) are carried as [Z]: double arithmetic is exact on
    them below 2^53. *)
Module JsNum.

Local Open Scope float_scope.

Definition num := float.

(** [Number.isFinite]. *)
Definition isFiniteNum (x : num) : bool := PrimFloat.is_finite x.

(** Truthiness of a number: [0], [-0] and [NaN] are falsy. *)
Definition truthy (x : num) : bool := negb (is_zero x || is_nan x).

(** [a || b] on numbers. *)
Definition orElse (a b : num) : num := if truthy a then a else b.

(** [a ?? b] on a possibly missing value. *)
Definition nullish {A} (a : option A) (b : A) : A :=
  match a with Some v => v | None => b end.

(** The number of an integer (exact below 2^53). *)
Definition ofZ (z : Z) : num :=
  match z with
  | Z0 => 0
  | Zpos _ => of_uint63 (Uint63.of_Z z)
  | Zneg p => - of_uint63 (Uint63.of_Z (Zpos p))
  end.

(** The integer part, rounded towards minus infinity, of a finite number;
    [None] for [NaN] and the infinities. *)
Definition floorZ (x : num) : option Z :=
  match Prim2SF x with
  | S754_zero _ => Some 0%Z
  | S754_finite s m e =>
      Some (if (0 <=? e)%Z then cond_Zopp s (Zpos m * 2 ^ e)%Z
            else (cond_Zopp s (Zpos m) / 2 ^ (- e))%Z)
  | _ => None
  end.

(** [Math.floor]: numbers with a non-negative exponent, zeros, infinities and
    [NaN] are their own floor. *)
Definition Math_floor (x : num) : num :=
  match Prim2SF x with
  | S754_finite s m e =>
      if (0 <=? e)%Z then x
      else match (cond_Zopp s (Zpos m) / 2 ^ (- e))%Z with
           | Z0 => if s then (-0) else 0
           | z => ofZ z
           end
  | _ => x
  end.

(** [Math.max] and [Math.min] of two arguments: [NaN] if either is, and [-0]
    below [+0]. *)
Definition Math_max (a b : num) : num :=
  if is_nan a || is_nan b then nan
  else if a <? b then b
  else if b <? a then a
  else if get_sign a then b else a.

Definition Math_min (a b : num) : num :=
  if is_nan a || is_nan b then nan
  else if a <? b then a
  else if b <? a then b
  else if get_sign a then a else b.

(** [Math.abs]. *)
Definition Math_abs (x : num) : num := abs x.

(** [const clamp = (v, min, max) => Math.max(min, Math.min(max, v))]
    (PhysicsWorker.js). *)
Definition clamp (v lo hi : num) : num := Math_max lo (Math_min hi v).

(** The array index a number denotes as a property key: a non-negative
    integer value. Anything else reads [undefined]. *)
Definition toIndex (x : num) : option nat :=
  match Prim2SF x with
  | S754_zero _ => Some O
  | S754_finite false m e =>
      if (0 <=? e)%Z then Some (Z.to_nat (Zpos m * 2 ^ e))
      else if (Zpos m mod 2 ^ (- e) =? 0)%Z
           then Some (Z.to_nat (Zpos m / 2 ^ (- e))) else None
  | _ => None
  end.

(** Two numbers that [===] cannot tell apart because they are the same
    value, or zeros of either sign. *)
Definition sameNumber (a b : num) : Prop :=
  a = b \/ (is_zero a = true /\ is_zero b = true).

End JsNum.
Import JsNum.

(* ====================================================================== *)
(** * The host's Math object *)
(* ====================================================================== *)

(** [Math.pow], [Math.exp], [Math.sin], [Math.cos] and [Math.hypot] are
    implementation-approximated in ECMAScript: they are parameters of the
    development. Only the values the language fixes exactly are ever assumed,
    and each assumption is stated where it is used. *)
Class HostMath := {
  Math_pow : num -> num -> num;
  Math_exp : num -> num;
  Math_sin : num -> num;
  Math_cos : num -> num;
  Math_hypot : num -> num -> num -> num
}.

(** [Math.sqrt] is correctly rounded. *)
Definition Math_sqrt (x : num) : num := PrimFloat.sqrt x.

(* ====================================================================== *)
(** * fbm.js *)
(* ====================================================================== *)

Module Fbm.

Local Open Scope float_scope.

(** [{ x, y, z }] objects. *)
Record vec3T := mkVec { x : num; y : num; z : num }.

(** [[x, y, z]] arrays. *)
Definition arr3 := (num * num * num)%type.

Definition vec3 (x y z : num) : vec3T := mkVec x y z.

Definition add (a b : vec3T) : vec3T :=
  mkVec (x a + x b) (y a + y b) (z a + z b).

Definition sub (a b : vec3T) : vec3T :=
  mkVec (x a - x b) (y a - y b) (z a - z b).

Definition scale (a : vec3T) (s : num) : vec3T :=
  mkVec (x a * s) (y a * s) (z a * s).

Definition floorVec (a : vec3T) : vec3T :=
  mkVec (Math_floor (x a)) (Math_floor (y a)) (Math_floor (z a)).

Definition fract (x : num) : num := x - Math_floor x.

Definition hash (p : vec3T) : num :=
  let v := add (scale p 0.3183099) (vec3 0.1 0.1 0.1) in
  fract (x v * y v * z v * (x v + y v + z v)).

Definition fade (t : num) : num := t * t * (3 - 2 * t).

Definition mix (a b t : num) : num := a * (1 - t) + b * t.

Definition noise (p : vec3T) : num :=
  let i := floorVec p in
  let f := sub p i in
  let fx := fade (x f) in
  let fy := fade (y f) in
  let fz := fade (z f) in
  let n000 := hash i in
  let n100 := hash (add i (vec3 1 0 0)) in
  let n010 := hash (add i (vec3 0 1 0)) in
  let n110 := hash (add i (vec3 1 1 0)) in
  let n001 := hash (add i (vec3 0 0 1)) in
  let n101 := hash (add i (vec3 1 0 1)) in
  let n011 := hash (add i (vec3 0 1 1)) in
  let n111 := hash (add i (vec3 1 1 1)) in
  let x00 := mix n000 n100 fx in
  let x10 := mix n010 n110 fx in
  let x01 := mix n001 n101 fx in
  let x11 := mix n011 n111 fx in
  let y0 := mix x00 x10 fy in
  let y1 := mix x01 x11 fy in
  mix y0 y1 fz.

Definition noiseArray (p : arr3) : num :=
  let '(p0, p1, p2) := p in noise (vec3 p0 p1 p2).

Definition ridge (n : num) : num :=
  let n := Math_abs n in
  let n := 1.0 - n in
  n * n.

(** A noise callback is an arbitrary JavaScript function: it may carry state
    of its own (the tests pass a stub that records its arguments), so it is a
    state-passing function. *)
Definition noiseFnT (S : Type) := arr3 -> S -> num * S.

(** A callback without state, such as the default [noiseArray]. *)
Definition pureNoise (f : arr3 -> num) : noiseFnT unit :=
  fun p s => (f p, s).

(** The point [[p[0] * f, p[1] * f, p[2] * f]]. *)
Definition scaled (p : arr3) (f : num) : arr3 :=
  let '(p0, p1, p2) := p in (p0 * f, p1 * f, p2 * f).

Section Loops.
Context {S : Type}.
Variable noiseFn : noiseFnT S.
Variable p : arr3.
Variables lacunarity persistence : num.

(** The body of [for (let i = 0; i < octaves; i++)] in [fbmStandard], with
    the remaining number of rounds and the loop variables [sum], [amp], [f]. *)
Fixpoint fbmStandard_loop (rounds : nat) (sum amp f : num) (s : S) : num * S :=
  match rounds with
  | O => (sum, s)
  | Datatypes.S rounds' =>
      let '(n, s') := noiseFn (scaled p f) s in
      fbmStandard_loop rounds' (sum + n * amp) (amp * persistence) (f * lacunarity) s'
  end.

(** The same loop in [ridgedFBM]. *)
Fixpoint ridgedFBM_loop (rounds : nat) (sum amp f : num) (s : S) : num * S :=
  match rounds with
  | O => (sum, s)
  | Datatypes.S rounds' =>
      let '(n, s') := noiseFn (scaled p f) s in
      ridgedFBM_loop rounds' (sum + ridge n * amp) (amp * persistence) (f * lacunarity) s'
  end.

End Loops.

Definition fbmStandard {S} (p : arr3) (freq lacunarity persistence : num)
  (octaves : Z) (noiseFn : noiseFnT S) (s : S) : num * S :=
  fbmStandard_loop noiseFn p lacunarity persistence (Z.to_nat octaves) 0 0.5 freq s.

Definition ridgedFBM {S} (p : arr3) (freq lacunarity persistence : num)
  (octaves : Z) (noiseFn : noiseFnT S) (s : S) : num * S :=
  ridgedFBM_loop noiseFn p lacunarity persistence (Z.to_nat octaves) 0 0.5 freq s.

(** The [fbmParams] object of a room. [uMaxHeight] and [planetSize] may be
    missing; [useRidged] is read for its truthiness. *)
Record fbmParamsT := mkFbmParams {
  uFrequency : num;
  uLacunarity : num;
  uPersistence : num;
  uOctaves : Z;
  uExponentiation : num;
  useRidged : bool;
  uMaxHeight : option num;
  planetSize : option num
}.

Section Terrain.
Context {host : HostMath}.
Context {S : Type}.

Definition terrainElevationFBM (pos : arr3) (params : fbmParamsT)
  (noiseFn : noiseFnT S) (s : S) : num * S :=
  let '(elevation, s1) :=
    fbmStandard pos (uFrequency params) (uLacunarity params) (uPersistence params)
      (uOctaves params) noiseFn s in
  (Math_pow elevation (uExponentiation params), s1).

Definition terrainElevationRidged (pos : arr3) (params : fbmParamsT)
  (noiseFn : noiseFnT S) (s : S) : num * S :=
  let '(pos0, pos1, pos2) := pos in
  let '(base, s1) :=
    ridgedFBM pos (uFrequency params) (uLacunarity params) (uPersistence params)
      (uOctaves params) noiseFn s in
  let '(warp0, s2) := noiseFn (pos0 * 0.5, pos1 * 0.5, pos2 * 0.5) s1 in
  let '(warp1, s3) := noiseFn (pos0 * 0.5 + 100, pos1 * 0.5, pos2 * 0.5) s2 in
  let '(warp2, s4) := noiseFn (pos0 * 0.5, pos1 * 0.5 + 200, pos2 * 0.5) s3 in
  let warpedPos := (pos0 + warp0 * 0.3, pos1 + warp1 * 0.3, pos2 + warp2 * 0.3) in
  let '(detail, s5) :=
    ridgedFBM warpedPos (uFrequency params * 2.5) (uLacunarity params)
      (uPersistence params) (Z.max 3 (uOctaves params / 2)) noiseFn s4 in
  (Math_pow (base + detail * 0.3) (uExponentiation params), s5).

End Terrain.

(** The stub of the tests: a constant noise that records the points it is
    asked for, in call order. *)
Definition recordingNoise (value : num) : noiseFnT (list arr3) :=
  fun p calls => (value, calls ++ [p]).

(** Any callback, instrumented to record the points it is asked for. *)
Definition traced {S} (noiseFn : noiseFnT S) : noiseFnT (S * list arr3) :=
  fun p st => let '(n, s') := noiseFn p (fst st) in (n, (s', snd st ++ [p])).

(** ** The accumulation formulas, as the specification words them *)

(** [f_0 = freq], [f_(i+1) = f_i * lacunarity]. *)
Fixpoint freqAt (freq lacunarity : num) (i : nat) : num :=
  match i with
  | O => freq
  | Datatypes.S i' => freqAt freq lacunarity i' * lacunarity
  end.

(** [amp_0 = 0.5], [amp_(i+1) = amp_i * persistence]. *)
Fixpoint ampAt (persistence : num) (i : nat) : num :=
  match i with
  | O => 0.5
  | Datatypes.S i' => ampAt persistence i' * persistence
  end.

(** The sum over the octaves [0 <= i < n] of [shape (noiseFn (p * f_i)) * amp_i],
    accumulated in index order from [0]; the noise callback is called once
    per octave, in index order. *)
Definition octaveSum {S} (shape : num -> num) (noiseFn : noiseFnT S) (p : arr3)
  (freq lacunarity persistence : num) (n : nat) (s : S) : num * S :=
  fold_left
    (fun acc i =>
       let '(n, s') := noiseFn (scaled p (freqAt freq lacunarity i)) (snd acc) in
       (fst acc + shape n * ampAt persistence i, s'))
    (seq 0 n) (0, s).

(** The points sampled by [n] octaves. *)
Definition octavePoints (p : arr3) (freq lacunarity : num) (n : nat) : list arr3 :=
  map (fun i => scaled p (freqAt freq lacunarity i)) (seq 0 n).

(** The warp vector of the ridged elevation: three noise samples at the
    position scaled by 0.5, the second offset by +100 on the first axis and
    the third by +200 on the second axis. *)
Definition warpVector {S} (noiseFn : noiseFnT S) (pos : arr3) (s : S) : arr3 * S :=
  let '(h0, h1, h2) := scaled pos 0.5%float in
  let '(w0, s1) := noiseFn (h0, h1, h2) s in
  let '(w1, s2) := noiseFn ((h0 + 100)%float, h1, h2) s1 in
  let '(w2, s3) := noiseFn (h0, (h1 + 200)%float, h2) s2 in
  ((w0, w1, w2), s3).

(** [pos + warp * amplitude], componentwise. *)
Definition offsetBy (pos warp : arr3) (amplitude : num) : arr3 :=
  let '(p0, p1, p2) := pos in
  let '(w0, w1, w2) := warp in
  ((p0 + w0 * amplitude)%float, (p1 + w1 * amplitude)%float, (p2 + w2 * amplitude)%float).

(** The ridged elevation as the specification words it:
    [(base + detail * 0.3) ** exponentiation], with [base] the ridged sum at
    the configured frequency and octaves, and [detail] the ridged sum at
    frequency [* 2.5] over [max(3, floor(octaves / 2))] octaves at the position
    offset by the warp vector with amplitude 0.3. *)
Definition ridgedElevation {host : HostMath} {S} (pos : arr3) (params : fbmParamsT)
  (noiseFn : noiseFnT S) (s : S) : num * S :=
  let '(base, s1) :=
    octaveSum ridge noiseFn pos (uFrequency params) (uLacunarity params)
      (uPersistence params) (Z.to_nat (uOctaves params)) s in
  let '(warp, s2) := warpVector noiseFn pos s1 in
  let '(detail, s3) :=
    octaveSum ridge noiseFn (offsetBy pos warp 0.3%float) (uFrequency params * 2.5)%float
      (uLacunarity params) (uPersistence params)
      (Z.to_nat (Z.max 3 (uOctaves params / 2))) s2 in
  (Math_pow (base + detail * 0.3)%float (uExponentiation params), s3).

(** The parameters of the tests of the terrain elevation. *)
Definition testParams : fbmParamsT :=
  mkFbmParams 1.5%float 2%float 0.5%float 4 2%float true None None.

End Fbm.

(* ====================================================================== *)
(** * utils.js *)
(* ====================================================================== *)

Module Utils.

Import Fbm.
Local Open Scope float_scope.

(** [[x, y, z, w]] arrays. *)
Definition arr4 := (num * num * num * num)%type.

(** [{ position, quaternion }]. *)
Record pose := mkPose { position : arr3; quaternion : arr4 }.

(** [points[i]] for an integer [i]: [undefined] out of range. *)
Definition at_index {A} (l : list A) (i : Z) : option A :=
  if (i <? 0)%Z then None else nth_error l (Z.to_nat i).

(** The point at the fraction [alpha] of the segment from [p0] to [p1]. *)
Definition interpolate (p0 p1 : arr3) (alpha : num) : arr3 :=
  let '(p00, p01, p02) := p0 in
  let '(p10, p11, p12) := p1 in
  (p00 + (p10 - p00) * alpha, p01 + (p11 - p01) * alpha, p02 + (p12 - p02) * alpha).

(** Every coordinate is a finite number. *)
Definition finite3 (p : arr3) : bool :=
  let '(a, b, c) := p in isFiniteNum a && isFiniteNum b && isFiniteNum c.

(** Componentwise [===] of two points. *)
Definition eqb3 (p q : arr3) : bool :=
  let '(a, b, c) := p in
  let '(a', b', c') := q in
  (a =? a') && (b =? b') && (c =? c').

(** [points[points.length - 1]]. *)
Definition lastPoint (points : list arr3) : option arr3 :=
  at_index points (Z.of_nat (List.length points) - 1).

Section WithHost.
Context {host : HostMath}.

(** [lookRotation(forward, up)]. The second test of the branch chain reads
    [(m00 > m11) & (m00 > m22)]: the bitwise conjunction of two booleans is
    truthy exactly when both are. *)
Definition lookRotation (forward up : arr3) : arr4 :=
  let '(f0, f1, f2) := forward in
  let '(up0, up1, up2) := up in
  let z0 := - f0 in
  let z1 := - f1 in
  let z2 := - f2 in
  let x0 := up1 * z2 - up2 * z1 in
  let x1 := up2 * z0 - up0 * z2 in
  let x2 := up0 * z1 - up1 * z0 in
  let lx := Math_hypot x0 x1 x2 in
  let x0 := x0 / lx in
  let x1 := x1 / lx in
  let x2 := x2 / lx in
  let y0 := z1 * x2 - z2 * x1 in
  let y1 := z2 * x0 - z0 * x2 in
  let y2 := z0 * x1 - z1 * x0 in
  let m00 := x0 in let m01 := y0 in let m02 := z0 in
  let m10 := x1 in let m11 := y1 in let m12 := z1 in
  let m20 := x2 in let m21 := y2 in let m22 := z2 in
  let tr := m00 + m11 + m22 in
  if 0 <? tr then
    let S := Math_sqrt (tr + 1.0) * 2 in
    ((m21 - m12) / S, (m02 - m20) / S, (m10 - m01) / S, 0.25 * S)
  else if (m11 <? m00) && (m22 <? m00) then
    let S := Math_sqrt (1.0 + m00 - m11 - m22) * 2 in
    (0.25 * S, (m01 + m10) / S, (m02 + m20) / S, (m21 - m12) / S)
  else if m22 <? m11 then
    let S := Math_sqrt (1.0 + m11 - m00 - m22) * 2 in
    ((m01 + m10) / S, 0.25 * S, (m12 + m21) / S, (m02 - m20) / S)
  else
    let S := Math_sqrt (1.0 + m22 - m00 - m11) * 2 in
    ((m02 + m20) / S, (m12 + m21) / S, 0.25 * S, (m10 - m01) / S).

(** [getStartPoseFromCurve(points, distance)]. [None] is the [TypeError]
    raised when [points[i0]] or [points[i1]] is [undefined] and its component
    is read. *)
Definition getStartPoseFromCurve (points : list arr3) (distance : num) : option pose :=
  let n := Z.of_nat (List.length points) in
  let t := Math_min (Math_max distance 0) 1 in
  let index := t * ofZ (n - 1) in
  match floorZ index with
  | None => None
  | Some i0 =>
      let i1 := Z.min (i0 + 1) (n - 1) in
      let alpha := index - Math_floor index in
      match at_index points i0, at_index points i1 with
      | Some (p00, p01, p02), Some (p10, p11, p12) =>
          let position :=
            (p00 + (p10 - p00) * alpha,
             p01 + (p11 - p01) * alpha,
             p02 + (p12 - p02) * alpha) in
          let t0 := p10 - p00 in
          let t1 := p11 - p01 in
          let t2 := p12 - p02 in
          let length := Math_hypot t0 t1 t2 in
          let t0 := t0 / length in
          let t1 := t1 / length in
          let t2 := t2 / length in
          let quat := lookRotation (t0, t1, t2) (0, 1, 0) in
          Some (mkPose position quat)
      | _, _ => None
      end
  end.

(** [curvePoints.map((_, i) => getStartPoseFromCurve(curvePoints,
    i / Math.max(1, numPositions - 1)))], the precomputation of the start
    poses in [init] and [addPlayer] of the worker. *)
Definition startPoseDistance (numPositions i : Z) : num :=
  ofZ i / ofZ (Z.max 1 (numPositions - 1)).

Fixpoint traverse {A B} (f : A -> option B) (l : list A) : option (list B) :=
  match l with
  | [] => Some []
  | a :: l' =>
      match f a with
      | None => None
      | Some b => match traverse f l' with None => None | Some bs => Some (b :: bs) end
      end
  end.

Definition precomputeStartPositions (curvePoints : list arr3) : option (list pose) :=
  let numPositions := Z.of_nat (List.length curvePoints) in
  traverse
    (fun i => getStartPoseFromCurve curvePoints (startPoseDistance numPositions (Z.of_nat i)))
    (seq 0 (List.length curvePoints)).

End WithHost.

(** ** The throttle *)

(** The variables [interval] and [lastTime] of the closure that
    [createThrottle] returns. *)
Record throttleT := mkThrottle { th_interval : num; th_lastTime : Z }.

(** [createThrottle(timesPerSecond, callback)]. *)
Definition createThrottle (timesPerSecond : num) : throttleT :=
  mkThrottle (1000 / timesPerSecond) 0.

(** [throttled(...args)] when [Date.now()] is [now]: the closure afterwards,
    and whether the callback was called. *)
Definition throttled (t : throttleT) (now : Z) : throttleT * bool :=
  if th_interval t <=? ofZ (now - th_lastTime t)
  then (mkThrottle (th_interval t) now, true)
  else (t, false).

(** The times of the calls that reached the callback, for calls at the times
    [nows]. *)
Fixpoint called (t : throttleT) (nows : list Z) : list Z :=
  match nows with
  | [] => []
  | now :: rest =>
      let '(t', b) := throttled t now in
      if b then now :: called t' rest else called t' rest
  end.

(** Each time of the list is at least [interval] after the one before it,
    and the first after [prev]. *)
Fixpoint spaced (interval : num) (prev : Z) (times : list Z) : Prop :=
  match times with
  | [] => True
  | a :: rest => (interval <=? ofZ (a - prev)) = true /\ spaced interval a rest
  end.

End Utils.

(* ====================================================================== *)
(** * math.js *)
(* ====================================================================== *)

(** [Vector3] and [Quaternion]. The methods mutate the receiver and return
    it; here each returns the new value of the receiver, and the call sites of
    the worker say which object receives it. The arithmetic is written in the
    order of the source: floating-point sums are not associative. *)
Module MathJs.

Local Open Scope float_scope.

Record Vector3 := mkV3 { x : num; y : num; z : num }.
Record Quaternion := mkQuat { qx : num; qy : num; qz : num; qw : num }.

Definition add (a v : Vector3) : Vector3 := mkV3 (x a + x v) (y a + y v) (z a + z v).
Definition sub (a v : Vector3) : Vector3 := mkV3 (x a - x v) (y a - y v) (z a - z v).
Definition multiplyScalar (a : Vector3) (s : num) : Vector3 := mkV3 (x a * s) (y a * s) (z a * s).
Definition dot (a v : Vector3) : num := x a * x v + y a * y v + z a * z v.
Definition length (a : Vector3) : num := Math_sqrt (x a * x a + y a * y a + z a * z a).

(** [if (l > 0) this.multiplyScalar(1 / l)]. *)
Definition normalize (a : Vector3) : Vector3 :=
  let l := length a in
  if 0 <? l then multiplyScalar a (1 / l) else a.

Definition lerp (a v : Vector3) (alpha : num) : Vector3 :=
  mkV3 (x a + (x v - x a) * alpha)
       (y a + (y v - y a) * alpha)
       (z a + (z v - z a) * alpha).

Definition applyQuaternion (v : Vector3) (q : Quaternion) : Vector3 :=
  let ix := qw q * x v + qy q * z v - qz q * y v in
  let iy := qw q * y v + qz q * x v - qx q * z v in
  let iz := qw q * z v + qx q * y v - qy q * x v in
  let iw := - qx q * x v - qy q * y v - qz q * z v in
  mkV3 (ix * qw q + iw * - qx q + iy * - qz q - iz * - qy q)
       (iy * qw q + iw * - qy q + iz * - qx q - ix * - qz q)
       (iz * qw q + iw * - qz q + ix * - qy q - iy * - qx q).

(** [this.multiply(q)]: the receiver on the left. *)
Definition multiply (a q : Quaternion) : Quaternion :=
  mkQuat (qw a * qx q + qx a * qw q + qy a * qz q - qz a * qy q)
         (qw a * qy q - qx a * qz q + qy a * qw q + qz a * qx q)
         (qw a * qz q + qx a * qy q - qy a * qx q + qz a * qw q)
         (qw a * qw q - qx a * qx q - qy a * qy q - qz a * qz q).

(** [this.premultiply(q)]: the argument on the left. *)
Definition premultiply (a q : Quaternion) : Quaternion :=
  mkQuat (qx q * qw a + qw q * qx a + qy q * qz a - qz q * qy a)
         (qy q * qw a + qw q * qy a + qz q * qx a - qx q * qz a)
         (qz q * qw a + qw q * qz a + qx q * qy a - qy q * qx a)
         (qw q * qw a - qx q * qx a - qy q * qy a - qz q * qz a).

Definition qlength (q : Quaternion) : num :=
  Math_sqrt (qx q * qx q + qy q * qy q + qz q * qz q + qw q * qw q).

Definition identity : Quaternion := mkQuat 0 0 0 1.

(** [Quaternion.normalize]: the identity on a zero length, else a
    multiplication by the reciprocal of the length. *)
Definition qnormalize (q : Quaternion) : Quaternion :=
  let l := qlength q in
  if l =? 0 then identity
  else
    let l := 1 / l in
    mkQuat (qx q * l) (qy q * l) (qz q * l) (qw q * l).

Section WithHost.
Context {host : HostMath}.

Definition setFromAxisAngle (axis : Vector3) (angle : num) : Quaternion :=
  let half := angle / 2 in
  let l := length axis in
  if l =? 0 then identity
  else
    let s := Math_sin half / l in
    mkQuat (x axis * s) (y axis * s) (z axis * s) (Math_cos half).

End WithHost.

(** The quaternion and the vector whose components are all [NaN]. *)
Definition lost : Quaternion := mkQuat nan nan nan nan.
Definition nowhere : Vector3 := mkV3 nan nan nan.

Definition ofArr (a : Fbm.arr3) : Vector3 := let '(a0, a1, a2) := a in mkV3 a0 a1 a2.
Definition toArr (v : Vector3) : Fbm.arr3 := (x v, y v, z v).
Definition quatOfArr (a : Utils.arr4) : Quaternion :=
  let '(a0, a1, a2, a3) := a in mkQuat a0 a1 a2 a3.

End MathJs.

(* ====================================================================== *)
(** * workers/PhysicsWorker.js *)
(* ====================================================================== *)

Module PhysicsWorker.

Import MathJs.
Local Open Scope float_scope.

(** ** Constants and state *)

Definition FIXED_STEP : num := 1 / 60.
Definition TICK_RATE_MS : num := FIXED_STEP * 1000.
Definition MAX_ANG : num := 2.0.
Definition playerRadius : num := 0.5.
Definition SMOOTHING_RATE : num := 8.0.

(** The per-player state built by [addPlayer]. *)
Record playerState := mkPlayerState {
  pos : Vector3;
  rot : Quaternion;
  velocity : Vector3;
  angularVelocity : Vector3;
  throttle : num;
  inputX : num;
  inputY : num;
  accel : num;
  pitchVel : num;
  rollVel : num;
  damping : num;
  playerSpeed : num
}.

(** What the worker posts to its parent. *)
Inductive emitted :=
| EReady
| ETick
| EStateUpdate (state : list (string * (Fbm.arr3 * Utils.arr4 * Fbm.arr3 * Fbm.arr3)))
| ELog.

(** The module-level variables of the worker. The two interval handles are
    kept as "armed or not"; of the scratch vectors only [_closestCorner] can be
    read before it is written in a call, so it alone is state; [outbox] is
    what was posted to the parent, oldest first. *)
Record workerState := mkWorker {
  interval : bool;
  running : bool;
  planetRadius : num;
  fbmParams : option Fbm.fbmParamsT;
  restitution : num;
  slideFactor : num;
  players : list (string * playerState);
  physicsInterval : bool;
  curvePoints : option (list Fbm.arr3);
  startPositions : option (list Utils.pose);
  nextStartIndex : nat;
  closestCorner : Vector3;
  outbox : list emitted
}.

(** The state of a freshly loaded worker, which has posted [ready]. *)
Definition loaded : workerState :=
  mkWorker false false 0 None 0.0 0.0 [] false None None 0 (mkV3 0 0 0) [EReady].

(** ** Terrain *)

Section WithHost.
Context {host : HostMath}.

(** [signedDistanceToPlanet(p)]: the distance, and the value left in the
    scratch vector [_tmpA], which the function overwrites with the direction
    of [p]. When [p] is [_tmpA] itself ([aliased]), the point is normalised in
    place and [p.length()] is the length of the direction. *)
Definition signedDistanceToPlanet (w : workerState) (p tmpA : Vector3) (aliased : bool)
  : num * Vector3 :=
  match fbmParams w with
  | None => (1000, tmpA)
  | Some fp =>
      if planetRadius w =? 0 then (1000, tmpA)
      else
        let tmpA := normalize p in
        let dirArr := (x tmpA, y tmpA, z tmpA) in
        let raw :=
          if Fbm.useRidged fp
          then fst (Fbm.terrainElevationRidged dirArr fp (Fbm.pureNoise Fbm.noiseArray) tt)
          else fst (Fbm.terrainElevationFBM dirArr fp (Fbm.pureNoise Fbm.noiseArray) tt) in
        let elevation := Math_max 0 (raw * 0.5 + 0.5) in
        let maxH := nullish (Fbm.uMaxHeight fp) 10 in
        (length (if aliased then tmpA else p) - (planetRadius w + elevation * maxH), tmpA)
  end.

(** [calculatePlanetNormal(p, out)]. *)
Definition calculatePlanetNormal (p : Vector3) : Vector3 := normalize p.

(** The result object [{ distance, normal }]. *)
Record obbResult := mkObb { distance : num; normal : Vector3 }.

(** One round of the corner loop of [obbSignedDistanceWithNormal]. The loop
    state is [(halfExtents, minDist, _closestCorner)]: the caller passes the
    scratch vector [_tmpA] as [halfExtents], and [signedDistanceToPlanet]
    writes into that same vector, so the half extents of round [i + 1] are what
    round [i] left there. *)
Definition cornerRound (w : workerState) (center : Vector3) (orientation : Quaternion)
  (acc : Vector3 * num * Vector3) (i : nat) : Vector3 * num * Vector3 :=
  let '(halfExtents, minDist, closest) := acc in
  let sx := if Nat.testbit i 0 then 1 else -1 in
  let sy := if Nat.testbit i 1 then 1 else -1 in
  let sz := if Nat.testbit i 2 then 1 else -1 in
  let tmpCorner :=
    add (applyQuaternion
           (mkV3 (sx * x halfExtents) (sy * y halfExtents) (sz * z halfExtents))
           orientation)
        center in
  let '(d, tmpA) := signedDistanceToPlanet w tmpCorner halfExtents false in
  if d <? minDist then (tmpA, d, tmpCorner) else (tmpA, minDist, closest).

(** One sample of the finite difference:
    [_tmpA.copy(_closestCorner).add(_tmpA.set(dx, dy, dz))] evaluates the
    argument after the copy, on the same object, so the vector added to itself
    is [(dx, dy, dz)]; the sample is then measured in place. *)
Definition gradientSample (w : workerState) (dx dy dz : num) : num :=
  let tmpA := mkV3 dx dy dz in
  let tmpA := add tmpA tmpA in
  fst (signedDistanceToPlanet w tmpA tmpA true).

(** [obbSignedDistanceWithNormal(center, halfExtents, orientation, out)]:
    the result written to [out], and [_closestCorner] afterwards. *)
Definition obbSignedDistanceWithNormal (w : workerState) (center halfExtents : Vector3)
  (orientation : Quaternion) (closest0 : Vector3) : obbResult * Vector3 :=
  match fbmParams w with
  | None => (mkObb 1000 (mkV3 0 1 0), closest0)
  | Some _ =>
      if planetRadius w =? 0 then (mkObb 1000 (mkV3 0 1 0), closest0)
      else
        let '(_, minDist, closest) :=
          fold_left (cornerRound w center orientation) (seq 0 8)
            (halfExtents, infinity, closest0) in
        let eps := 0.5 in
        let sxp := gradientSample w eps 0 0 in
        let sxn := gradientSample w (- eps) 0 0 in
        let syp := gradientSample w 0 eps 0 in
        let syn := gradientSample w 0 (- eps) 0 in
        let szp := gradientSample w 0 0 eps in
        let szn := gradientSample w 0 0 (- eps) in
        let gx := sxp - sxn in
        let gy := syp - syn in
        let gz := szp - szn in
        let n := normalize (mkV3 gx gy gz) in
        if negb (isFiniteNum (x n)) || (length n =? 0)
        then (mkObb minDist (calculatePlanetNormal closest), closest)
        else (mkObb minDist n, closest)
  end.

(** The corner [i] of the craft's box as the specification has it: the fixed
    half extents (1.0, 0.5, 2.0), with the signs of [i], rotated by the
    orientation, about the center. *)
Definition boxCorner (center : Vector3) (orientation : Quaternion) (i : nat) : Vector3 :=
  let sx := if Nat.testbit i 0 then 1 else -1 in
  let sy := if Nat.testbit i 1 then 1 else -1 in
  let sz := if Nat.testbit i 2 then 1 else -1 in
  add (applyQuaternion (mkV3 (sx * 1.0) (sy * 0.5) (sz * 2.0)) orientation) center.

(** The OBB's minimum corner signed distance as the specification words it:
    the least of the signed distances of the eight corners of that box. It
    is what [obbSignedDistanceWithNormal] would report if the half extents
    stayed what the caller set them to. *)
Definition minCornerDistance (w : workerState) (center : Vector3) (orientation : Quaternion)
  : num :=
  fold_left
    (fun minDist i =>
       let d := fst (signedDistanceToPlanet w (boxCorner center orientation i)
                       (mkV3 0 0 0) false) in
       if d <? minDist then d else minDist)
    (seq 0 8) infinity.

End WithHost.

(** ** The contact response *)

(** The arithmetic the contact response uses: the operations of the doubles
    the worker runs on, with the player radius and the factor of the spin. *)
Record NumOps (A : Type) := mkOps {
  nadd : A -> A -> A;
  nsub : A -> A -> A;
  nmul : A -> A -> A;
  nneg : A -> A;
  nRadius : A;
  nContactSpin : A
}.

Definition floatOps : NumOps num :=
  mkOps PrimFloat.add PrimFloat.sub PrimFloat.mul PrimFloat.opp playerRadius 0.1.

(** The body of [if (distance < playerRadius) { ... }] in
    [updatePlayerPhysics]: the new position, velocity and angular velocity. *)
Definition contactResponse {A} (O : NumOps A) (distance : A)
  (normal pos velocity angularVelocity : A * A * A) (restitution slideFactor : A)
  : (A * A * A) * (A * A * A) * (A * A * A) :=
  let '(nx, ny, nz) := normal in
  let '(px, py, pz) := pos in
  let '(vx, vy, vz) := velocity in
  let '(ax, ay, az) := angularVelocity in
  let penetration := nsub O (nRadius O) distance in
  let px := nadd O px (nmul O nx penetration) in
  let py := nadd O py (nmul O ny penetration) in
  let pz := nadd O pz (nmul O nz penetration) in
  let vDotN := nadd O (nadd O (nmul O vx nx) (nmul O vy ny)) (nmul O vz nz) in
  let bx := nmul O nx vDotN in
  let by_ := nmul O ny vDotN in
  let bz := nmul O nz vDotN in
  let cx := nsub O vx bx in
  let cy := nsub O vy by_ in
  let cz := nsub O vz bz in
  let bx := nmul O bx (nneg O restitution) in
  let by_ := nmul O by_ (nneg O restitution) in
  let bz := nmul O bz (nneg O restitution) in
  let cx := nmul O cx slideFactor in
  let cy := nmul O cy slideFactor in
  let cz := nmul O cz slideFactor in
  ((px, py, pz),
   (nadd O cx bx, nadd O cy by_, nadd O cz bz),
   (nmul O ax (nContactSpin O), nmul O ay (nContactSpin O), nmul O az (nContactSpin O))).

(** The measure of the specification for the outcome of a contact: the
    terrain sample [(distance, normal)] held fixed, the signed distance along
    the reported normal after the craft has moved by [displacement]. *)
Definition alongNormal {A} (O : NumOps A) (distance : A) (normal displacement : A * A * A) : A :=
  let '(nx, ny, nz) := normal in
  let '(dx, dy, dz) := displacement in
  nadd O distance (nadd O (nadd O (nmul O nx dx) (nmul O ny dy)) (nmul O nz dz)).

(** The displacement between two positions. *)
Definition displacement {A} (O : NumOps A) (from to : A * A * A) : A * A * A :=
  let '(fx, fy, fz) := from in
  let '(tx, ty, tz) := to in
  (nsub O tx fx, nsub O ty fy, nsub O tz fz).

(** ** The fixed step of one player *)

(** The values [updatePlayerPhysics] computes before the collision test, in
    the order of the source. *)
Record motionT := mkMotion {
  m_angularVelocity : Vector3;
  m_rot : Quaternion;
  m_forward : Vector3;
  m_speed0 : num;
  m_maxSpeed : num;
  m_speed : num;
  m_velocity : Vector3;
  m_pos : Vector3
}.

Section WithHost.
Context {host : HostMath}.

(** Step 1: angular velocity from the stick, damping, clamp. *)
Definition angularStep (st : playerState) : Vector3 :=
  let av := angularVelocity st in
  let av := mkV3 (inputY st * pitchVel st) (y av) (inputX st * rollVel st) in
  let av := multiplyScalar av (Math_pow (damping st) FIXED_STEP) in
  mkV3 (clamp (x av) (- MAX_ANG) MAX_ANG) (y av) (clamp (z av) (- MAX_ANG) MAX_ANG).

(** Step 2: the roll then the pitch delta, each premultiplied. *)
Definition rotationStep (st : playerState) (av : Vector3) : Quaternion :=
  let tmpRight := normalize (applyQuaternion (mkV3 1 0 0) (rot st)) in
  let tmpForward := normalize (applyQuaternion (mkV3 0 0 1) (rot st)) in
  let tmpPitchQuat := setFromAxisAngle tmpRight (x av * FIXED_STEP) in
  let tmpRollQuat := setFromAxisAngle tmpForward (z av * FIXED_STEP) in
  qnormalize (premultiply (premultiply (rot st) tmpRollQuat) tmpPitchQuat).

(** [tmpForward.set(0, 0, -1).applyQuaternion(rot).normalize()]. *)
Definition forwardAxis (q : Quaternion) : Vector3 :=
  normalize (applyQuaternion (mkV3 0 0 (-1)) q).

(** [Math.max(0.0001, currentPlayerSpeed || 1)]. *)
Definition maxSpeedOf (st : playerState) : num :=
  Math_max 0.0001 (orElse (playerSpeed st) 1).

(** The update of the scalar [speed], from its first value [speed0] to the
    clamped one. *)
Definition speedStep (st : playerState) (speed0 : num) : num :=
  let maxSpeed := maxSpeedOf st in
  let maxBrakeSpeed := - maxSpeed * 0.5 in
  let ABS_SPEED_LIMIT := maxSpeed * 4 in
  let speed :=
    if 0 <? throttle st then
      Math_min (speed0 + accel st * throttle st * FIXED_STEP) maxSpeed
    else if throttle st <? 0 then
      Math_max (speed0 + accel st * throttle st * FIXED_STEP) maxBrakeSpeed
    else
      let dtNormalized := 1.0 in
      speed0 * Math_pow 0.99 dtNormalized in
  clamp speed (- ABS_SPEED_LIMIT) ABS_SPEED_LIMIT.

(** The update of the signed speed as the specification words it: with a
    positive throttle the speed advances at the rate [acceleration * throttle]
    for one step and stops at [+maxSpeed]; with a negative throttle it advances
    at that (negative) rate and stops at [-0.5 * maxSpeed]; otherwise it is
    multiplied by 0.99, whatever the step; the result is clamped to
    [+-4 * maxSpeed]. *)
Definition speedRule (speed maxSpeed acceleration throttle : num) : num :=
  let advanced := speed + acceleration * throttle * FIXED_STEP in
  let next :=
    if 0 <? throttle then Math_min advanced maxSpeed
    else if throttle <? 0 then Math_max advanced (-0.5 * maxSpeed)
    else speed * 0.99 in
  clamp next (- (4 * maxSpeed)) (4 * maxSpeed).

(** Velocity reconstruction: smoothing towards the desired velocity and the
    clamp of its length. *)
Definition velocityStep (st : playerState) (forward : Vector3) (speed : num) : Vector3 :=
  let dt := FIXED_STEP in
  let ABS_SPEED_LIMIT := maxSpeedOf st * 4 in
  let tmpDesiredVel := multiplyScalar forward speed in
  let lerpAlpha := Math_min 1 (1 - Math_exp (- SMOOTHING_RATE * Math_min dt 2)) in
  let safeAlpha := clamp lerpAlpha 0 1 in
  let v := lerp (velocity st) tmpDesiredVel safeAlpha in
  let velLen := length v in
  if ABS_SPEED_LIMIT <? velLen then multiplyScalar v (ABS_SPEED_LIMIT / velLen) else v.

Definition motion (st : playerState) : motionT :=
  let av := angularStep st in
  let q := rotationStep st av in
  let forward := forwardAxis q in
  let speed0 := dot (velocity st) forward in
  let speed := speedStep st speed0 in
  let v := velocityStep st forward speed in
  let p := add (pos st) (multiplyScalar v FIXED_STEP) in
  mkMotion av q forward speed0 (maxSpeedOf st) speed v p.

(** The collision test of the step: [_obbResult] and [_closestCorner] after
    [obbSignedDistanceWithNormal(pos, _tmpA.set(1.0, 0.5, 2.0), rot, _obbResult)]. *)
Definition collisionTest (w : workerState) (st : playerState) (closest : Vector3)
  : obbResult * Vector3 :=
  let m := motion st in
  obbSignedDistanceWithNormal w (m_pos m) (mkV3 1.0 0.5 2.0) (m_rot m) closest.

(** [updatePlayerPhysics(state)]: the player's state after the step, with
    [_closestCorner]. *)
Definition updatePlayerPhysics (w : workerState) (st : playerState) (closest : Vector3)
  : playerState * Vector3 :=
  let m := motion st in
  let '(obb, closest') := collisionTest w st closest in
  let moved (p v a : Vector3) :=
    mkPlayerState p (m_rot m) v a (throttle st) (inputX st) (inputY st)
      (accel st) (pitchVel st) (rollVel st) (damping st) (playerSpeed st) in
  if distance obb <? playerRadius then
    let '(p, v, a) :=
      contactResponse floatOps (distance obb) (toArr (normal obb)) (toArr (m_pos m))
        (toArr (m_velocity m)) (toArr (m_angularVelocity m))
        (restitution w) (slideFactor w) in
    (moved (ofArr p) (ofArr v) (ofArr a), closest')
  else (moved (m_pos m) (m_velocity m) (m_angularVelocity m), closest').

(** The first loop of [updatePhysics]: every player stepped, in the order of
    the map. *)
Fixpoint stepPlayers (w : workerState) (ps : list (string * playerState)) (closest : Vector3)
  : list (string * playerState) * Vector3 :=
  match ps with
  | [] => ([], closest)
  | (id, st) :: rest =>
      let '(st', closest') := updatePlayerPhysics w st closest in
      let '(rest', closest'') := stepPlayers w rest closest' in
      ((id, st') :: rest', closest'')
  end.

Definition snapshotOf (st : playerState) : Fbm.arr3 * Utils.arr4 * Fbm.arr3 * Fbm.arr3 :=
  (toArr (pos st), (qx (rot st), qy (rot st), qz (rot st), qw (rot st)),
   toArr (velocity st), toArr (angularVelocity st)).

Definition withPlayers (w : workerState) (ps : list (string * playerState))
  (closest : Vector3) (out : list emitted) : workerState :=
  mkWorker (interval w) (running w) (planetRadius w) (fbmParams w) (restitution w)
    (slideFactor w) ps (physicsInterval w) (curvePoints w) (startPositions w)
    (nextStartIndex w) closest out.

(** The own properties of the plain object that [out[id] = value] builds
    from [{}], one write per entry of [writes]. A write under the key
    [__proto__] goes to the setter of [Object.prototype]: it replaces the
    prototype of [out] and makes no own property, so the object posted has no
    entry for it. The object is read by key, with [lookup]: the list keeps
    the order of the writes, which is not the order in which the object
    enumerates its keys (integer-like keys come first there). *)
Definition ownProperties {A} (writes : list (string * A)) : list (string * A) :=
  filter (fun e => negb (String.eqb (fst e) "__proto__"%string)) writes.

(** [updatePhysics()]: step every player, then post one [stateUpdate] with
    the object [out]. *)
Definition updatePhysics (w : workerState) : workerState :=
  let '(ps, closest) := stepPlayers w (players w) (closestCorner w) in
  withPlayers w ps closest
    (outbox w ++
     [EStateUpdate (ownProperties (map (fun e => (fst e, snapshotOf (snd e))) ps))]).

End WithHost.

(** ** Timers and message handling *)

(** The messages the parent posts to the worker. A field that the sender may
    leave out is an [option]. *)
Record addPlayerData := mkAddPlayer {
  ap_playerId : string;
  ap_position : option Fbm.arr3;
  ap_acceleration : option num;
  ap_pitchVelocity : option num;
  ap_rollVelocity : option num;
  ap_damping : option num;
  ap_playerSpeed : option num;
  ap_fbmParams : option Fbm.fbmParamsT;
  ap_curvePoints : option (list Fbm.arr3)
}.

Record initData := mkInit {
  in_fbmParams : option Fbm.fbmParamsT;
  in_curvePoints : option (list Fbm.arr3);
  in_planetSize : option num;
  in_restitution : option num;
  in_slideFactor : option num
}.

Inductive command :=
| CInit (data : initData)
| CStart
| CStop
| CAddPlayer (data : addPlayerData)
| CRemovePlayer (playerId : string)
| CConfig (playerId : string) (playerSpeed acceleration pitchVelocity rollVelocity : option num)
| CInput (playerId : string) (throttle : option num) (inputAxis : option (option (num * num)))
| COther.

(** Maps keyed by strings that keep insertion order: [Map] and plain objects
    with non-numeric keys. *)
Fixpoint lookup {A} (k : string) (l : list (string * A)) : option A :=
  match l with
  | [] => None
  | (k', v) :: l' => if String.eqb k k' then Some v else lookup k l'
  end.

Fixpoint insert {A} (k : string) (v : A) (l : list (string * A)) : list (string * A) :=
  match l with
  | [] => [(k, v)]
  | (k', v') :: l' => if String.eqb k k' then (k, v) :: l' else (k', v') :: insert k v l'
  end.

Fixpoint remove {A} (k : string) (l : list (string * A)) : list (string * A) :=
  match l with
  | [] => []
  | (k', v') :: l' => if String.eqb k k' then l' else (k', v') :: remove k l'
  end.

(** A string is truthy when it is not empty. *)
Definition nonEmpty (s : string) : bool := negb (String.eqb s EmptyString).

Definition post (w : workerState) (e : emitted) : workerState :=
  withPlayers w (players w) (closestCorner w) (outbox w ++ [e]).

(** [log(roomId, msg)] posts a [PhysicsWorker:log] message. *)
Definition log (w : workerState) : workerState := post w ELog.

(** [start()]. *)
Definition start (w : workerState) : workerState :=
  if running w then w
  else mkWorker true true (planetRadius w) (fbmParams w) (restitution w) (slideFactor w)
         (players w) (physicsInterval w) (curvePoints w) (startPositions w)
         (nextStartIndex w) (closestCorner w) (outbox w).

(** [stop()]. *)
Definition stop (w : workerState) : workerState :=
  mkWorker false false (planetRadius w) (fbmParams w) (restitution w) (slideFactor w)
    (players w) (physicsInterval w) (curvePoints w) (startPositions w)
    (nextStartIndex w) (closestCorner w) (outbox w).

(** [startFixedUpdateLoop()]: a log line, then the physics interval is
    cleared if set and armed again. *)
Definition startFixedUpdateLoop (w : workerState) : workerState :=
  let w := log w in
  mkWorker (interval w) (running w) (planetRadius w) (fbmParams w) (restitution w)
    (slideFactor w) (players w) true (curvePoints w) (startPositions w)
    (nextStartIndex w) (closestCorner w) (outbox w).

Section WithHost.
Context {host : HostMath}.

(** [init(data)]. [None]: the precomputation of the start poses threw. *)
Definition init (w : workerState) (data : initData) : option workerState :=
  let planetRadius' := nullish (in_planetSize data) (planetRadius w) in
  let fbmParams' :=
    match in_fbmParams data with Some fp => Some fp | None => fbmParams w end in
  let curve :=
    match in_curvePoints data with
    | Some cp =>
        match Utils.precomputeStartPositions cp with
        | Some sp => Some (Some cp, Some sp, O)
        | None => None
        end
    | None => Some (curvePoints w, startPositions w, nextStartIndex w)
    end in
  match curve with
  | None => None
  | Some (cp, sp, idx) =>
      let restitution' :=
        match in_restitution data with
        | Some r => if truthy r then r else restitution w
        | None => restitution w
        end in
      let slideFactor' :=
        match in_slideFactor data with
        | Some r => if truthy r then r else slideFactor w
        | None => slideFactor w
        end in
      let w := mkWorker (interval w) (running w) planetRadius' fbmParams' restitution'
                 slideFactor' (players w) (physicsInterval w) cp sp idx
                 (closestCorner w) (outbox w) in
      Some (startFixedUpdateLoop (log w))
  end.

(** [handleConfig(data)]. *)
Definition handleConfig (w : workerState) (playerId : string)
  (playerSpeed' acceleration pitchVelocity rollVelocity : option num) : workerState :=
  match lookup playerId (players w) with
  | None => w
  | Some st =>
      let st' :=
        mkPlayerState (pos st) (rot st) (velocity st) (angularVelocity st)
          (throttle st) (inputX st) (inputY st)
          (nullish acceleration (accel st))
          (nullish pitchVelocity (pitchVel st))
          (nullish rollVelocity (rollVel st))
          (damping st)
          (nullish playerSpeed' (playerSpeed st)) in
      withPlayers w (insert playerId st' (players w)) (closestCorner w) (outbox w)
  end.

(** [addPlayer(data)]. [None]: the precomputation of the start poses threw. *)
Definition addPlayer (w : workerState) (data : addPlayerData) : option workerState :=
  let playerId := ap_playerId data in
  if negb (nonEmpty playerId) then Some w
  else
    let fbmParams' :=
      match fbmParams w with Some fp => Some fp | None => ap_fbmParams data end in
    let curve :=
      match curvePoints w, ap_curvePoints data with
      | None, Some cp =>
          match Utils.precomputeStartPositions cp with
          | Some sp => Some (true, Some cp, Some sp, O)
          | None => None
          end
      | _, _ => Some (false, curvePoints w, startPositions w, nextStartIndex w)
      end in
    match curve with
    | None => None
    | Some (logged, cp, sp, idx) =>
        let out := if logged then outbox w ++ [ELog] else outbox w in
        let '(startPose, idx') :=
          match sp with
          | Some (p0 :: ps) =>
              (nth (idx mod List.length (p0 :: ps)) (p0 :: ps) p0, Datatypes.S idx)
          | _ => (Utils.mkPose (0, 0, 0) (0, 0, 0, 1), idx)
          end in
        let st :=
          mkPlayerState
            (ofArr (nullish (ap_position data) (Utils.position startPose)))
            (quatOfArr (Utils.quaternion startPose))
            (mkV3 0 0 0) (mkV3 0 0 0)
            0 0 0
            (nullish (ap_acceleration data) 20)
            (nullish (ap_pitchVelocity data) 3)
            (nullish (ap_rollVelocity data) 6)
            (nullish (ap_damping data) 0.998)
            (nullish (ap_playerSpeed data) 50) in
        Some (mkWorker (interval w) (running w) (planetRadius w) fbmParams'
                (restitution w) (slideFactor w) (insert playerId st (players w))
                (physicsInterval w) cp sp idx' (closestCorner w) (out ++ [ELog]))
    end.

(** [removePlayer(data)]. *)
Definition removePlayer (w : workerState) (playerId : string) : workerState :=
  if negb (nonEmpty playerId) then w
  else log (withPlayers w (remove playerId (players w)) (closestCorner w) (outbox w)).

(** [handleInput(data)]. [None]: the key [inputAxis] is present with the
    value [undefined], and reading [data.inputAxis.x] throws. *)
Definition handleInput (w : workerState) (playerId : string) (throttle' : option num)
  (inputAxis : option (option (num * num))) : option workerState :=
  let w := log w in
  match lookup playerId (players w) with
  | None => Some w
  | Some st =>
      let th := nullish throttle' (throttle st) in
      match inputAxis with
      | Some None => None
      | _ =>
          let '(ix, iy) :=
            match inputAxis with
            | Some (Some (ax, ay)) => (ax, ay)
            | _ => (inputX st, inputY st)
            end in
          let st' :=
            mkPlayerState (pos st) (rot st) (velocity st) (angularVelocity st)
              th ix iy (accel st) (pitchVel st) (rollVel st) (damping st) (playerSpeed st) in
          Some (withPlayers w (insert playerId st' (players w)) (closestCorner w) (outbox w))
      end
  end.

(** [parentPort.on('message', ...)]. [None]: the handler threw. *)
Definition onMessage (w : workerState) (c : command) : option workerState :=
  match c with
  | CAddPlayer data => addPlayer w data
  | CRemovePlayer playerId => Some (removePlayer w playerId)
  | CConfig playerId ps a pv rv => Some (handleConfig w playerId ps a pv rv)
  | CStart => Some (start w)
  | CStop => Some (stop w)
  | CInit data => init w data
  | CInput playerId th ax => handleInput w playerId th ax
  | COther => Some w
  end.

(** What can happen to a worker: a message arrives, or one of its two
    intervals elapses (which it can only do while armed). *)
Inductive occurrence :=
| Receive (c : command)
| TickInterval
| PhysicsInterval.

Definition occur (w : workerState) (o : occurrence) : option workerState :=
  match o with
  | Receive c => onMessage w c
  | TickInterval => Some (if interval w then post w ETick else w)
  | PhysicsInterval => Some (if physicsInterval w then updatePhysics w else w)
  end.

Fixpoint run (w : workerState) (os : list occurrence) : option workerState :=
  match os with
  | [] => Some w
  | o :: os' => match occur w o with None => None | Some w' => run w' os' end
  end.

End WithHost.

(** The occurrences that arm the tick interval: a [start] command. *)
Definition isStart (o : occurrence) : bool :=
  match o with Receive CStart => true | _ => false end.

Definition isTick (e : emitted) : bool := match e with ETick => true | _ => false end.
Definition isStateUpdate (e : emitted) : bool :=
  match e with EStateUpdate _ => true | _ => false end.

(** The arrival of one [addPlayer] message after the other. *)
Definition addAll (ds : list addPlayerData) : list occurrence :=
  map (fun d => Receive (CAddPlayer d)) ds.

End PhysicsWorker.

(* ====================================================================== *)
(** * server.js *)
(* ====================================================================== *)

Module Server.

Import PhysicsWorker.

Definition MAX_PLAYERS_PER_ROOM : nat := 8.

Inductive phaseT := lobby | pregame | racecountdown | racing | finished.

Definition phase_eqb (a b : phaseT) : bool :=
  match a, b with
  | lobby, lobby | pregame, pregame | racecountdown, racecountdown
  | racing, racing | finished, finished => true
  | _, _ => false
  end.

(** A roster entry. The [socket] field is the connection the entry was made
    for; it is never read back and is left out. *)
Record playerT := mkPlayer {
  p_id : string;
  p_name : string;
  p_joinedAt : Z;
  p_ready : bool;
  p_score : Z;
  p_outOfBoundsTime : Z;
  p_position : option Z;
  p_finishedAt : option Z
}.

(** A room. An interval created by [setInterval] is kept where its handle is
    stored: [Some t] is a live interval whose closure variable [t] has that
    value, [None] is [null] or a cleared handle. [physicsWorker] refers to the
    worker by the id of the room that created it. *)
Record roomT := mkRoom {
  r_id : string;
  r_players : list (string * playerT);
  r_phase : phaseT;
  r_stage : string;
  r_pregameTimer : option Z;
  r_raceTimer : option Z;
  r_raceStartAt : option Z;
  r_physicsWorker : option string;
  r_pregameTimerStart : option Z;
  r_pregameDuration : option Z
}.

(** A [Worker] object as the main thread sees it: the messages passed to
    [postMessage], oldest first; whether [terminate()] was called; and the
    variables of the closures made for it in [getOrCreateOpenRoom]. *)
Record workerT := mkWorkerT {
  w_posted : list command;
  w_terminated : bool;
  w_workerReady : bool;
  w_pendingMessages : list command;
  w_onceArmed : bool;
  w_playerId : string;
  w_fbmParams : option Fbm.fbmParamsT;
  w_curvePoints : option (list Fbm.arr3)
}.

(** A connection: the [ws] object with the two properties the server sets. *)
Record socketT := mkSocket {
  s_playerId : string;
  s_roomId : option string
}.

(** A message sent to a client: the receiving connection and the type. The
    [server:log] lines of [log()] are not kept. *)
Definition sentT := (nat * string)%type.

(** The state of the process: [state.rooms], the workers, [wss.clients], and
    what was sent to the clients, oldest first. *)
Record serverT := mkServer {
  rooms : list (string * roomT);
  workers : list (string * workerT);
  clients : list (nat * socketT);
  sent : list sentT
}.

Definition initial : serverT := mkServer [] [] [] [].

(** What the environment supplies to a handler: [Date.now()], the next
    [uuidv4()], and whether [process.env.ALLOW_FORCE_START === 'true']. *)
Record envT := mkEnv {
  now : Z;
  uuid : string;
  ALLOW_FORCE_START : bool
}.

(** ** Messages of the clients *)

Record joinPayload := mkJoin {
  j_name : option string;
  j_fbmParams : option Fbm.fbmParamsT;
  j_curvePoints : option (list Fbm.arr3)
}.

Record inputPayload := mkInput {
  i_throttle : option num;
  i_inputAxis : option (num * num)
}.

Record configPayload := mkConfig {
  c_playerSpeed : option num;
  c_acceleration : option num;
  c_pitchVelocity : option num;
  c_rollVelocity : option num
}.

(** A parsed message, by its [type]; the payload may be missing. For
    [setReady] the payload carries the truthiness of [payload.ready]. *)
Inductive clientMsg :=
| Join (payload : option joinPayload)
| Removed
| SetReady (payload : option bool)
| Input (payload : option inputPayload)
| Config (payload : option configPayload)
| Finish
| StartNow
| Unknown.

(** What arrives on a connection: text [JSON.parse] rejects, the JSON value
    [null], or a value whose [type] and [payload] can be read. *)
Inductive frameT :=
| Garbage
| JsonNull
| Parsed (m : clientMsg).

(** What the worker of a room posts to the main thread. *)
Inductive workerOut := Ready | Tick | StateUpdate | WorkerLog.

Inductive event :=
| Connection (ws : nat) (playerId : string)
| Message (ws : nat) (f : frameT)
| Close (ws : nat)
| WorkerMessage (roomId : string) (m : workerOut)
| WorkerExit (roomId : string)
| PregameInterval (roomId : string)
| RaceInterval (roomId : string).

(** How a handler ends: normally, or with an uncaught [TypeError]. *)
Inductive outcome := Completed | Thrown.

(** ** Helpers *)

Definition getRoom (st : serverT) (roomId : string) : option roomT :=
  lookup roomId (rooms st).

Definition setRoom (st : serverT) (r : roomT) : serverT :=
  mkServer (insert (r_id r) r (rooms st)) (workers st) (clients st) (sent st).

Definition deleteRoom (st : serverT) (roomId : string) : serverT :=
  mkServer (remove roomId (rooms st)) (workers st) (clients st) (sent st).

Definition setWorker (st : serverT) (roomId : string) (w : workerT) : serverT :=
  mkServer (rooms st) (insert roomId w (workers st)) (clients st) (sent st).

Fixpoint lookupN {A} (k : nat) (l : list (nat * A)) : option A :=
  match l with
  | [] => None
  | (k', v) :: l' => if Nat.eqb k k' then Some v else lookupN k l'
  end.

Fixpoint insertN {A} (k : nat) (v : A) (l : list (nat * A)) : list (nat * A) :=
  match l with
  | [] => [(k, v)]
  | (k', v') :: l' => if Nat.eqb k k' then (k, v) :: l' else (k', v') :: insertN k v l'
  end.

Fixpoint removeN {A} (k : nat) (l : list (nat * A)) : list (nat * A) :=
  match l with
  | [] => []
  | (k', v') :: l' => if Nat.eqb k k' then l' else (k', v') :: removeN k l'
  end.

(** [send(ws, type, payload)]. *)
Definition send (st : serverT) (ws : nat) (type : string) : serverT :=
  match lookupN ws (clients st) with
  | Some _ => mkServer (rooms st) (workers st) (clients st) (sent st ++ [(ws, type)])
  | None => st
  end.

Definition optEqb (a : option string) (b : string) : bool :=
  match a with Some a' => String.eqb a' b | None => false end.

(** [broadcast(roomId, type, payload)]: to every open client of the room,
    nothing when the room does not exist. *)
Definition broadcast (st : serverT) (roomId : string) (type : string) : serverT :=
  match getRoom st roomId with
  | None => st
  | Some _ =>
      mkServer (rooms st) (workers st) (clients st)
        (sent st ++
         map (fun c => (fst c, type))
           (filter (fun c => optEqb (s_roomId (snd c)) roomId) (clients st)))
  end.

(** [broadcastRoomState(roomId)]. *)
Definition broadcastRoomState (st : serverT) (roomId : string) : serverT :=
  broadcast st roomId "room:update".

(** [worker.postMessage(msg)]. *)
Definition postMessage (w : workerT) (msg : command) : workerT :=
  mkWorkerT (w_posted w ++ [msg]) (w_terminated w) (w_workerReady w)
    (w_pendingMessages w) (w_onceArmed w) (w_playerId w) (w_fbmParams w) (w_curvePoints w).

(** [worker.terminate()]. *)
Definition terminate (w : workerT) : workerT :=
  mkWorkerT (w_posted w) true (w_workerReady w)
    (w_pendingMessages w) (w_onceArmed w) (w_playerId w) (w_fbmParams w) (w_curvePoints w).

(** [sendToWorker(msg)], the closure of [getOrCreateOpenRoom]. *)
Definition sendToWorker (w : workerT) (msg : command) : workerT :=
  if w_workerReady w then postMessage w msg
  else mkWorkerT (w_posted w) (w_terminated w) (w_workerReady w)
         (w_pendingMessages w ++ [msg]) (w_onceArmed w) (w_playerId w)
         (w_fbmParams w) (w_curvePoints w).

(** Post to the worker a room refers to, if it refers to one. *)
Definition postToRoomWorker (st : serverT) (r : roomT) (msg : command) : serverT :=
  match r_physicsWorker r with
  | None => st
  | Some wid =>
      match lookup wid (workers st) with
      | Some w => setWorker st wid (postMessage w msg)
      | None => st
      end
  end.

(** The [addPlayer] message the server builds, in all three places. *)
Definition addPlayerMessage (playerId : string) (fbmParams : option Fbm.fbmParamsT)
  (curvePoints : option (list Fbm.arr3)) : command :=
  CAddPlayer
    (mkAddPlayer playerId (Some (0, 0, 0)%float) (Some 1.0%float) (Some 1.0%float)
       (Some 1.0%float) (Some 0.998%float) (Some 1.0%float)
       (match fbmParams with
        | Some fp => Some fp
        | None => Some (Fbm.mkFbmParams nan nan nan 0 nan false None None)
        end)
       (Some (match curvePoints with Some cp => cp | None => [] end))).

Definition newPlayer (playerId : string) (name : option string) (joinedAt : Z) : playerT :=
  mkPlayer playerId
    (match name with
     | Some n => if nonEmpty n then n else "anon"%string
     | None => "anon"%string
     end)
    joinedAt false 0 0 None None.

(** ** Rooms *)

Definition isOpen (r : roomT) : bool :=
  phase_eqb (r_phase r) lobby && (List.length (r_players r) <? MAX_PLAYERS_PER_ROOM)%nat.

(** The loop of [getOrCreateOpenRoom]: the first open room in the order of
    [state.rooms]. *)
Definition findOpenRoom (st : serverT) : option roomT :=
  match find (fun e => isOpen (snd e)) (rooms st) with
  | Some e => Some (snd e)
  | None => None
  end.

(** [getOrCreateOpenRoom({ playerId, name, fbmParams, curvePoints, ws })]:
    the state and the room returned. A new room gets a new worker; the creating
    player is put on its roster and an [addPlayer] message is posted for it
    at once with [worker.postMessage]. *)
Definition getOrCreateOpenRoom (env : envT) (st : serverT) (playerId : string)
  (name : option string) (fbmParams : option Fbm.fbmParamsT)
  (curvePoints : option (list Fbm.arr3)) : serverT * roomT :=
  match findOpenRoom st with
  | Some room => (st, room)
  | None =>
      let newRoomId := uuid env in
      let worker := mkWorkerT [] false false [] true playerId fbmParams curvePoints in
      let worker :=
        if nonEmpty playerId
        then postMessage worker (addPlayerMessage playerId fbmParams curvePoints)
        else worker in
      let newRoom :=
        mkRoom newRoomId
          (if nonEmpty playerId
           then [(playerId, newPlayer playerId name (now env))] else [])
          lobby "/stages/stage1" None None None (Some newRoomId) None None in
      (setRoom (setWorker st newRoomId worker) newRoom, newRoom)
  end.

(** The handler given to [worker.once('message', ...)]: on [ready] it sets
    [workerReady], flushes the queue, and sends [init], [start] and the
    [addPlayer] of the creating player through [sendToWorker]. *)
Definition onFirstWorkerMessage (w : workerT) (m : workerOut) : workerT :=
  let w := mkWorkerT (w_posted w) (w_terminated w) (w_workerReady w)
             (w_pendingMessages w) false (w_playerId w) (w_fbmParams w)
             (w_curvePoints w) in
  match m with
  | Ready =>
      let w := mkWorkerT (w_posted w ++ w_pendingMessages w) (w_terminated w) true
                 [] false (w_playerId w) (w_fbmParams w) (w_curvePoints w) in
      let planetSize :=
        match w_fbmParams w with
        | Some fp =>
            match Fbm.planetSize fp with
            | Some ps => orElse ps 350%float
            | None => 350%float
            end
        | None => 350%float
        end in
      let w := sendToWorker w
                 (CInit (mkInit (w_fbmParams w) (w_curvePoints w) (Some planetSize)
                           (Some 0.0%float) (Some 0.0%float))) in
      let w := sendToWorker w CStart in
      if nonEmpty (w_playerId w)
      then sendToWorker w (addPlayerMessage (w_playerId w) (w_fbmParams w) (w_curvePoints w))
      else w
  | _ => w
  end.

(** [assignStartPositions(roomId)]: the players sorted by [joinedAt] (the
    sort is stable) get the positions 1, 2, ... *)
Fixpoint insertByJoin (p : playerT) (l : list playerT) : list playerT :=
  match l with
  | [] => [p]
  | q :: l' => if (p_joinedAt p <? p_joinedAt q)%Z then p :: q :: l' else q :: insertByJoin p l'
  end.

Definition sortByJoin (l : list playerT) : list playerT :=
  fold_left (fun acc p => insertByJoin p acc) l [].

Definition setPosition (p : playerT) (position : Z) : playerT :=
  mkPlayer (p_id p) (p_name p) (p_joinedAt p) (p_ready p) (p_score p)
    (p_outOfBoundsTime p) (Some position) (p_finishedAt p).

Fixpoint assignFrom (sorted : list playerT) (i : Z) (roster : list (string * playerT))
  : list (string * playerT) :=
  match sorted with
  | [] => roster
  | p :: rest =>
      let roster :=
        match lookup (p_id p) roster with
        | Some q => insert (p_id p) (setPosition q (i + 1)) roster
        | None => roster
        end in
      assignFrom rest (i + 1) roster
  end.

Definition withRoster (r : roomT) (ps : list (string * playerT)) : roomT :=
  mkRoom (r_id r) ps (r_phase r) (r_stage r) (r_pregameTimer r) (r_raceTimer r)
    (r_raceStartAt r) (r_physicsWorker r) (r_pregameTimerStart r) (r_pregameDuration r).

Definition assignStartPositions (st : serverT) (roomId : string) : serverT :=
  match getRoom st roomId with
  | None => st
  | Some room =>
      setRoom st
        (withRoster room
           (assignFrom (sortByJoin (map snd (r_players room))) 0 (r_players room)))
  end.

(** [cleanupRoom(roomId, playerId)]. *)
Definition cleanupRoom (st : serverT) (roomId playerId : string) : serverT :=
  match getRoom st roomId with
  | None => st
  | Some room =>
      let st :=
        match r_physicsWorker room with
        | Some wid =>
            match lookup wid (workers st) with
            | Some w =>
                setWorker st wid
                  (terminate (postMessage (postMessage w (CRemovePlayer playerId)) CStop))
            | None => st
            end
        | None => st
        end in
      deleteRoom st roomId
  end.

(** ** The phase machine *)

Definition withPhase (r : roomT) (ph : phaseT) (pregameTimer raceTimer raceStartAt : option Z)
  : roomT :=
  mkRoom (r_id r) (r_players r) ph (r_stage r) pregameTimer raceTimer raceStartAt
    (r_physicsWorker r) (r_pregameTimerStart r) (r_pregameDuration r).

(** [startPregameCountdown(roomId, seconds)]. *)
Definition startPregameCountdown (env : envT) (st : serverT) (roomId : string) (seconds : Z)
  : serverT :=
  match getRoom st roomId with
  | None => st
  | Some room =>
      if negb (phase_eqb (r_phase room) lobby) then st
      else
        let room :=
          mkRoom (r_id room) (r_players room) pregame (r_stage room) (Some seconds)
            (r_raceTimer room) (r_raceStartAt room) (r_physicsWorker room)
            (Some (now env)) (Some seconds) in
        broadcastRoomState (setRoom st room) roomId
  end.

(** [startRaceCountdown(roomId, seconds)]. *)
Definition startRaceCountdown (st : serverT) (roomId : string) (seconds : Z) : serverT :=
  match getRoom st roomId with
  | None => st
  | Some room =>
      let st := setRoom st (withPhase room racecountdown (r_pregameTimer room)
                              (r_raceTimer room) (r_raceStartAt room)) in
      let st := broadcast st roomId "racecountdown:tick" in
      let st :=
        match getRoom st roomId with
        | Some room =>
            setRoom st (withPhase room racecountdown (r_pregameTimer room)
                          (Some seconds) (r_raceStartAt room))
        | None => st
        end in
      broadcastRoomState st roomId
  end.

(** [startRace(roomId)]. *)
Definition startRace (env : envT) (st : serverT) (roomId : string) : serverT :=
  match getRoom st roomId with
  | None => st
  | Some room =>
      let st := setRoom st (withPhase room racing (r_pregameTimer room)
                              (r_raceTimer room) (Some (now env))) in
      broadcastRoomState (broadcast st roomId "race:start") roomId
  end.

(** [endRace(roomId)]. *)
Definition endRace (st : serverT) (roomId : string) : serverT :=
  match getRoom st roomId with
  | None => st
  | Some room =>
      let st := setRoom st (withPhase room finished (r_pregameTimer room)
                              (r_raceTimer room) (r_raceStartAt room)) in
      broadcastRoomState (broadcast st roomId "race:end") roomId
  end.

(** The callback of the pregame interval: [t--], then the transition or a
    [pregame:tick]. It runs only while the interval is live. *)
Definition pregameInterval (env : envT) (st : serverT) (roomId : string) : serverT :=
  match getRoom st roomId with
  | None => st
  | Some room =>
      match r_pregameTimer room with
      | None => st
      | Some t =>
          let t := (t - 1)%Z in
          if (t <=? 0)%Z then
            let st := setRoom st (withPhase room (r_phase room) None (r_raceTimer room)
                                    (r_raceStartAt room)) in
            let st := assignStartPositions st roomId in
            let st := broadcastRoomState st roomId in
            startRaceCountdown st roomId 5
          else
            let st := setRoom st (withPhase room (r_phase room) (Some t) (r_raceTimer room)
                                    (r_raceStartAt room)) in
            broadcast st roomId "pregame:tick"
      end
  end.

(** The callback of the race countdown interval. *)
Definition raceInterval (env : envT) (st : serverT) (roomId : string) : serverT :=
  match getRoom st roomId with
  | None => st
  | Some room =>
      match r_raceTimer room with
      | None => st
      | Some t =>
          let t := (t - 1)%Z in
          if (t <=? 0)%Z then
            let st := setRoom st (withPhase room (r_phase room) (r_pregameTimer room) None
                                    (r_raceStartAt room)) in
            startRace env st roomId
          else
            let st := setRoom st (withPhase room (r_phase room) (r_pregameTimer room)
                                    (Some t) (r_raceStartAt room)) in
            broadcast st roomId "racecountdown:tick"
      end
  end.

(** ** The connection handlers *)

Definition setClientRoom (st : serverT) (ws : nat) (roomId : string) : serverT :=
  match lookupN ws (clients st) with
  | Some c =>
      mkServer (rooms st) (workers st)
        (insertN ws (mkSocket (s_playerId c) (Some roomId)) (clients st)) (sent st)
  | None => st
  end.

(** [if (type === 'join') { ... }]. *)
Definition onJoin (env : envT) (st : serverT) (ws : nat) (playerId : string)
  (payload : option joinPayload) : serverT :=
  let name := match payload with Some p => j_name p | None => None end in
  let fbmParams := match payload with Some p => j_fbmParams p | None => None end in
  let curvePoints := match payload with Some p => j_curvePoints p | None => None end in
  let '(st, room) := getOrCreateOpenRoom env st playerId name fbmParams curvePoints in
  let roomId := r_id room in
  let st := setClientRoom st ws roomId in
  let st :=
    match lookup playerId (r_players room) with
    | Some _ => st
    | None =>
        let room' := withRoster room
                       (insert playerId (newPlayer playerId name (now env)) (r_players room)) in
        let st := setRoom st room' in
        postToRoomWorker st room' (addPlayerMessage playerId fbmParams curvePoints)
    end in
  broadcastRoomState (send st ws "joined") roomId.

(** [if (type === 'removed') { ... }]: [None] when the handler returns from
    inside the block. *)
Definition onRemoved (st : serverT) (ws : nat) (playerId : string) (roomId : option string)
  : option serverT :=
  match roomId with
  | None => None
  | Some roomId =>
      if negb (nonEmpty roomId) then None
      else
        match getRoom st roomId with
        | None => None
        | Some room =>
            match lookup playerId (r_players room) with
            | None => None
            | Some _ =>
                let st := postToRoomWorker st room (CRemovePlayer playerId) in
                let st := setRoom st (withRoster room (remove playerId (r_players room))) in
                Some (broadcastRoomState (send st ws "removed") roomId)
            end
        end
  end.

Definition setReadyFlag (p : playerT) (ready : bool) : playerT :=
  mkPlayer (p_id p) (p_name p) (p_joinedAt p) ready (p_score p)
    (p_outOfBoundsTime p) (p_position p) (p_finishedAt p).

(** [if (type === 'setReady') { ... }]. The room is read without a check:
    [room.players] throws when the room is gone, and [payload.ready] throws
    when there is no payload. *)
Definition onSetReady (st : serverT) (playerId roomId : string) (payload : option bool)
  : serverT * outcome :=
  match getRoom st roomId with
  | None => (st, Thrown)
  | Some room =>
      match lookup playerId (r_players room) with
      | None => (st, Completed)
      | Some p =>
          match payload with
          | None => (st, Thrown)
          | Some ready =>
              let st := setRoom st (withRoster room
                                      (insert playerId (setReadyFlag p ready) (r_players room))) in
              (broadcastRoomState st roomId, Completed)
          end
      end
  end.

(** [if (type === 'input') { ... }]. The room is read without a check here
    too; [payload.throttle] throws when there is no payload. *)
Definition onInput (st : serverT) (playerId roomId : string) (payload : option inputPayload)
  : serverT * outcome :=
  match getRoom st roomId with
  | None => (st, Thrown)
  | Some room =>
      match lookup playerId (r_players room) with
      | None => (st, Completed)
      | Some p =>
          let st := broadcast st roomId "input" in
          match r_physicsWorker room with
          | None => (st, Completed)
          | Some _ =>
              match payload with
              | None => (st, Thrown)
              | Some pl =>
                  (postToRoomWorker st room
                     (CInput playerId (i_throttle pl) (Some (i_inputAxis pl))),
                   Completed)
              end
          end
      end
  end.

(** [if (type === 'config') { ... }]. The payload is spread into the
    message; only the four tuning fields are kept here. *)
Definition onConfig (st : serverT) (playerId roomId : string) (payload : option configPayload)
  : serverT :=
  match getRoom st roomId with
  | None => st
  | Some room =>
      let pl := match payload with
                | Some pl => pl
                | None => mkConfig None None None None
                end in
      postToRoomWorker st room
        (CConfig playerId (c_playerSpeed pl) (c_acceleration pl)
           (c_pitchVelocity pl) (c_rollVelocity pl))
  end.

(** The payload of a [config] message read as an object, with the keys the
    worker looks at in any of its handlers. The keys [type] and [playerId],
    when the payload has them (as strings), replace the two written before
    the spread in [{ type: 'config', playerId, ...payload }]. *)
Record configObject := mkConfigObject {
  co_type : option string;
  co_playerId : option string;
  co_playerSpeed : option num;
  co_acceleration : option num;
  co_pitchVelocity : option num;
  co_rollVelocity : option num;
  co_damping : option num;
  co_position : option Fbm.arr3;
  co_fbmParams : option Fbm.fbmParamsT;
  co_curvePoints : option (list Fbm.arr3);
  co_planetSize : option num;
  co_restitution : option num;
  co_slideFactor : option num;
  co_throttle : option num;
  co_inputAxis : option (option (num * num))
}.

(** A payload with the tuning fields alone. *)
Definition plainConfig (pl : configPayload) : configObject :=
  mkConfigObject None None (c_playerSpeed pl) (c_acceleration pl) (c_pitchVelocity pl)
    (c_rollVelocity pl) None None None None None None None None None.

(** A payload with a [type], and a [playerId] or none, and nothing else. *)
Definition typedConfig (type : string) (playerId : option string) : configObject :=
  mkConfigObject (Some type) playerId None None None None None None None None None None None
    None None.

(** The object [{ type: 'config', playerId, ...payload }] as the dispatch of
    the worker reads it: by its [type], with the fields the handler of that
    type looks at. *)
Definition configMessage (playerId : string) (payload : option configObject) : command :=
  match payload with
  | None => CConfig playerId None None None None
  | Some o =>
      let type := nullish (co_type o) "config"%string in
      let playerId := nullish (co_playerId o) playerId in
      if String.eqb type "addPlayer"%string then
        CAddPlayer (mkAddPlayer playerId (co_position o) (co_acceleration o)
                      (co_pitchVelocity o) (co_rollVelocity o) (co_damping o)
                      (co_playerSpeed o) (co_fbmParams o) (co_curvePoints o))
      else if String.eqb type "removePlayer"%string then CRemovePlayer playerId
      else if String.eqb type "config"%string then
        CConfig playerId (co_playerSpeed o) (co_acceleration o) (co_pitchVelocity o)
          (co_rollVelocity o)
      else if String.eqb type "start"%string then CStart
      else if String.eqb type "stop"%string then CStop
      else if String.eqb type "init"%string then
        CInit (mkInit (co_fbmParams o) (co_curvePoints o) (co_planetSize o)
                 (co_restitution o) (co_slideFactor o))
      else if String.eqb type "input"%string then
        CInput playerId (co_throttle o) (co_inputAxis o)
      else COther
  end.

(** [if (type === 'config') { ... }] with the payload as an object. *)
Definition onConfigObject (st : serverT) (playerId roomId : string)
  (payload : option configObject) : serverT :=
  match getRoom st roomId with
  | None => st
  | Some room => postToRoomWorker st room (configMessage playerId payload)
  end.

(** A [finishedAt] is truthy when it is set and not zero. *)
Definition hasFinished (p : playerT) : bool :=
  match p_finishedAt p with
  | Some t => negb (t =? 0)%Z
  | None => false
  end.

Definition setFinished (p : playerT) (t : Z) : playerT :=
  mkPlayer (p_id p) (p_name p) (p_joinedAt p) (p_ready p)
    ((if (p_score p =? 0)%Z then 0 else p_score p) + 1)%Z
    (p_outOfBoundsTime p) (p_position p) (Some t).

(** [if (type === 'finish') { ... }]. *)
Definition onFinish (env : envT) (st : serverT) (playerId roomId : string) : serverT :=
  match getRoom st roomId with
  | None => st
  | Some room =>
      match lookup playerId (r_players room) with
      | None => st
      | Some p =>
          let roster := insert playerId (setFinished p (now env)) (r_players room) in
          let st := setRoom st (withRoster room roster) in
          let st := broadcast st roomId "player:finished" in
          if forallb (fun e => hasFinished (snd e)) roster then endRace st roomId else st
      end
  end.

(** [ws.on('message', ...)]. *)
Definition onMessage (env : envT) (st : serverT) (ws : nat) (f : frameT)
  : serverT * outcome :=
  match lookupN ws (clients st) with
  | None => (st, Completed)
  | Some c =>
      let playerId := s_playerId c in
      match f with
      | Garbage => (st, Completed)
      | JsonNull => (st, Thrown)
      | Parsed m =>
          let st1 :=
            match m with
            | Join payload => Some (onJoin env st ws playerId payload)
            | Removed => onRemoved st ws playerId (s_roomId c)
            | _ => Some st
            end in
          match st1 with
          | None => (st, Completed)
          | Some st =>
              let roomId :=
                match lookupN ws (clients st) with
                | Some c' => s_roomId c'
                | None => None
                end in
              match roomId with
              | None => (st, Completed)
              | Some roomId =>
                  if nonEmpty roomId then
                    match m with
                    | SetReady payload => onSetReady st playerId roomId payload
                    | Input payload => onInput st playerId roomId payload
                    | Config payload => (onConfig st playerId roomId payload, Completed)
                    | Finish => (onFinish env st playerId roomId, Completed)
                    | StartNow =>
                        (if ALLOW_FORCE_START env
                         then startPregameCountdown env st roomId 3 else st, Completed)
                    | _ => (st, Completed)
                    end
                  else (st, Completed)
              end
          end
      end
  end.

Definition clearTimers (r : roomT) : roomT :=
  withPhase r (r_phase r) None None (r_raceStartAt r).

(** [ws.on('close', ...)]. After the event the connection is no longer among
    [wss.clients]. *)
Definition onClose (st : serverT) (ws : nat) : serverT :=
  match lookupN ws (clients st) with
  | None => st
  | Some c =>
      let st := mkServer (rooms st) (workers st) (removeN ws (clients st)) (sent st) in
      match s_roomId c with
      | None => st
      | Some roomId =>
          if nonEmpty roomId then
            let st :=
              match getRoom st roomId with
              | Some room =>
                  match r_players room with
                  | [] => deleteRoom st roomId
                  | _ => st
                  end
              | None => st
              end in
            cleanupRoom st roomId (s_playerId c)
          else st
      end
  end.

(** The two listeners on a worker's messages: the one-shot handler, then the
    permanent one, which relays [stateUpdate] as [physics:update]. A worker
    that was terminated delivers nothing. *)
Definition onWorkerMessage (st : serverT) (roomId : string) (m : workerOut) : serverT :=
  match lookup roomId (workers st) with
  | None => st
  | Some w =>
      if w_terminated w then st
      else
        let st := if w_onceArmed w
                  then setWorker st roomId (onFirstWorkerMessage w m) else st in
        match m with
        | StateUpdate => broadcast st roomId "physics:update"
        | _ => st
        end
  end.

(** [worker.on('exit', ...)]. *)
Definition onWorkerExit (st : serverT) (roomId : string) : serverT :=
  match getRoom st roomId with
  | Some room =>
      setRoom st
        (mkRoom (r_id room) (r_players room) (r_phase room) (r_stage room)
           (r_pregameTimer room) (r_raceTimer room) (r_raceStartAt room) None
           (r_pregameTimerStart room) (r_pregameDuration room))
  | None => st
  end.

(** One turn of the event loop. *)
Definition step (env : envT) (st : serverT) (e : event) : serverT * outcome :=
  match e with
  | Connection ws playerId =>
      let st := mkServer (rooms st) (workers st)
                  (insertN ws (mkSocket playerId None) (clients st)) (sent st) in
      (send st ws "connected", Completed)
  | Message ws f => onMessage env st ws f
  | Close ws => (onClose st ws, Completed)
  | WorkerMessage roomId m => (onWorkerMessage st roomId m, Completed)
  | WorkerExit roomId => (onWorkerExit st roomId, Completed)
  | PregameInterval roomId => (pregameInterval env st roomId, Completed)
  | RaceInterval roomId => (raceInterval env st roomId, Completed)
  end.

(** A run of the event loop; every turn has its own environment. An uncaught
    exception is kept in the list of outcomes. *)
Fixpoint run (st : serverT) (es : list (envT * event)) : serverT * list outcome :=
  match es with
  | [] => (st, [])
  | (env, e) :: es' =>
      let '(st', o) := step env st e in
      let '(st'', os) := run st' es' in
      (st'', o :: os)
  end.

(** [n] consecutive callbacks of the pregame interval of a room. *)
Fixpoint pregameTicks (env : envT) (st : serverT) (roomId : string) (n : nat) : serverT :=
  match n with
  | O => st
  | Datatypes.S n' => pregameTicks env (pregameInterval env st roomId) roomId n'
  end.

(** [n] consecutive callbacks of the race countdown interval of a room. *)
Fixpoint raceTicks (env : envT) (st : serverT) (roomId : string) (n : nat) : serverT :=
  match n with
  | O => st
  | Datatypes.S n' => raceTicks env (raceInterval env st roomId) roomId n'
  end.

Definition phaseOf (st : serverT) (roomId : string) : option phaseT :=
  match getRoom st roomId with
  | Some r => Some (r_phase r)
  | None => None
  end.

(** Every entry of [state.rooms] is stored under the id of its room. *)
Definition wellKeyed (st : serverT) : Prop :=
  Forall (fun e => r_id (snd e) = fst e) (rooms st).

(** The states the process can be in: those a run of the event loop reaches
    from the start. *)
Definition reachable (st : serverT) : Prop :=
  exists es, fst (run initial es) = st.

(** The commands posted to the worker of a room so far, and whether it was
    terminated. *)
Definition postedTo (st : serverT) (roomId : string) : list command :=
  match lookup roomId (workers st) with
  | Some w => w_posted w
  | None => []
  end.

Definition terminatedWorker (st : serverT) (roomId : string) : bool :=
  match lookup roomId (workers st) with
  | Some w => w_terminated w
  | None => false
  end.

Definition isStop (c : command) : bool := match c with CStop => true | _ => false end.
Definition isAddPlayer (c : command) : bool :=
  match c with CAddPlayer _ => true | _ => false end.

Definition rosterSize (st : serverT) (roomId : string) : option nat :=
  match getRoom st roomId with
  | Some r => Some (List.length (r_players r))
  | None => None
  end.

(** A property of every room of [state.rooms]. *)
Definition allRooms (P : roomT -> Prop) (st : serverT) : Prop :=
  Forall (fun e => P (snd e)) (rooms st).

(** The roster has at most [MAX_PLAYERS_PER_ROOM] entries. *)
Definition withinCapacity (r : roomT) : Prop :=
  (List.length (r_players r) <= MAX_PLAYERS_PER_ROOM)%nat.

(** No countdown runs or has run: the room is in the lobby or finished and
    neither interval is armed. *)
Definition idle (r : roomT) : Prop :=
  (r_phase r = lobby \/ r_phase r = finished) /\
  r_pregameTimer r = None /\ r_raceTimer r = None.

(** A roster as an object keyed by player id: no key twice, and every
    player under its own [id]. *)
Definition keyed (ps : list (string * playerT)) : Prop :=
  NoDup (map fst ps) /\ Forall (fun e => p_id (snd e) = fst e) ps.

Definition rosterKeyed (r : roomT) : Prop := keyed (r_players r).

(** [a.joinedAt - b.joinedAt <= 0]. *)
Definition joinedBefore (a b : playerT) : Prop := (p_joinedAt a <= p_joinedAt b)%Z.

(** No two entries of [state.rooms] under one key, as in an object. *)
Definition uniqueRooms (st : serverT) : Prop := NoDup (map fst (rooms st)).

(** A property of the worker of every room, as the closure of
    [getOrCreateOpenRoom] holds it. *)
Definition allWorkers (P : workerT -> Prop) (st : serverT) : Prop :=
  Forall (fun e => P (snd e)) (workers st).

(** [pendingMessages] holds no message. *)
Definition nothingQueued (w : workerT) : Prop := w_pendingMessages w = [].

(** ** The log throttle *)

(** [createLogThrottle(limitPerSecond)]: the same closure as that of
    [createThrottle] in utils.js, with [log] for the callback. *)
Definition createLogThrottle (limitPerSecond : num) : Utils.throttleT :=
  Utils.mkThrottle (1000 / limitPerSecond)%float 0.

(** [throttledLog(...args)] when [Date.now()] is [now]: the closure
    afterwards, and whether [log] was called. *)
Definition throttledLog (t : Utils.throttleT) (now : Z) : Utils.throttleT * bool :=
  if (Utils.th_interval t <=? ofZ (now - Utils.th_lastTime t))%float
  then (Utils.mkThrottle (Utils.th_interval t) now, true)
  else (t, false).

(** The times of the calls that reached [log], for calls at the times
    [nows]. *)
Fixpoint logged (t : Utils.throttleT) (nows : list Z) : list Z :=
  match nows with
  | [] => []
  | now :: rest =>
      let '(t', b) := throttledLog t now in
      if b then now :: logged t' rest else logged t' rest
  end.

End Server.

(* ====================================================================== *)
(** * A reference host and sample data *)
(* ====================================================================== *)

(** A stand-in for the host's [Math], used to run the examples. It returns
    the values ECMAScript fixes exactly ([x ** 0 = 1], [hypot(0, 0, 0) = 0],
    [sin 0 = 0], [cos 0 = 1], [exp 0 = 1]) and truncated series elsewhere. *)
Module RefHost.

Local Open Scope float_scope.

(** [sum_(k < n) x^k / k!], by Horner's rule. *)
Fixpoint expSeries (x : num) (n : nat) (k : num) : num :=
  match n with
  | O => 1
  | S n' => 1 + x / k * expSeries x n' (k + 1)
  end.

Definition exp (x : num) : num := expSeries x 40 1.

(** [2 * sum_(k < n) z^(2k+1) / (2k+1)] with [z = (x - 1) / (x + 1)]. *)
Fixpoint atanhSeries (z2 : num) (n : nat) (k : num) : num :=
  match n with
  | O => 0
  | S n' => 1 / k + z2 * atanhSeries z2 n' (k + 2)
  end.

Definition ln (x : num) : num :=
  let z := (x - 1) / (x + 1) in
  2 * z * atanhSeries (z * z) 40 1.

Fixpoint sinSeries (x2 : num) (n : nat) (k : num) : num :=
  match n with
  | O => 1
  | S n' => 1 - x2 / (k * (k + 1)) * sinSeries x2 n' (k + 2)
  end.

Definition sin (x : num) : num := x * sinSeries (x * x) 20 2.
Definition cos (x : num) : num := sinSeries (x * x) 20 1.

Definition pow (x y : num) : num :=
  if is_nan y then nan
  else if is_zero y then 1
  else if y =? 1 then x
  else if 0 <? x then exp (y * ln x)
  else nan.

Definition hypot (x y z : num) : num :=
  if is_infinity x || is_infinity y || is_infinity z then infinity
  else Math_sqrt (x * x + y * y + z * z).

#[export] Instance refHost : HostMath := Build_HostMath pow exp sin cos hypot.

End RefHost.

Module Samples.

Import Server.
Local Open Scope string_scope.

Definition env1 : envT := mkEnv 1000 "room-1" false.
Definition envForce : envT := mkEnv 2000 "room-2" true.

(** Two clients connect and join: the first creates the room, the second is
    added to it. *)
Definition twoJoined : list (envT * event) :=
  [ (env1, Connection 1 "alice");
    (env1, Connection 2 "bob");
    (env1, Message 1 (Parsed (Join None)));
    (env1, Message 2 (Parsed (Join None))) ].

(** One client connects and joins. *)
Definition oneJoined : list (envT * event) :=
  [ (env1, Connection 1 "alice");
    (env1, Message 1 (Parsed (Join None))) ].

(** The room after two clients joined. *)
Definition shared : serverT := fst (run initial twoJoined).

(** The first of the two disconnects; the second is still connected. *)
Definition sharedAfterClose : serverT := fst (run shared [(env1, Close 1)]).

(** The room after one client joined. *)
Definition alone : serverT := fst (run initial oneJoined).

(** The only player of a room sends [removed]; then the socket closes. *)
Definition aloneRemoved : serverT :=
  fst (run alone [(env1, Message 1 (Parsed Removed))]).
Definition aloneRemovedClosed : serverT :=
  fst (run aloneRemoved [(env1, Close 1)]).

(** The only player of a room sets ready. *)
Definition aloneReady : serverT :=
  fst (run alone [(env1, Message 1 (Parsed (SetReady (Some true))))]).

(** The worker of the room signals [ready]. *)
Definition aloneWorkerReady : serverT :=
  fst (run alone [(env1, WorkerMessage "room-1" Ready)]).

(** The room of the one client, as the server holds it. *)
Definition aloneRoom : roomT :=
  mkRoom "room-1" [("alice", mkPlayer "alice" "anon" 1000 false 0 0 None None)]
    lobby "/stages/stage1" None None None (Some "room-1") None None.

(** The same room in the middle of its two countdowns. *)
Definition countingRoom : roomT :=
  mkRoom "room-1" [("alice", mkPlayer "alice" "anon" 1000 false 0 0 None None)]
    pregame "/stages/stage1" (Some 3%Z) (Some 5%Z) None (Some "room-1")
    (Some 2000%Z) (Some 3%Z).

Definition counting : serverT := setRoom alone countingRoom.

(** The [init] message the server sends to the worker of a room created
    without terrain parameters and curve. *)
Definition plainInit : PhysicsWorker.initData :=
  PhysicsWorker.mkInit None None (Some 350%float) (Some 0%float) (Some 0%float).

Local Open Scope float_scope.

(** A planet without relief: no octaves and exponent 0 make the raw
    elevation [1], and [uMaxHeight = 0] makes the surface the sphere of the
    planet radius. *)
Definition sphere : Fbm.fbmParamsT :=
  Fbm.mkFbmParams 1 2 0.5 0%Z 0 false (Some 0) None.

(** A craft at rest whose corner [(-1, -0.5, -2)] is at the centre of the
    planet. *)
Definition atCentre : PhysicsWorker.playerState :=
  PhysicsWorker.mkPlayerState (MathJs.mkV3 1 0.5 2) MathJs.identity
    (MathJs.mkV3 0 0 0) (MathJs.mkV3 0 0 0) 0 0 0 1 1 1 0.998 1.

(** A craft flying nose first at full throttle. *)
Definition cruising : PhysicsWorker.playerState :=
  PhysicsWorker.mkPlayerState (MathJs.mkV3 0 0 400) MathJs.identity
    (MathJs.mkV3 0 0 (-0.5)) (MathJs.mkV3 0 0 0) 1 0 0 1 1 1 0.998 1.

(** The worker of a room on that planet, of radius 350. *)
Definition sphereWorker : PhysicsWorker.workerState :=
  PhysicsWorker.mkWorker true true 350 (Some sphere) 0 0
    [("alice"%string, atCentre)] true None None 0%nat (MathJs.mkV3 0 0 0) [].

(** The [init] message of a room on that planet. *)
Definition sphereInit : PhysicsWorker.initData :=
  PhysicsWorker.mkInit (Some sphere) None (Some 350) (Some 0) (Some 0).

(** An [addPlayer] message for a craft 2.3 above the surface, nose away from
    the planet: the four corners of its tail are 0.30 above the surface. *)
Definition grazingData : PhysicsWorker.addPlayerData :=
  PhysicsWorker.mkAddPlayer "alice"%string (Some (0, 0, -352.3))
    None None None None None None None.

(** A straight curve of three points, as in the tests. *)
Definition straight : list Fbm.arr3 := [(0, 0, 0); (10, 0, 0); (20, 0, 0)].

(** A worker that holds two start poses, and three players to add. *)
Definition twoPoses : list Utils.pose :=
  [Utils.mkPose (1, 0, 0) (0, 0, 0, 1); Utils.mkPose (2, 0, 0) (0, 1, 0, 0)].

Definition posedWorker : PhysicsWorker.workerState :=
  PhysicsWorker.mkWorker false false 0 None 0 0 [] false
    (Some [(1, 0, 0); (2, 0, 0)]) (Some twoPoses) 0%nat (MathJs.mkV3 0 0 0) [].

Definition newcomer (playerId : string) : PhysicsWorker.addPlayerData :=
  PhysicsWorker.mkAddPlayer playerId None None None None None None None None.

Definition threeNewcomers : list PhysicsWorker.addPlayerData :=
  [newcomer "ann"; newcomer "ben"; newcomer "cy"]%string.

End Samples.

(* ====================================================================== *)
(** * Facts about the server *)
(* ====================================================================== *)

Unset Implicit Arguments.

Module ServerFacts.

Import PhysicsWorker Server.
Local Open Scope string_scope.

(** ** Insertion-ordered maps *)

Lemma lookup_insert {A} k (v : A) l : lookup k (insert k v l) = Some v.
Proof.
  induction l as [|[k' v'] l IH]; simpl.
  - now rewrite String.eqb_refl.
  - destruct (String.eqb k k') eqn:E; simpl; rewrite ?String.eqb_refl, ?E; auto.
Qed.

Lemma lookup_insert_ne {A} k k' (v : A) l : k <> k' -> lookup k (insert k' v l) = lookup k l.
Proof.
  intros N. induction l as [|[k2 v2] l IH]; simpl.
  - apply String.eqb_neq in N. now rewrite N.
  - destruct (String.eqb k' k2) eqn:E; simpl.
    + apply String.eqb_eq in E; subst k2. apply String.eqb_neq in N. now rewrite N.
    + destruct (String.eqb k k2); auto.
Qed.

Lemma lookup_In {A} k (v : A) l : lookup k l = Some v -> In (k, v) l.
Proof.
  induction l as [|[k' v'] l IH]; simpl; [discriminate|].
  destruct (String.eqb_spec k k') as [->|N]; intros H.
  - injection H as ->. now left.
  - right; auto.
Qed.

Lemma Forall_insert {A} (P : string * A -> Prop) k v l :
  P (k, v) -> Forall P l -> Forall P (insert k v l).
Proof.
  intros Pk. induction 1 as [|[k' v'] l Hx Hl IH]; simpl.
  - constructor; auto.
  - destruct (String.eqb k k'); constructor; auto.
Qed.

Lemma Forall_remove {A} (P : string * A -> Prop) k l :
  Forall P l -> Forall P (remove k l).
Proof.
  induction 1 as [|[k' v'] l Hx Hl IH]; simpl; auto.
  destruct (String.eqb k k'); auto.
Qed.

Lemma wellKeyed_lookup st k r : wellKeyed st -> getRoom st k = Some r -> r_id r = k.
Proof.
  intros WK G. apply lookup_In in G.
  unfold wellKeyed in WK. rewrite Forall_forall in WK. exact (WK _ G).
Qed.

Lemma wk_setRoom st r : wellKeyed st -> wellKeyed (setRoom st r).
Proof. intros; apply Forall_insert; auto. Qed.

Lemma wk_deleteRoom st k : wellKeyed st -> wellKeyed (deleteRoom st k).
Proof. intros; apply Forall_remove; auto. Qed.

Lemma wk_same_rooms st st' : rooms st' = rooms st -> wellKeyed st -> wellKeyed st'.
Proof. unfold wellKeyed; intros ->; auto. Qed.

Lemma rooms_broadcast st rid ty : rooms (broadcast st rid ty) = rooms st.
Proof. unfold broadcast. destruct (getRoom st rid); reflexivity. Qed.

Lemma rooms_send st ws ty : rooms (send st ws ty) = rooms st.
Proof. unfold send. destruct (lookupN ws (clients st)); reflexivity. Qed.

Lemma rooms_setWorker st k w : rooms (setWorker st k w) = rooms st.
Proof. reflexivity. Qed.

Lemma rooms_postToRoomWorker st r m : rooms (postToRoomWorker st r m) = rooms st.
Proof.
  unfold postToRoomWorker. destruct (r_physicsWorker r); auto.
  destruct (lookup s (workers st)); auto.
Qed.

Lemma rooms_setClientRoom st ws k : rooms (setClientRoom st ws k) = rooms st.
Proof. unfold setClientRoom. destruct (lookupN ws (clients st)); reflexivity. Qed.

Ltac wk_step :=
  match goal with
  | |- wellKeyed (broadcast _ _ _) => eapply wk_same_rooms; [apply rooms_broadcast|]
  | |- wellKeyed (broadcastRoomState _ _) => eapply wk_same_rooms; [apply rooms_broadcast|]
  | |- wellKeyed (send _ _ _) => eapply wk_same_rooms; [apply rooms_send|]
  | |- wellKeyed (setWorker _ _ _) => eapply wk_same_rooms; [apply rooms_setWorker|]
  | |- wellKeyed (postToRoomWorker _ _ _) => eapply wk_same_rooms; [apply rooms_postToRoomWorker|]
  | |- wellKeyed (setClientRoom _ _ _) => eapply wk_same_rooms; [apply rooms_setClientRoom|]
  | |- wellKeyed (setRoom _ _) => apply wk_setRoom
  | |- wellKeyed (deleteRoom _ _) => apply wk_deleteRoom
  | |- wellKeyed (mkServer (rooms ?s) _ _ _) => change (wellKeyed s)
  | |- wellKeyed (match ?x with _ => _ end) => destruct x eqn:?
  | |- wellKeyed (if ?x then _ else _) => destruct x eqn:?
  | |- wellKeyed (let '(_, _) := ?x in _) => destruct x eqn:?
  | |- wellKeyed (fst (match ?x with _ => _ end)) => destruct x eqn:?
  | |- wellKeyed (fst (if ?x then _ else _)) => destruct x eqn:?
  | |- wellKeyed (fst (_, _)) => cbn [fst]
  end.

Ltac wk := repeat wk_step; auto.

Lemma wk_startRaceCountdown st k n : wellKeyed st -> wellKeyed (startRaceCountdown st k n).
Proof. intros. unfold startRaceCountdown. wk. Qed.

Lemma wk_assign st k : wellKeyed st -> wellKeyed (assignStartPositions st k).
Proof. intros. unfold assignStartPositions. wk. Qed.

Lemma wk_getOrCreate env st a b c d st' r :
  wellKeyed st -> getOrCreateOpenRoom env st a b c d = (st', r) -> wellKeyed st'.
Proof.
  unfold getOrCreateOpenRoom. intros WK. destruct (findOpenRoom st).
  - intros [= <- <-]; auto.
  - intros [= <- <-]. wk.
Qed.

Lemma wk_onJoin env st ws pid pl : wellKeyed st -> wellKeyed (onJoin env st ws pid pl).
Proof.
  intros WK. unfold onJoin.
  destruct (getOrCreateOpenRoom env st pid _ _ _) as [st' room] eqn:G.
  apply wk_getOrCreate in G; auto. wk.
Qed.

Lemma wk_onRemoved st ws pid rid s :
  wellKeyed st -> onRemoved st ws pid rid = Some s -> wellKeyed s.
Proof.
  intros WK. unfold onRemoved.
  destruct rid as [rid|]; [|discriminate].
  destruct (negb (nonEmpty rid)); [discriminate|].
  destruct (getRoom st rid); [|discriminate].
  destruct (lookup pid (r_players r)); [|discriminate].
  intros [= <-]. wk.
Qed.

Lemma wk_after_room env st pid m rid :
  wellKeyed st ->
  wellKeyed (fst (match m with
    | SetReady payload => onSetReady st pid rid payload
    | Input payload => onInput st pid rid payload
    | Config payload => (onConfig st pid rid payload, Completed)
    | Finish => (onFinish env st pid rid, Completed)
    | StartNow => (if ALLOW_FORCE_START env then startPregameCountdown env st rid 3 else st, Completed)
    | _ => (st, Completed)
    end)).
Proof.
  intros WK.
  destruct m; cbn [fst]; auto;
    unfold onSetReady, onInput, onConfig, onFinish, startPregameCountdown, endRace; wk.
Qed.

Lemma wk_step_preserved env st e : wellKeyed st -> wellKeyed (fst (step env st e)).
Proof.
  intros WK. destruct e; simpl.
  - unfold wellKeyed; rewrite rooms_send; exact WK.
  - unfold onMessage. destruct (lookupN ws (clients st)) as [c|]; [|exact WK].
    destruct f; [exact WK|exact WK|].
    match goal with |- wellKeyed (fst (match ?x with _ => _ end)) => destruct x as [s1|] eqn:E1 end;
      [|exact WK].
    assert (WK1 : wellKeyed s1).
    { destruct m; try (injection E1 as <-; auto).
      - apply wk_onJoin; auto.
      - eapply wk_onRemoved; eauto. }
    destruct (match lookupN ws (clients s1) with Some c' => s_roomId c' | None => None end);
      [|exact WK1].
    destruct (nonEmpty s); [|exact WK1].
    apply wk_after_room; auto.
  - unfold onClose, cleanupRoom. wk.
  - unfold onWorkerMessage. wk.
  - unfold onWorkerExit. wk.
  - unfold pregameInterval. wk; apply wk_startRaceCountdown; wk; apply wk_assign; wk.
  - unfold raceInterval, startRace. wk.
Qed.

Lemma wk_run es : forall st, wellKeyed st -> wellKeyed (fst (run st es)).
Proof.
  induction es as [|[env e] es IH]; intros st WK; simpl; auto.
  destruct (step env st e) as [st' o] eqn:S.
  destruct (run st' es) as [st'' os] eqn:R. simpl.
  change st'' with (fst (st'', os)). rewrite <- R. apply IH.
  change st' with (fst (st', o)). rewrite <- S. now apply wk_step_preserved.
Qed.

Lemma reachable_wellKeyed st : reachable st -> wellKeyed st.
Proof. intros [es <-]. apply wk_run. constructor. Qed.

(** ** Reading a room back *)

Lemma getRoom_setRoom st r k : r_id r = k -> getRoom (setRoom st r) k = Some r.
Proof. intros <-. apply lookup_insert. Qed.

Lemma getRoom_setRoom_ne st r k : k <> r_id r -> getRoom (setRoom st r) k = getRoom st k.
Proof. intros; unfold getRoom, setRoom; simpl. now apply lookup_insert_ne. Qed.

Lemma getRoom_broadcast st rid ty k : getRoom (broadcast st rid ty) k = getRoom st k.
Proof. unfold getRoom. now rewrite rooms_broadcast. Qed.

Lemma getRoom_send st ws ty k : getRoom (send st ws ty) k = getRoom st k.
Proof. unfold getRoom. now rewrite rooms_send. Qed.

Lemma getRoom_postToRoomWorker st r m k : getRoom (postToRoomWorker st r m) k = getRoom st k.
Proof. unfold getRoom. now rewrite rooms_postToRoomWorker. Qed.

Ltac rooms_simpl :=
  repeat first
    [ rewrite getRoom_broadcast
    | rewrite getRoom_send
    | rewrite getRoom_postToRoomWorker
    | rewrite getRoom_setRoom by reflexivity
    | progress unfold broadcastRoomState ].

(** ** The countdowns *)

(** A callback of the pregame interval before the last one lowers the
    counter and leaves the room as it is. *)
Lemma pregameInterval_counts env st room t :
  getRoom st (r_id room) = Some room -> r_pregameTimer room = Some t -> (1 < t)%Z ->
  getRoom (pregameInterval env st (r_id room)) (r_id room)
  = Some (withPhase room (r_phase room) (Some (t - 1)%Z) (r_raceTimer room) (r_raceStartAt room)).
Proof.
  intros G T L. unfold pregameInterval. rewrite G, T.
  destruct (Z.leb_spec (t - 1) 0); [lia|].
  now rooms_simpl.
Qed.

(** The last callback clears the interval, assigns the start positions and
    starts the race countdown. *)
Lemma pregameInterval_expires env st room t :
  getRoom st (r_id room) = Some room -> r_pregameTimer room = Some t -> (t <= 1)%Z ->
  exists room',
    getRoom (pregameInterval env st (r_id room)) (r_id room) = Some room' /\
    r_id room' = r_id room /\ r_phase room' = racecountdown /\
    r_pregameTimer room' = None /\ r_raceTimer room' = Some 5%Z.
Proof.
  intros G T L. unfold pregameInterval. rewrite G, T.
  destruct (Z.leb_spec (t - 1) 0); [|lia].
  unfold assignStartPositions. rooms_simpl.
  unfold startRaceCountdown. rooms_simpl.
  eexists; split; [reflexivity|]. now repeat split.
Qed.

Lemma raceInterval_counts env st room t :
  getRoom st (r_id room) = Some room -> r_raceTimer room = Some t -> (1 < t)%Z ->
  getRoom (raceInterval env st (r_id room)) (r_id room)
  = Some (withPhase room (r_phase room) (r_pregameTimer room) (Some (t - 1)%Z) (r_raceStartAt room)).
Proof.
  intros G T L. unfold raceInterval. rewrite G, T.
  destruct (Z.leb_spec (t - 1) 0); [lia|].
  now rooms_simpl.
Qed.

Lemma raceInterval_expires env st room t :
  getRoom st (r_id room) = Some room -> r_raceTimer room = Some t -> (t <= 1)%Z ->
  exists room',
    getRoom (raceInterval env st (r_id room)) (r_id room) = Some room' /\
    r_id room' = r_id room /\ r_phase room' = racing /\
    r_raceTimer room' = None /\ r_raceStartAt room' = Some (now env).
Proof.
  intros G T L. unfold raceInterval. rewrite G, T.
  destruct (Z.leb_spec (t - 1) 0); [|lia].
  unfold startRace. rooms_simpl.
  eexists; split; [reflexivity|]. now repeat split.
Qed.

(** A pregame countdown that stands at [n + 1] keeps the phase for [n]
    callbacks and enters [racecountdown] at the next one. *)
Lemma pregame_countdown env : forall n st room,
  getRoom st (r_id room) = Some room ->
  r_pregameTimer room = Some (Z.of_nat (S n)) ->
  (forall k, (k <= n)%nat ->
     phaseOf (pregameTicks env st (r_id room) k) (r_id room) = Some (r_phase room)) /\
  exists room',
    getRoom (pregameTicks env st (r_id room) (S n)) (r_id room) = Some room' /\
    r_phase room' = racecountdown /\ r_pregameTimer room' = None /\
    r_raceTimer room' = Some 5%Z.
Proof.
  induction n as [|n IH]; intros st room G T.
  - split.
    + intros k Hk. assert (k = O) by lia. subst k. simpl. unfold phaseOf. now rewrite G.
    + simpl. destruct (@pregameInterval_expires env st room _ G T) as (r' & G' & _ & P & T1 & T2);
        [lia|]. exists r'. auto.
  - assert (L : (1 < Z.of_nat (S (S n)))%Z) by lia.
    pose proof (@pregameInterval_counts env st room _ G T L) as G1.
    set (room1 := withPhase room (r_phase room) (Some (Z.of_nat (S (S n)) - 1)%Z)
                    (r_raceTimer room) (r_raceStartAt room)) in *.
    assert (T1 : r_pregameTimer room1 = Some (Z.of_nat (S n))).
    { unfold room1. cbn [withPhase r_pregameTimer]. f_equal. lia. }
    destruct (@IH _ room1 G1 T1) as [Hk Hend].
    split.
    + intros [|k] Hle.
      * simpl. unfold phaseOf. now rewrite G.
      * simpl. apply (Hk k). lia.
    + exact Hend.
Qed.

Lemma race_countdown env : forall n st room,
  getRoom st (r_id room) = Some room ->
  r_raceTimer room = Some (Z.of_nat (S n)) ->
  (forall k, (k <= n)%nat ->
     phaseOf (raceTicks env st (r_id room) k) (r_id room) = Some (r_phase room)) /\
  exists room',
    getRoom (raceTicks env st (r_id room) (S n)) (r_id room) = Some room' /\
    r_phase room' = racing /\ r_raceTimer room' = None /\
    r_raceStartAt room' = Some (now env).
Proof.
  induction n as [|n IH]; intros st room G T.
  - split.
    + intros k Hk. assert (k = O) by lia. subst k. simpl. unfold phaseOf. now rewrite G.
    + simpl. destruct (@raceInterval_expires env st room _ G T) as (r' & G' & _ & P & T1 & T2);
        [lia|]. exists r'. auto.
  - assert (L : (1 < Z.of_nat (S (S n)))%Z) by lia.
    pose proof (@raceInterval_counts env st room _ G T L) as G1.
    set (room1 := withPhase room (r_phase room) (r_pregameTimer room)
                    (Some (Z.of_nat (S (S n)) - 1)%Z) (r_raceStartAt room)) in *.
    assert (T1 : r_raceTimer room1 = Some (Z.of_nat (S n))).
    { unfold room1. cbn [withPhase r_raceTimer]. f_equal. lia. }
    destruct (@IH _ room1 G1 T1) as [Hk Hend].
    split.
    + intros [|k] Hle.
      * simpl. unfold phaseOf. now rewrite G.
      * simpl. apply (Hk k). lia.
    + exact Hend.
Qed.

End ServerFacts.

(* ====================================================================== *)
(** * The room lifecycle: claims C1, C2, C4 and C9 *)
(* ====================================================================== *)

Module Lifecycle.

Import PhysicsWorker Server Samples ServerFacts.
Local Open Scope string_scope.

Lemma forallb_insert {A} (f : string * A -> bool) k v l :
  f (k, v) = true -> forallb f (remove k l) = true -> forallb f (insert k v l) = true.
Proof.
  intros Hk. induction l as [|[k' v'] l IH]; simpl.
  - now rewrite Hk.
  - destruct (String.eqb k k'); simpl.
    + intros ->. now rewrite Hk.
    + intros H. apply andb_true_iff in H as [H1 H2]. rewrite H1. simpl. auto.
Qed.

(** A [setReady] message never changes the phase of any room. *)
Lemma setReady_keeps_phase env st ws payload k :
  wellKeyed st ->
  phaseOf (fst (step env st (Message ws (Parsed (SetReady payload))))) k = phaseOf st k.
Proof.
  intros WK. simpl. unfold onMessage.
  destruct (lookupN ws (clients st)) as [c|]; [|reflexivity].
  destruct (s_roomId c) as [roomId|]; [|reflexivity].
  destruct (nonEmpty roomId); [|reflexivity].
  unfold onSetReady.
  destruct (getRoom st roomId) as [room|] eqn:G; [|reflexivity].
  destruct (lookup (s_playerId c) (r_players room)) as [p|]; [|reflexivity].
  destruct payload as [b|]; [|reflexivity].
  cbn [fst]. unfold phaseOf. rooms_simpl.
  pose proof (wellKeyed_lookup _ _ _ WK G) as Hid.
  destruct (String.eqb_spec k roomId) as [->|N].
  - rewrite getRoom_setRoom by exact Hid. now rewrite G.
  - rewrite getRoom_setRoom_ne; [reflexivity|]. cbn [withRoster r_id]. congruence.
Qed.

(** [startNow] with the force-start flag takes a lobby room to [pregame] with
    a countdown of three seconds. *)
Lemma startNow_enters_pregame env st room ws c :
  getRoom st (r_id room) = Some room ->
  lookupN ws (clients st) = Some c ->
  s_roomId c = Some (r_id room) ->
  nonEmpty (r_id room) = true ->
  ALLOW_FORCE_START env = true ->
  r_phase room = lobby ->
  exists room',
    getRoom (fst (step env st (Message ws (Parsed StartNow)))) (r_id room) = Some room' /\
    r_phase room' = pregame /\ r_pregameTimer room' = Some 3%Z.
Proof.
  intros G L R N F P. simpl. unfold onMessage. rewrite L, R, N, F.
  cbn [fst]. unfold startPregameCountdown. rewrite G, P. cbn [phase_eqb negb].
  rooms_simpl. eexists; split; [reflexivity|]. now split.
Qed.

(** The [finish] of the last player that had not finished ends the race. *)
Lemma last_finish_ends_race env st room ws c p :
  getRoom st (r_id room) = Some room ->
  lookupN ws (clients st) = Some c ->
  s_roomId c = Some (r_id room) ->
  nonEmpty (r_id room) = true ->
  lookup (s_playerId c) (r_players room) = Some p ->
  now env <> 0%Z ->
  forallb (fun e => hasFinished (snd e)) (remove (s_playerId c) (r_players room)) = true ->
  phaseOf (fst (step env st (Message ws (Parsed Finish)))) (r_id room) = Some finished.
Proof.
  intros G L R N P T A. simpl. unfold onMessage. rewrite L, R, N.
  cbn [fst]. unfold onFinish. rewrite G, P.
  rewrite forallb_insert; [| |exact A].
  - unfold endRace, phaseOf. rooms_simpl. reflexivity.
  - cbn. now apply negb_true_iff, Z.eqb_neq.
Qed.

(** C2, the claim as stated fails: the only player of a room has set ready,
    so every present player is ready, and the room is still in the lobby. *)
Lemma all_ready_stays_in_lobby :
  exists room,
    getRoom aloneReady "room-1" = Some room /\
    r_players room <> [] /\
    forallb (fun e => p_ready (snd e)) (r_players room) = true /\
    r_phase room = lobby /\
    r_phase room <> pregame.
Proof.
  eexists. split; [vm_compute; reflexivity|].
  repeat split; try discriminate; reflexivity.
Qed.

(** C2, amended: a room in the lobby stays there whatever the players set
    ready; it enters pregame on a [startNow] message while force start is
    allowed, with a countdown of three seconds; when the pregame countdown
    reaches 0 the phase becomes race-countdown, with a countdown of five
    seconds; when that countdown reaches 0 the phase becomes racing; and the
    [finish] of a player after which every present player has finished makes
    the phase finished. *)
Theorem phase_chain (env : envT) (st : serverT) (room : roomT) (ws : nat) (c : socketT) :
  wellKeyed st ->
  getRoom st (r_id room) = Some room ->
  lookupN ws (clients st) = Some c ->
  s_roomId c = Some (r_id room) ->
  nonEmpty (r_id room) = true ->
  (forall ws' payload k,
     phaseOf (fst (step env st (Message ws' (Parsed (SetReady payload))))) k = phaseOf st k) /\
  (ALLOW_FORCE_START env = true -> r_phase room = lobby ->
   exists room',
     getRoom (fst (step env st (Message ws (Parsed StartNow)))) (r_id room) = Some room' /\
     r_phase room' = pregame /\ r_pregameTimer room' = Some 3%Z) /\
  (forall n, r_pregameTimer room = Some (Z.of_nat (S n)) ->
     (forall k, (k <= n)%nat ->
        phaseOf (pregameTicks env st (r_id room) k) (r_id room) = Some (r_phase room)) /\
     exists room',
       getRoom (pregameTicks env st (r_id room) (S n)) (r_id room) = Some room' /\
       r_phase room' = racecountdown /\ r_pregameTimer room' = None /\
       r_raceTimer room' = Some 5%Z) /\
  (forall n, r_raceTimer room = Some (Z.of_nat (S n)) ->
     (forall k, (k <= n)%nat ->
        phaseOf (raceTicks env st (r_id room) k) (r_id room) = Some (r_phase room)) /\
     exists room',
       getRoom (raceTicks env st (r_id room) (S n)) (r_id room) = Some room' /\
       r_phase room' = racing /\ r_raceTimer room' = None /\
       r_raceStartAt room' = Some (now env)) /\
  (forall p, lookup (s_playerId c) (r_players room) = Some p ->
     now env <> 0%Z ->
     forallb (fun e => hasFinished (snd e)) (remove (s_playerId c) (r_players room)) = true ->
     phaseOf (fst (step env st (Message ws (Parsed Finish)))) (r_id room) = Some finished).
Proof.
  intros WK G L R N. repeat split.
  - intros. now apply setReady_keeps_phase.
  - intros F P. eapply startNow_enters_pregame; eauto.
  - now apply (@pregame_countdown env n st room G H).
  - now apply (@pregame_countdown env n st room G H).
  - now apply (@race_countdown env n st room G H).
  - now apply (@race_countdown env n st room G H).
  - intros p P T A. eapply last_finish_ends_race; eauto.
Qed.

(** The chain at work on the room of one player: in the lobby
    ([alone]) and in the middle of its countdowns ([counting]). *)
Lemma phase_chain_witness :
  (wellKeyed alone /\ getRoom alone "room-1" = Some aloneRoom /\
   lookupN 1 (clients alone) = Some (mkSocket "alice" (Some "room-1")) /\
   (exists room',
      getRoom (fst (step envForce alone (Message 1 (Parsed StartNow)))) "room-1" = Some room' /\
      r_phase room' = pregame /\ r_pregameTimer room' = Some 3%Z) /\
   phaseOf (fst (step envForce alone (Message 1 (Parsed Finish)))) "room-1" = Some finished) /\
  (wellKeyed counting /\ getRoom counting "room-1" = Some countingRoom /\
   phaseOf (pregameTicks envForce counting "room-1" 2) "room-1" = Some pregame /\
   (exists room',
      getRoom (pregameTicks envForce counting "room-1" 3) "room-1" = Some room' /\
      r_phase room' = racecountdown /\ r_pregameTimer room' = None /\
      r_raceTimer room' = Some 5%Z) /\
   exists room',
     getRoom (raceTicks envForce counting "room-1" 5) "room-1" = Some room' /\
     r_phase room' = racing /\ r_raceTimer room' = None /\
     r_raceStartAt room' = Some 2000%Z).
Proof.
  assert (WK1 : wellKeyed alone) by (repeat constructor).
  assert (WK2 : wellKeyed counting) by (repeat constructor).
  assert (G1 : getRoom alone (r_id aloneRoom) = Some aloneRoom) by reflexivity.
  assert (G2 : getRoom counting (r_id countingRoom) = Some countingRoom) by reflexivity.
  assert (L1 : lookupN 1 (clients alone) = Some (mkSocket "alice" (Some "room-1")))
    by reflexivity.
  assert (L2 : lookupN 1 (clients counting) = Some (mkSocket "alice" (Some "room-1")))
    by reflexivity.
  destruct (@phase_chain envForce alone aloneRoom 1 _ WK1 G1 L1 eq_refl eq_refl)
    as (_ & Hstart & _ & _ & Hfinish).
  destruct (@phase_chain envForce counting countingRoom 1 _ WK2 G2 L2 eq_refl eq_refl)
    as (_ & _ & Hpre & Hrace & _).
  assert (Hfin : phaseOf (fst (step envForce alone (Message 1 (Parsed Finish)))) "room-1"
                 = Some finished).
  { apply (Hfinish (mkPlayer "alice" "anon" 1000 false 0 0 None None) eq_refl);
      [discriminate|reflexivity]. }
  destruct (Hpre 2%nat eq_refl) as [Hk Hend].
  destruct (Hrace 4%nat eq_refl) as [_ Hend'].
  exact (conj (conj WK1 (conj G1 (conj L1 (conj (Hstart eq_refl eq_refl) Hfin))))
              (conj WK2 (conj G2 (conj (Hk 2%nat (le_n 2)) (conj Hend Hend'))))).
Defined.

(** C1, the code at the failing inputs. Two players share a room and the
    socket of the first closes: the room is discarded, [stop] is posted and the
    worker is terminated, while the second is still connected and on the
    roster. The only player of a room leaves with [removed]: the room, with an
    empty roster, stays as it is and stays open for new players, and its
    worker is neither stopped nor terminated; when the socket then closes the
    room is deleted and the worker is left running. *)
Theorem close_discards_a_shared_room :
  (rosterSize shared "room-1" = Some 2%nat /\
   lookupN 2 (clients sharedAfterClose) = Some (mkSocket "bob" (Some "room-1")) /\
   getRoom sharedAfterClose "room-1" = None /\
   terminatedWorker sharedAfterClose "room-1" = true /\
   existsb isStop (postedTo sharedAfterClose "room-1") = true) /\
  (rosterSize aloneRemoved "room-1" = Some 0%nat /\
   (exists room, findOpenRoom aloneRemoved = Some room /\ r_id room = "room-1") /\
   terminatedWorker aloneRemoved "room-1" = false /\
   existsb isStop (postedTo aloneRemoved "room-1") = false) /\
  (getRoom aloneRemovedClosed "room-1" = None /\
   terminatedWorker aloneRemovedClosed "room-1" = false /\
   existsb isStop (postedTo aloneRemovedClosed "room-1") = false).
Proof.
  repeat split; try reflexivity.
  eexists; split; reflexivity.
Qed.

(** C4, the code at the failing input. A client joins and a room is created
    for it: the [addPlayer] of that player is posted to the new worker at once,
    before the worker has signalled [ready], and nothing is queued. When the
    worker signals [ready], the same [addPlayer] is posted a second time, after
    [init] and [start]. *)
Theorem addPlayer_is_posted_before_ready :
  (exists w,
     lookup "room-1" (workers alone) = Some w /\
     w_workerReady w = false /\
     w_pendingMessages w = [] /\
     w_posted w = [addPlayerMessage "alice" None None]) /\
  (exists w init,
     lookup "room-1" (workers aloneWorkerReady) = Some w /\
     w_workerReady w = true /\
     w_posted w = [addPlayerMessage "alice" None None; CInit init; CStart;
                   addPlayerMessage "alice" None None]).
Proof.
  split.
  - eexists. repeat split; reflexivity.
  - eexists. eexists. repeat split; reflexivity.
Qed.

(** C9, the code at the failing inputs. Text that does not parse is dropped:
    the state is unchanged and nothing is thrown. But after the room of a
    player was destroyed (here by the disconnection of the other player), a
    [setReady] and an [input] of that player end in an uncaught [TypeError],
    where a [config] and a [finish] return silently. *)
Theorem setReady_for_a_destroyed_room_throws :
  (forall env st ws, step env st (Message ws Garbage) = (st, Completed)) /\
  getRoom sharedAfterClose "room-1" = None /\
  snd (step env1 sharedAfterClose (Message 2 (Parsed (SetReady (Some true))))) = Thrown /\
  snd (step env1 sharedAfterClose
         (Message 2 (Parsed (Input (Some (mkInput (Some 1%float) (Some (0%float, 0%float))))))))
  = Thrown /\
  step env1 sharedAfterClose (Message 2 (Parsed (Config None))) = (sharedAfterClose, Completed) /\
  step env1 sharedAfterClose (Message 2 (Parsed Finish)) = (sharedAfterClose, Completed).
Proof.
  split.
  - intros env st ws. simpl. unfold onMessage.
    now destruct (lookupN ws (clients st)).
  - repeat split; reflexivity.
Qed.

End Lifecycle.


(* ====================================================================== *)
(** * The terrain field: claims C7 and C8 *)
(* ====================================================================== *)

Module Terrain.

Import Fbm.
Local Open Scope float_scope.

Section Accumulation.
Context {S : Type}.
Variable noiseFn : noiseFnT S.
Variable p : arr3.
Variables freq lacunarity persistence : num.

(** One round of the accumulation, as [octaveSum] folds it. *)
Definition octaveRound (shape : num -> num) (acc : num * S) (i : nat) : num * S :=
  let '(n, s') := noiseFn (scaled p (freqAt freq lacunarity i)) (snd acc) in
  (fst acc + shape n * ampAt persistence i, s').

(** The loop of [fbmStandard], entered at octave [i] with the variables of
    that octave, is the fold over the remaining octaves. *)
Lemma fbmStandard_loop_fold : forall rounds i sum s,
  fbmStandard_loop noiseFn p lacunarity persistence rounds sum
    (ampAt persistence i) (freqAt freq lacunarity i) s
  = fold_left (octaveRound (fun n => n)) (seq i rounds) (sum, s).
Proof.
  induction rounds as [|rounds IH]; intros i sum s; simpl; [reflexivity|].
  unfold octaveRound at 2. simpl.
  destruct (noiseFn (scaled p (freqAt freq lacunarity i)) s) as [n s'].
  exact (IH (Datatypes.S i) _ s').
Qed.

Lemma ridgedFBM_loop_fold : forall rounds i sum s,
  ridgedFBM_loop noiseFn p lacunarity persistence rounds sum
    (ampAt persistence i) (freqAt freq lacunarity i) s
  = fold_left (octaveRound ridge) (seq i rounds) (sum, s).
Proof.
  induction rounds as [|rounds IH]; intros i sum s; simpl; [reflexivity|].
  unfold octaveRound at 2. simpl.
  destruct (noiseFn (scaled p (freqAt freq lacunarity i)) s) as [n s'].
  exact (IH (Datatypes.S i) _ s').
Qed.

End Accumulation.

Lemma fbmStandard_octaveSum {S} (noiseFn : noiseFnT S) p freq lacunarity persistence octaves s :
  fbmStandard p freq lacunarity persistence octaves noiseFn s
  = octaveSum (fun n => n) noiseFn p freq lacunarity persistence (Z.to_nat octaves) s.
Proof. exact (fbmStandard_loop_fold noiseFn p freq lacunarity persistence _ 0 0 s). Qed.

Lemma ridgedFBM_octaveSum {S} (noiseFn : noiseFnT S) p freq lacunarity persistence octaves s :
  ridgedFBM p freq lacunarity persistence octaves noiseFn s
  = octaveSum ridge noiseFn p freq lacunarity persistence (Z.to_nat octaves) s.
Proof. exact (ridgedFBM_loop_fold noiseFn p freq lacunarity persistence _ 0 0 s). Qed.

(** Instrumenting the callback changes neither the sum nor the callback's own
    state, and the record grows by the points of the octaves, in order. *)
Lemma traced_fold {S} (noiseFn : noiseFnT S) p freq lacunarity shape :
  forall persistence rounds i sum s calls,
  fold_left (octaveRound (traced noiseFn) p freq lacunarity persistence shape)
    (seq i rounds) (sum, (s, calls))
  = let r := fold_left (octaveRound noiseFn p freq lacunarity persistence shape)
               (seq i rounds) (sum, s) in
    (fst r, (snd r,
             calls ++ map (fun j => scaled p (freqAt freq lacunarity j)) (seq i rounds))).
Proof.
  intros persistence. induction rounds as [|rounds IH]; intros i sum s calls; simpl.
  - now rewrite app_nil_r.
  - assert (E : octaveRound (traced noiseFn) p freq lacunarity persistence shape
                  (sum, (s, calls)) i
                = (fst (octaveRound noiseFn p freq lacunarity persistence shape (sum, s) i),
                   (snd (octaveRound noiseFn p freq lacunarity persistence shape (sum, s) i),
                    calls ++ [scaled p (freqAt freq lacunarity i)]))).
    { unfold octaveRound, traced. simpl.
      now destruct (noiseFn (scaled p (freqAt freq lacunarity i)) s). }
    rewrite E.
    destruct (octaveRound noiseFn p freq lacunarity persistence shape (sum, s) i) as [sum' s'].
    rewrite IH. simpl. now rewrite <- app_assoc.
Qed.

(** C7: [fbmStandard] returns the sum over the octaves [0 <= i < octaves] of
    [noiseFn(p * f_i) * amp_i], with [f_0 = freq], [f_(i+1) = f_i * lacunarity],
    [amp_0 = 0.5], [amp_(i+1) = amp_i * persistence]; the noise function is
    called exactly on the points [p * f_i], in order; and with a stub
    returning 1, three octaves, [freq = 2], [lacunarity = 3],
    [persistence = 0.5] on the point (1, 2, 3), it is called on (2, 4, 6),
    (6, 12, 18), (18, 36, 54) and the result is 0.875. *)
Theorem fbmStandard_sums_the_octaves {S} (noiseFn : noiseFnT S) (p : arr3)
  (freq lacunarity persistence : num) (octaves : Z) (s : S) :
  fbmStandard p freq lacunarity persistence octaves noiseFn s
  = octaveSum (fun n => n) noiseFn p freq lacunarity persistence (Z.to_nat octaves) s /\
  fbmStandard p freq lacunarity persistence octaves (traced noiseFn) (s, [])
  = (fst (fbmStandard p freq lacunarity persistence octaves noiseFn s),
     (snd (fbmStandard p freq lacunarity persistence octaves noiseFn s),
      octavePoints p freq lacunarity (Z.to_nat octaves))) /\
  fbmStandard (1, 2, 3) 2 3 0.5 3 (recordingNoise 1) []
  = (0.875, [(2, 4, 6); (6, 12, 18); (18, 36, 54)]).
Proof.
  split; [apply fbmStandard_octaveSum|]. split; [|reflexivity].
  rewrite !fbmStandard_octaveSum. unfold octaveSum, octavePoints.
  exact (traced_fold noiseFn p freq lacunarity (fun n => n) persistence
           (Z.to_nat octaves) 0 0 s []).
Qed.

(** C8: [terrainElevationRidged] is [(base + detail * 0.3) ** exponentiation],
    [base] being the ridged sum at the configured frequency and octaves and
    [detail] the ridged sum at frequency [* 2.5] with
    [max(3, floor(octaves / 2))] octaves, at the position offset (amplitude
    0.3) by three noise samples taken at the position scaled by 0.5 with
    offsets +100 and +200 on two axes. On the parameters of the tests and a
    constant noise 0.5 the base has four octaves and the detail three. *)
Theorem terrainElevationRidged_is_base_plus_detail {host : HostMath} {S}
  (pos : arr3) (params : fbmParamsT) (noiseFn : noiseFnT S) (s : S) :
  terrainElevationRidged pos params noiseFn s = ridgedElevation pos params noiseFn s /\
  terrainElevationRidged (1, 2, 3) testParams (pureNoise (fun _ => 0.5)) tt
  = (Math_pow (0.25 * 0.5 + 0.25 * 0.25 + 0.25 * 0.125 + 0.25 * 0.0625
               + (0.25 * 0.5 + 0.25 * 0.25 + 0.25 * 0.125) * 0.3) 2, tt).
Proof.
  split; [|reflexivity].
  unfold terrainElevationRidged, ridgedElevation, warpVector, offsetBy, scaled.
  destruct pos as [[pos0 pos1] pos2]. cbv delta [num arr3] in *.
  rewrite ridgedFBM_octaveSum.
  destruct (octaveSum ridge noiseFn (pos0, pos1, pos2) _ _ _ _ s) as [base s1].
  cbv beta iota zeta.
  destruct (noiseFn (pos0 * 0.5, pos1 * 0.5, pos2 * 0.5) s1) as [w0 s2].
  cbv beta iota zeta.
  destruct (noiseFn (pos0 * 0.5 + 100, pos1 * 0.5, pos2 * 0.5) s2) as [w1 s3].
  cbv beta iota zeta.
  destruct (noiseFn (pos0 * 0.5, pos1 * 0.5 + 200, pos2 * 0.5) s3) as [w2 s4].
  cbv beta iota zeta.
  rewrite ridgedFBM_octaveSum. reflexivity.
Qed.

End Terrain.

(* ====================================================================== *)
(** * The worker's timers: claim C3 *)
(* ====================================================================== *)

Module EngineFacts.

Import MathJs PhysicsWorker Samples.

Lemma stop_idempotent w : stop (stop w) = stop w.
Proof. reflexivity. Qed.

Lemma filter_app_none {A} (f : A -> bool) l l' :
  forallb (fun e => negb (f e)) l' = true -> filter f (l ++ l') = filter f l.
Proof.
  intros H. rewrite filter_app.
  assert (E : filter f l' = []).
  { induction l' as [|a l' IH]; simpl in *; [reflexivity|].
    apply andb_true_iff in H as [H1 H2]. apply negb_true_iff in H1. rewrite H1. auto. }
  rewrite E. apply app_nil_r.
Qed.

Section WithHost.
Context {host : HostMath}.

(** The ticks posted so far. *)
Definition ticks (w : workerState) : list emitted := filter isTick (outbox w).

Lemma stepPlayers_keeps w : forall ps closest,
  map fst (fst (stepPlayers w ps closest)) = map fst ps.
Proof.
  induction ps as [|[id st] ps IH]; intros closest; simpl; [reflexivity|].
  destruct (updatePlayerPhysics w st closest) as [st' closest'].
  specialize (IH closest').
  destruct (stepPlayers w ps closest') as [rest closest'']. simpl in *. now rewrite IH.
Qed.

(** Every player is stepped once, from the state it had. *)
Lemma stepPlayers_lookup w : forall ps closest id st,
  lookup id ps = Some st ->
  exists c, lookup id (fst (stepPlayers w ps closest))
            = Some (fst (updatePlayerPhysics w st c)).
Proof.
  induction ps as [|[k s] ps IH]; intros closest id st L; simpl in L; [discriminate|].
  cbn [stepPlayers].
  destruct (updatePlayerPhysics w s closest) as [s' closest'] eqn:E.
  specialize (IH closest' id st).
  destruct (stepPlayers w ps closest') as [rest closest''].
  cbn [fst lookup] in *.
  destruct (String.eqb id k).
  - injection L as <-. exists closest. now rewrite E.
  - exact (IH L).
Qed.

(** While the tick interval is not armed, nothing but a [start] command arms
    it, and no occurrence posts a tick. *)
Lemma occur_without_start w o w' :
  interval w = false -> isStart o = false -> occur w o = Some w' ->
  interval w' = false /\ ticks w' = ticks w.
Proof.
  intros I NS O. destruct o as [c| |]; simpl in O.
  - destruct c; simpl in O; try discriminate NS.
    + (* init *)
      unfold init in O.
      destruct (in_curvePoints data) as [cp|].
      * destruct (Utils.precomputeStartPositions cp); [|discriminate].
        injection O as <-. split; [exact I|]. unfold ticks. simpl.
        rewrite <- app_assoc. now apply filter_app_none.
      * injection O as <-. split; [exact I|]. unfold ticks. simpl.
        rewrite <- app_assoc. now apply filter_app_none.
    + (* stop *)
      injection O as <-. now split.
    + (* addPlayer *)
      unfold addPlayer in O.
      destruct (negb (nonEmpty (ap_playerId data))); [injection O as <-; now split|].
      destruct (curvePoints w) as [cp0|] eqn:C.
      * destruct (startPositions w) as [[|p0 ps]|]; injection O as <-;
          (split; [exact I|]); unfold ticks; simpl; now apply filter_app_none.
      * destruct (ap_curvePoints data) as [cp|].
        -- destruct (Utils.precomputeStartPositions cp) as [[|p0 ps]|]; [| |discriminate];
             injection O as <-; (split; [exact I|]); unfold ticks; simpl;
             rewrite <- app_assoc; now apply filter_app_none.
        -- destruct (startPositions w) as [[|p0 ps]|]; injection O as <-;
             (split; [exact I|]); unfold ticks; simpl; now apply filter_app_none.
    + (* removePlayer *)
      injection O as <-. unfold removePlayer.
      destruct (negb (nonEmpty playerId)); [now split|].
      split; [exact I|]. unfold ticks. simpl. now apply filter_app_none.
    + (* config *)
      injection O as <-. unfold handleConfig.
      destruct (lookup playerId (players w)); now split.
    + (* input *)
      unfold handleInput in O. simpl in O.
      destruct (lookup playerId (players w)) as [st|].
      * destruct inputAxis as [[[ax ay]|]|]; [|discriminate|];
          injection O as <-; (split; [exact I|]); unfold ticks; simpl;
          now apply filter_app_none.
      * injection O as <-. split; [exact I|]. unfold ticks. simpl.
        now apply filter_app_none.
    + injection O as <-. now split.
  - rewrite I in O. injection O as <-. now split.
  - destruct (physicsInterval w); injection O as <-; [|now split].
    unfold updatePhysics.
    destruct (stepPlayers w (players w) (closestCorner w)) as [ps closest].
    split; [exact I|]. unfold ticks. simpl. now apply filter_app_none.
Qed.

Lemma run_without_start : forall os w w',
  interval w = false -> forallb (fun o => negb (isStart o)) os = true ->
  run w os = Some w' -> interval w' = false /\ ticks w' = ticks w.
Proof.
  induction os as [|o os IH]; intros w w' I NS R; simpl in *.
  - injection R as <-. now split.
  - apply andb_true_iff in NS as [N1 N2]. apply negb_true_iff in N1.
    destruct (occur w o) as [w1|] eqn:O; [|discriminate].
    destruct (occur_without_start w o w1 I N1 O) as [I1 T1].
    destruct (IH w1 w' I1 N2 R) as [I2 T2]. split; [exact I2|congruence].
Qed.

End WithHost.

(** C3, the code at the failing input. [stop()] is idempotent, and after it
    no tick is posted until the next [start]; but the interval that runs
    [updatePhysics] is armed by [init] and [stop()] does not clear it: after
    [init], [start], [stop], the next elapse of that interval posts a
    [stateUpdate]. *)
Theorem stop_leaves_the_physics_loop_running {host : HostMath} :
  (forall w, stop (stop w) = stop w) /\
  (forall w os w',
     forallb (fun o => negb (isStart o)) os = true ->
     run (stop w) os = Some w' ->
     interval w' = false /\ filter isTick (outbox w') = filter isTick (outbox w)) /\
  exists w,
    run loaded [Receive (CInit plainInit); Receive CStart; Receive CStop] = Some w /\
    running w = false /\ interval w = false /\ physicsInterval w = true /\
    occur w PhysicsInterval
    = Some (withPlayers w [] (closestCorner w) (outbox w ++ [EStateUpdate []])).
Proof.
  split; [exact stop_idempotent|]. split.
  - intros w os w' NS R.
    exact (run_without_start os (stop w) w' eq_refl NS R).
  - eexists. split; [reflexivity|]. repeat split.
Qed.

End EngineFacts.

(* ====================================================================== *)
(** * Facts about the numbers *)
(* ====================================================================== *)

Module FloatFacts.

Local Open Scope float_scope.

(** ** Through the specification of the primitive operations *)

Ltac to_spec :=
  rewrite ?mul_spec, ?add_spec, ?sub_spec, ?div_spec, ?opp_spec, ?abs_spec, ?sqrt_spec.

Lemma fmul_comm x y : x * y = y * x.
Proof.
  apply Prim2SF_inj. rewrite !mul_spec.
  destruct (Prim2SF x) as [sx|sx| |sx mx ex], (Prim2SF y) as [sy|sy| |sy my ey];
    cbn; try reflexivity; try (now rewrite xorb_comm).
  now rewrite xorb_comm, Pos.mul_comm, Z.add_comm.
Qed.

Lemma fmul_opp_l x y : (- x) * y = - (x * y).
Proof.
  apply Prim2SF_inj. rewrite mul_spec, !opp_spec, mul_spec.
  destruct (Prim2SF x) as [sx|sx| |sx mx ex], (Prim2SF y) as [sy|sy| |sy my ey];
    cbn; try reflexivity.
  all: try (now destruct sx, sy).
  unfold binary_round_aux.
  destruct (shr_fexp prec emax (Z.pos (mx * my)) (ex + ey) loc_Exact) as [mrs e].
  destruct (shr_fexp prec emax _ e loc_Exact) as [mrs' e'].
  destruct (shr_m mrs'); cbn; try reflexivity.
  - now destruct sx, sy.
  - match goal with |- context [if ?b then _ else _] => destruct b end; now destruct sx, sy.
Qed.

Lemma nan_div y : nan / y = nan.
Proof. apply Prim2SF_inj. rewrite div_spec. reflexivity. Qed.

Lemma is_finite_spec x :
  is_finite x = true ->
  (exists s, Prim2SF x = S754_zero s) \/ (exists s m e, Prim2SF x = S754_finite s m e).
Proof.
  unfold is_finite, is_nan, is_infinity. rewrite !FloatAxioms.eqb_spec, abs_spec.
  change (Prim2SF infinity) with (S754_infinity false).
  destruct (Prim2SF x) as [s|s| |s m e]; cbn.
  - intros _. left. now exists s.
  - rewrite orb_true_r. discriminate.
  - discriminate.
  - intros _. right. now exists s, m, e.
Qed.

Lemma fsub_self x : is_finite x = true -> x - x = 0.
Proof.
  intros F. apply Prim2SF_inj. rewrite sub_spec.
  destruct (is_finite_spec x F) as [[s ->]|(s & m & e & ->)].
  - now destruct s.
  - cbn. rewrite Z.min_id. unfold shl_align. rewrite !Z.sub_diag. reflexivity.
Qed.

(** [x + 0] is [x] as a number ([-0 + 0] is [+0], which [===] does not tell
    from [-0]). *)
Lemma fadd_zero_eqb x : is_finite x = true -> (x + 0 =? x) = true.
Proof.
  intros F. rewrite FloatAxioms.eqb_spec, add_spec.
  destruct (is_finite_spec x F) as [[s E]|(s & m & e & E)]; rewrite E.
  - now destruct s.
  - change (Prim2SF 0) with (S754_zero false). cbn.
    unfold SFeqb, SFcompare. destruct s; rewrite Z.compare_refl, Pos.compare_cont_refl;
      reflexivity.
Qed.


(** ** Integers as numbers *)

Local Open Scope Z_scope.

Lemma digits2_size p : digits2_pos p = Pos.size p.
Proof. induction p; simpl; congruence. Qed.

Lemma digits2_bounds p : 2 ^ (Zpos (digits2_pos p) - 1) <= Zpos p < 2 ^ Zpos (digits2_pos p).
Proof.
  rewrite digits2_size. split.
  - pose proof (Pos.size_le p) as H.
    assert (E : Zpos (2 ^ Pos.size p) = 2 ^ Zpos (Pos.size p)) by now rewrite Pos2Z.inj_pow.
    assert (2 ^ Zpos (Pos.size p) = 2 * 2 ^ (Zpos (Pos.size p) - 1)).
    { rewrite <- Z.pow_succ_r by lia. f_equal. lia. }
    apply Pos2Z.pos_le_pos in H. rewrite E in H. change (Zpos p~0) with (2 * Zpos p) in H. lia.
  - pose proof (Pos.size_gt p) as H. apply Pos2Z.pos_lt_pos in H.
    now rewrite Pos2Z.inj_pow in H.
Qed.

(** The number of digits is determined by the bounds. *)
Lemma digits2_unique p d : 2 ^ (d - 1) <= Zpos p < 2 ^ d -> Zpos (digits2_pos p) = d.
Proof.
  intros [L U]. pose proof (digits2_bounds p) as [L' U'].
  assert (0 < d).
  { destruct (Z.ltb_spec 0 d); auto. rewrite Z.pow_neg_r in L by lia.
    assert (2 ^ d <= 1). { destruct (Z.eq_dec d 0) as [->|]; [simpl; lia|rewrite Z.pow_neg_r; lia]. }
    lia. }
  destruct (Z.lt_trichotomy (Zpos (digits2_pos p)) d) as [Hlt|[E|Hgt]]; auto.
  - assert (2 ^ Zpos (digits2_pos p) <= 2 ^ (d - 1)) by (apply Z.pow_le_mono_r; lia). lia.
  - assert (2 ^ d <= 2 ^ (Zpos (digits2_pos p) - 1)) by (apply Z.pow_le_mono_r; lia). lia.
Qed.

Lemma iter_xO_mul p j : Zpos (Pos.iter xO p j) = Zpos p * 2 ^ Zpos j.
Proof.
  induction j using Pos.peano_ind.
  - simpl. lia.
  - rewrite Pos.iter_succ, Pos2Z.inj_succ, Z.pow_succ_r by lia.
    change (Zpos (Pos.iter xO p j)~0) with (2 * Zpos (Pos.iter xO p j)). lia.
Qed.

Lemma digits2_shift p j : 0 <= j -> forall m, Zpos m = Zpos p * 2 ^ j ->
  Zpos (digits2_pos m) = Zpos (digits2_pos p) + j.
Proof.
  intros Hj m E. apply digits2_unique. rewrite E.
  pose proof (digits2_bounds p) as [L U].
  replace (Zpos (digits2_pos p) + j - 1) with ((Zpos (digits2_pos p) - 1) + j) by lia.
  rewrite !Z.pow_add_r by lia.
  assert (0 < 2 ^ j) by (apply Z.pow_pos_nonneg; lia).
  split; nia.
Qed.

(** Rounding a mantissa of 53 digits whose exponent is in range changes
    nothing. *)
Lemma round_canonical s m e :
  Zpos (digits2_pos m) = 53 -> -1074 <= e <= 971 ->
  binary_round_aux prec emax s (Zpos m) e loc_Exact = S754_finite s m e.
Proof.
  intros D E. unfold binary_round_aux, shr_fexp. cbn [Zdigits2 shr_record_of_loc].
  rewrite D. unfold fexp, emin.
  replace (Z.max (53 + e - prec) (3 - emax - prec) - e) with 0 by (unfold prec, emax; lia).
  cbn [shr shr_m loc_of_shr_record round_nearest_even Zdigits2 shr_record_of_loc].
  rewrite D.
  replace (Z.max (53 + e - prec) (3 - emax - prec) - e) with 0 by (unfold prec, emax; lia).
  cbn [shr shr_m].
  destruct (Z.leb_spec e (emax - prec)); [reflexivity|unfold prec, emax in *; lia].
Qed.

Lemma ofZ_pos_spec p :
  Zpos (digits2_pos p) <= 53 ->
  exists m j,
    Prim2SF (ofZ (Zpos p)) = S754_finite false m (- j) /\
    0 <= j <= 52 /\ Zpos m = Zpos p * 2 ^ j /\ Zpos (digits2_pos m) = 53.
Proof.
  intros D. unfold ofZ. rewrite of_uint63_spec.
  assert (Hp : Uint63.to_Z (Uint63.of_Z (Zpos p)) = Zpos p).
  { rewrite Uint63.of_Z_spec. apply Z.mod_small.
    pose proof (digits2_bounds p) as [_ U].
    assert (2 ^ Zpos (digits2_pos p) <= 2 ^ 53) by (apply Z.pow_le_mono_r; lia).
    change Uint63.wB with (2 ^ 63). assert (2 ^ 53 < 2 ^ 63) by reflexivity. lia. }
  change Uint63Axioms.to_Z with Uint63.to_Z. rewrite Hp.
  cbn [binary_normalize]. unfold binary_round, shl_align.
  unfold fexp at 1. unfold emin.
  pose proof (Pos2Z.is_pos (digits2_pos p)) as Hd.
  replace (Z.max (Zpos (digits2_pos p) + 0 - prec) (3 - emax - prec))
    with (Zpos (digits2_pos p) - 53) by (unfold prec, emax; lia).
  rewrite Z.sub_0_r.
  destruct (Zpos (digits2_pos p) - 53) as [|q|q] eqn:Q; [|lia|].
  - exists p, 0. assert (D53 : Zpos (digits2_pos p) = 53) by lia.
    rewrite (round_canonical false p 0 D53) by lia.
    split; [reflexivity|]. split; [lia|]. split; [lia|exact D53].
  - assert (E : Zpos (Pos.iter xO p q) = Zpos p * 2 ^ Zpos q) by apply iter_xO_mul.
    assert (Dm : Zpos (digits2_pos (Pos.iter xO p q)) = 53).
    { rewrite (digits2_shift p (Zpos q)) with (m := Pos.iter xO p q); auto; lia. }
    exists (Pos.iter xO p q), (Zpos q).
    replace (fexp prec emax (Zpos (digits2_pos p) + 0)) with (Zneg q)
      by (unfold fexp, emin, prec, emax; lia).
    rewrite (round_canonical false _ (Zneg q) Dm) by lia.
    split; [reflexivity|]. split; [lia|]. split; [exact E|exact Dm].
Qed.

Local Close Scope Z_scope.
Local Open Scope float_scope.

Lemma shr_by_52 m :
  SpecFloat.iter_pos shr_1 52 (Build_shr_record (Zpos (4503599627370496 * m)) false false)
  = Build_shr_record (Zpos m) false false.
Proof. reflexivity. Qed.

Lemma digits_times_2_52 m :
  Zpos (digits2_pos (4503599627370496 * m)) = (Zpos (digits2_pos m) + 52)%Z.
Proof.
  apply digits2_shift with (p := m); [lia|].
  rewrite Pos2Z.inj_mul. change (Zpos 4503599627370496) with (2 ^ 52)%Z. lia.
Qed.

(** Multiplying by one changes nothing. *)
Lemma fmul_one_l x : 1 * x = x.
Proof.
  apply Prim2SF_inj. rewrite mul_spec.
  pose proof (Prim2SF_valid x) as V.
  change (Prim2SF 1) with (S754_finite false 4503599627370496 (-52)).
  destruct (Prim2SF x) as [s|s| |s m e]; try reflexivity.
  cbn [SF64mul SFmul xorb]. cbn [valid_binary] in V.
  unfold bounded, canonical_mantissa in V.
  apply andb_true_iff in V as [C B]. apply Z.eqb_eq in C. apply Z.leb_le in B.
  unfold binary_round_aux, shr_fexp. cbn [Zdigits2 shr_record_of_loc].
  rewrite digits_times_2_52.
  replace (Zpos (digits2_pos m) + 52 + (-52 + e))%Z with (Zpos (digits2_pos m) + e)%Z by lia.
  rewrite C.
  replace (e - (-52 + e))%Z with 52%Z by lia.
  cbn [shr]. rewrite shr_by_52.
  cbn [shr_m loc_of_shr_record round_nearest_even Zdigits2 shr_record_of_loc].
  replace (-52 + e + 52)%Z with e by lia. rewrite C, Z.sub_diag. cbn [shr shr_m].
  destruct (Z.leb_spec e (emax - prec)); [reflexivity|lia].
Qed.

Lemma floorZ_ofZ p : (Zpos (digits2_pos p) <= 53)%Z -> floorZ (ofZ (Zpos p)) = Some (Zpos p).
Proof.
  intros D. destruct (ofZ_pos_spec p D) as (m & j & E & Hj & Hm & _).
  unfold floorZ. rewrite E. f_equal. cbn [cond_Zopp].
  destruct (Z.leb_spec 0 (- j)).
  - assert (j = 0%Z) by lia. subst j. rewrite Hm. simpl. lia.
  - rewrite Z.opp_involutive, Hm. apply Z.div_mul.
    apply Z.pow_nonzero; lia.
Qed.

Lemma Math_floor_ofZ p : (Zpos (digits2_pos p) <= 53)%Z -> Math_floor (ofZ (Zpos p)) = ofZ (Zpos p).
Proof.
  intros D. destruct (ofZ_pos_spec p D) as (m & j & E & Hj & Hm & _).
  unfold Math_floor. rewrite E. cbn [cond_Zopp].
  destruct (Z.leb_spec 0 (- j)); [reflexivity|].
  rewrite Z.opp_involutive, Hm, Z.div_mul by (apply Z.pow_nonzero; lia).
  reflexivity.
Qed.

(** A finite number other than zero divided by itself is one. *)
Lemma fdiv_self x s m e : Prim2SF x = S754_finite s m e -> x / x = 1.
Proof.
  intros E. apply Prim2SF_inj. rewrite div_spec, E.
  cbn [SF64div SFdiv]. unfold SFdiv_core_binary.
  cbn [Zdigits2]. rewrite !Z.sub_diag.
  replace (Z.min (fexp prec emax 0) 0) with (-53)%Z by reflexivity.
  cbn [Z.sub Z.opp Z.add]. cbn [Z.shiftl].
  assert (D : Z.div_eucl (Z.shiftl (Zpos m) 53) (Zpos m) = (2 ^ 53, 0)%Z).
  { rewrite Z.shiftl_mul_pow2 by lia.
    pose proof (Z.div_eucl_eq (Zpos m * 2 ^ 53) (Zpos m) ltac:(lia)) as H.
    pose proof (Z.mod_pos_bound (Zpos m * 2 ^ 53) (Zpos m) ltac:(lia)) as Hb.
    unfold Z.modulo in Hb.
    destruct (Z.div_eucl (Zpos m * 2 ^ 53) (Zpos m)) as [q r].
    assert (q = 2 ^ 53 /\ r = 0)%Z as [-> ->]; [|reflexivity].
    assert (Zpos m * (2 ^ 53 - q) = r)%Z by lia.
    assert (2 ^ 53 - q = 0)%Z by nia. split; lia. }
  change (Z.shiftl (Zpos m) 53) with (Z.shiftl (Zpos m) 53) in D.
  cbn [Z.shiftl] in D. rewrite D.
  unfold new_location, new_location_even, new_location_odd.
  destruct (Z.even (Zpos m)), s; reflexivity.
Qed.

(** ** The order of the numbers *)

Lemma is_nan_spec x : is_nan x = match Prim2SF x with S754_nan => true | _ => false end.
Proof.
  unfold is_nan. rewrite FloatAxioms.eqb_spec. unfold SFeqb, SFcompare.
  destruct (Prim2SF x) as [s|s| |s m e]; try reflexivity.
  - now destruct s.
  - destruct s; now rewrite Z.compare_refl, Pos.compare_cont_refl.
Qed.

Lemma SFcompare_antisym a b :
  SFcompare b a = match SFcompare a b with Some c => Some (CompOpp c) | None => None end.
Proof.
  destruct a as [sa|sa| |sa ma ea], b as [sb|sb| |sb mb eb]; cbn;
    try reflexivity; try (now destruct sa); try (now destruct sb);
    try (now destruct sa, sb).
  pose proof (Pos.compare_cont_antisym ma mb Eq) as P. cbn [CompOpp] in P.
  rewrite (Z.compare_antisym ea eb), <- P.
  destruct sa, sb; try reflexivity;
    destruct (ea ?= eb)%Z; cbn; try reflexivity;
    now destruct (Pos.compare_cont Eq ma mb).
Qed.

Lemma SFcompare_total a b :
  a <> S754_nan -> b <> S754_nan -> exists c, SFcompare a b = Some c.
Proof.
  destruct a as [sa|sa| |sa ma ea], b as [sb|sb| |sb mb eb]; cbn; intros; try congruence;
    eexists; reflexivity.
Qed.

Lemma nan_iff x : is_nan x = false <-> Prim2SF x <> S754_nan.
Proof.
  rewrite is_nan_spec. destruct (Prim2SF x); split; intros; try congruence; reflexivity.
Qed.

Lemma ltb_leb a b : (a <? b) = true -> (a <=? b) = true.
Proof.
  rewrite ltb_spec, leb_spec. unfold SFltb, SFleb.
  now destruct (SFcompare (Prim2SF a) (Prim2SF b)) as [[]|].
Qed.

Lemma leb_refl a : is_nan a = false -> (a <=? a) = true.
Proof.
  rewrite is_nan_spec, leb_spec. unfold SFleb, SFcompare.
  destruct (Prim2SF a) as [s|s| |s m e]; try reflexivity; try discriminate.
  - now destruct s.
  - destruct s; now rewrite Z.compare_refl, Pos.compare_cont_refl.
Qed.

(** Of two numbers neither of which is below the other, each is at most the
    other. *)
Lemma leb_of_not_ltb a b :
  is_nan a = false -> is_nan b = false -> (a <? b) = false -> (b <? a) = false ->
  (a <=? b) = true /\ (b <=? a) = true.
Proof.
  rewrite !nan_iff, !ltb_spec, !leb_spec. unfold SFltb, SFleb. intros Na Nb.
  rewrite (SFcompare_antisym (Prim2SF a) (Prim2SF b)).
  destruct (SFcompare_total _ _ Na Nb) as [c ->]. now destruct c.
Qed.

Lemma leb_of_ltb_false a b :
  is_nan a = false -> is_nan b = false -> (a <? b) = false -> (b <=? a) = true.
Proof.
  rewrite !nan_iff, !ltb_spec, !leb_spec. unfold SFltb, SFleb. intros Na Nb.
  rewrite (SFcompare_antisym (Prim2SF a) (Prim2SF b)).
  destruct (SFcompare_total _ _ Na Nb) as [c ->]. now destruct c.
Qed.

Lemma Math_max_cases a b :
  is_nan (Math_max a b) = false ->
  is_nan a = false /\ is_nan b = false /\
  (a <=? Math_max a b) = true /\ (b <=? Math_max a b) = true /\
  (Math_max a b = a \/ Math_max a b = b).
Proof.
  unfold Math_max.
  destruct (is_nan a) eqn:Na; [discriminate|].
  destruct (is_nan b) eqn:Nb; [discriminate|]. cbn [orb]. intros _.
  repeat split.
  - destruct (a <? b) eqn:L1; [now apply ltb_leb|].
    destruct (b <? a) eqn:L2; [now apply leb_refl|].
    destruct (get_sign a); [|now apply leb_refl].
    now apply leb_of_not_ltb.
  - destruct (a <? b) eqn:L1; [now apply leb_refl|].
    destruct (b <? a) eqn:L2; [now apply ltb_leb|].
    destruct (get_sign a); [now apply leb_refl|].
    now apply leb_of_not_ltb.
  - destruct (a <? b); [now right|]. destruct (b <? a); [now left|].
    destruct (get_sign a); [now right|now left].
Qed.

Lemma Math_min_cases a b :
  is_nan (Math_min a b) = false ->
  is_nan a = false /\ is_nan b = false /\
  (Math_min a b <=? a) = true /\ (Math_min a b <=? b) = true /\
  (Math_min a b = a \/ Math_min a b = b).
Proof.
  unfold Math_min.
  destruct (is_nan a) eqn:Na; [discriminate|].
  destruct (is_nan b) eqn:Nb; [discriminate|]. cbn [orb]. intros _.
  repeat split.
  - destruct (a <? b) eqn:L1; [now apply leb_refl|].
    destruct (b <? a) eqn:L2; [now apply ltb_leb|].
    destruct (get_sign a); [now apply leb_refl|].
    now apply leb_of_not_ltb.
  - destruct (a <? b) eqn:L1; [now apply ltb_leb|].
    destruct (b <? a) eqn:L2; [now apply leb_refl|].
    destruct (get_sign a); [|now apply leb_refl].
    now apply leb_of_not_ltb.
  - destruct (a <? b); [now left|]. destruct (b <? a); [now right|].
    destruct (get_sign a); [now left|now right].
Qed.

(** A clamped value that is a number lies between the bounds. *)
Lemma clamp_bounds v lo hi :
  (lo <=? hi) = true -> is_nan (clamp v lo hi) = false ->
  (lo <=? clamp v lo hi) = true /\ (clamp v lo hi <=? hi) = true.
Proof.
  intros LH N. unfold clamp in *.
  destruct (Math_max_cases _ _ N) as (Nlo & Nm & L1 & L2 & C).
  destruct (Math_min_cases _ _ Nm) as (Nhi & Nv & M1 & M2 & C').
  split; [exact L1|].
  destruct C as [-> | ->]; [exact LH|exact M1].
Qed.

(** ** Signs *)

Lemma fmul_opp_r x y : x * (- y) = - (x * y).
Proof. now rewrite (fmul_comm x (- y)), fmul_opp_l, (fmul_comm y x). Qed.

Lemma fadd_opp a c : a + (- c) = a - c.
Proof.
  apply Prim2SF_inj. rewrite add_spec, sub_spec, opp_spec.
  destruct (Prim2SF a) as [sa|sa| |sa ma ea], (Prim2SF c) as [sc|sc| |sc mc ec];
    cbn; try reflexivity; now destruct sa, sc.
Qed.

(** [a + b * (-r)], as the worker computes the bounce, is [a - b * r]. *)
Lemma fadd_mul_opp a b r : a + b * (- r) = a - b * r.
Proof. now rewrite fmul_opp_r, fadd_opp. Qed.

Lemma half_opp_mul M : - M * 0.5 = -0.5 * M.
Proof.
  rewrite fmul_opp_l. change (-0.5) with (- (0.5)). rewrite fmul_opp_l.
  now rewrite (fmul_comm M 0.5).
Qed.

Lemma leb_not_nan a b : (a <=? b) = true -> is_nan a = false /\ is_nan b = false.
Proof.
  rewrite leb_spec, !is_nan_spec. unfold SFleb, SFcompare.
  destruct (Prim2SF a), (Prim2SF b); try discriminate; auto.
Qed.

Lemma eqb_of_not_ltb a b :
  is_nan a = false -> is_nan b = false -> (a <? b) = false -> (b <? a) = false ->
  (a =? b) = true.
Proof.
  rewrite !nan_iff, !ltb_spec, FloatAxioms.eqb_spec. unfold SFltb, SFeqb. intros Na Nb.
  rewrite (SFcompare_antisym (Prim2SF a) (Prim2SF b)).
  destruct (SFcompare_total _ _ Na Nb) as [c ->]. now destruct c.
Qed.

Lemma trichotomy a lo hi :
  (lo <=? a) = true -> (a <=? hi) = true ->
  (0 <? a) = true \/ (a <? 0) = true \/ (a =? 0) = true.
Proof.
  intros L _. apply leb_not_nan in L as [_ Na].
  destruct (0 <? a) eqn:P; [now left|].
  destruct (a <? 0) eqn:N; [now right; left|].
  right; right. now apply eqb_of_not_ltb.
Qed.

Lemma is_nan_opp x : is_nan (- x) = is_nan x.
Proof. rewrite !is_nan_spec, opp_spec. now destruct (Prim2SF x). Qed.

Lemma is_nan_mul_r x y : is_nan (x * y) = false -> is_nan y = false.
Proof.
  rewrite !is_nan_spec, mul_spec.
  destruct (Prim2SF x), (Prim2SF y); cbn; auto.
Qed.

(** Four times a number that is at least 0.0001 is not below its opposite. *)
Lemma opp_leb_four_times M :
  (0.0001 <=? M) = true -> is_nan (4 * M) = false -> (- (4 * M) <=? 4 * M) = true.
Proof.
  rewrite !leb_spec, is_nan_spec, opp_spec, mul_spec.
  set (c := Prim2SF 0.0001). vm_compute in c. subst c.
  change (Prim2SF 4) with (S754_finite false 4503599627370496 (-50)).
  destruct (Prim2SF M) as [s|s| |s m e]; cbn; try discriminate.
  - destruct s; [discriminate|reflexivity].
  - destruct s; [discriminate|]. intros _.
    unfold binary_round_aux.
    destruct (shr_fexp prec emax _ _ loc_Exact) as [mrs e1].
    destruct (shr_fexp prec emax _ e1 loc_Exact) as [mrs' e2].
    destruct (shr_m mrs'); try discriminate; try reflexivity.
    now destruct (e2 <=? emax - prec)%Z.
Qed.

End FloatFacts.

(* ====================================================================== *)
(** * The fixed step of a player: claims C5 and C6 *)
(* ====================================================================== *)

Module Physics.

Import MathJs PhysicsWorker Samples FloatFacts.
Local Open Scope float_scope.

Section WithHost.
Context {host : HostMath}.

(** The scalar speed of the step is the rule of the specification applied to
    the speed along the nose, as soon as [0.99 ** 1] is [0.99]. *)
Lemma speedStep_rule st speed0 :
  Math_pow 0.99 1 = 0.99 ->
  speedStep st speed0 = speedRule speed0 (maxSpeedOf st) (accel st) (throttle st).
Proof.
  intros P. unfold speedStep, speedRule.
  rewrite half_opp_mul, (fmul_comm (maxSpeedOf st) 4).
  change 1.0 with 1. now rewrite P.
Qed.

Lemma speedStep_bounds st speed0 :
  is_nan (speedStep st speed0) = false ->
  (- (4 * maxSpeedOf st) <=? speedStep st speed0) = true /\
  (speedStep st speed0 <=? 4 * maxSpeedOf st) = true.
Proof.
  intros N. unfold speedStep in *. rewrite (fmul_comm (maxSpeedOf st) 4) in *.
  apply clamp_bounds; [|exact N].
  unfold clamp in N. destruct (Math_max_cases _ _ N) as (Nlo & _).
  rewrite is_nan_opp in Nlo.
  apply opp_leb_four_times; [|exact Nlo].
  apply is_nan_mul_r in Nlo. unfold maxSpeedOf in *.
  now destruct (Math_max_cases _ _ Nlo) as (_ & _ & L & _).
Qed.

(** The state after the step, in terms of the values before the collision
    test and of the resolver's result. *)
Lemma updatePlayerPhysics_cases w st closest :
  let m := motion st in
  let obb := fst (collisionTest w st closest) in
  let st' := fst (updatePlayerPhysics w st closest) in
  let n := normal obb in
  let d := distance obb in
  let v := m_velocity m in
  let a := m_angularVelocity m in
  let vDotN := x v * x n + y v * y n + z v * z n in
  rot st' = m_rot m /\
  ((d <? playerRadius) = true ->
   pos st' = mkV3 (x (m_pos m) + x n * (playerRadius - d))
                  (y (m_pos m) + y n * (playerRadius - d))
                  (z (m_pos m) + z n * (playerRadius - d)) /\
   velocity st' = mkV3 ((x v - x n * vDotN) * slideFactor w - x n * vDotN * restitution w)
                       ((y v - y n * vDotN) * slideFactor w - y n * vDotN * restitution w)
                       ((z v - z n * vDotN) * slideFactor w - z n * vDotN * restitution w) /\
   angularVelocity st' = mkV3 (x a * 0.1) (y a * 0.1) (z a * 0.1)) /\
  ((d <? playerRadius) = false ->
   pos st' = m_pos m /\ velocity st' = v /\ angularVelocity st' = a).
Proof.
  cbv zeta. unfold updatePlayerPhysics.
  destruct (collisionTest w st closest) as [obb closest']. cbn [fst].
  destruct (distance obb <? playerRadius) eqn:D.
  - unfold contactResponse, floatOps, toArr, ofArr. cbn -[motion playerRadius].
    rewrite !fadd_mul_opp.
    split; [reflexivity|]. split; [|discriminate]. intros _. repeat split.
  - cbn -[motion]. split; [reflexivity|]. split; [discriminate|]. intros _. repeat split.
Qed.

End WithHost.

(** A second input at which a craft stays inside. On a planet without
    relief a craft at rest has its corner [(-1, -0.5, -2)] at the centre of
    the planet: the resolver reports the distance -350 and, the gradient and
    the radial fallback both being zero there, the normal (0, 0, 0). The
    contact branch runs and moves nothing: after the step the distance along
    the reported normal is still -350, and a second run of the resolver at the
    new pose reports -350 again. *)
Lemma zero_normal_leaves_the_craft_inside :
  (distance (fst (collisionTest (host := RefHost.refHost) sphereWorker atCentre (mkV3 0 0 0)))
   <? playerRadius) = true /\
  normal (fst (collisionTest (host := RefHost.refHost) sphereWorker atCentre (mkV3 0 0 0)))
  = mkV3 0 0 0 /\
  pos (fst (updatePlayerPhysics (host := RefHost.refHost) sphereWorker atCentre (mkV3 0 0 0)))
  = m_pos (motion (host := RefHost.refHost) atCentre) /\
  (alongNormal floatOps
     (distance (fst (collisionTest (host := RefHost.refHost) sphereWorker atCentre (mkV3 0 0 0))))
     (toArr (normal (fst (collisionTest (host := RefHost.refHost) sphereWorker atCentre
                            (mkV3 0 0 0)))))
     (displacement floatOps
        (toArr (m_pos (motion (host := RefHost.refHost) atCentre)))
        (toArr (pos (fst (updatePlayerPhysics (host := RefHost.refHost) sphereWorker atCentre
                            (mkV3 0 0 0))))))
   <? playerRadius) = true /\
  (distance
     (fst (obbSignedDistanceWithNormal (host := RefHost.refHost) sphereWorker
             (pos (fst (updatePlayerPhysics (host := RefHost.refHost) sphereWorker atCentre
                          (mkV3 0 0 0))))
             (mkV3 1.0 0.5 2.0)
             (rot (fst (updatePlayerPhysics (host := RefHost.refHost) sphereWorker atCentre
                          (mkV3 0 0 0))))
             (mkV3 0 0 0)))
   <? playerRadius) = true.
Proof. repeat split; vm_compute; reflexivity. Qed.

(** C5, the code at the failing input. A worker is initialised on a planet
    without relief of radius 350 and a craft is added 2.3 above the surface,
    nose away from the planet; the step leaves it there. The four corners of
    its tail are 0.30 above the surface, so the minimum corner signed
    distance of its box is less than the player radius. The resolver reports
    1.30: the caller passes the scratch vector [_tmpA] as the half extents and
    [signedDistanceToPlanet] overwrites it with the unit direction of the
    corner it measures, so only the first corner is a corner of the box. The
    contact branch does not run: position, velocity and angular velocity are
    left as integrated, and after the step the box is still 0.30 from the
    surface. *)
Theorem a_corner_inside_gets_no_response :
  exists w st,
    run (host := RefHost.refHost) loaded
      [Receive (CInit sphereInit); Receive (CAddPlayer grazingData)] = Some w /\
    players w = [("alice"%string, st)] /\
    let m := motion (host := RefHost.refHost) st in
    let obb := fst (collisionTest (host := RefHost.refHost) w st (closestCorner w)) in
    let st' := fst (updatePlayerPhysics (host := RefHost.refHost) w st (closestCorner w)) in
    m_pos m = mkV3 0 0 (-352.3) /\ m_rot m = identity /\
    (minCornerDistance (host := RefHost.refHost) w (m_pos m) (m_rot m) <? 0.302) = true /\
    (0.302 <? playerRadius) = true /\
    (1.3 <=? distance obb) = true /\
    (distance obb <? playerRadius) = false /\
    pos st' = m_pos m /\ velocity st' = m_velocity m /\
    angularVelocity st' = m_angularVelocity m /\
    (minCornerDistance (host := RefHost.refHost) w (pos st') (rot st') <? 0.302) = true.
Proof.
  eexists. eexists. split; [vm_compute; reflexivity|]. split; [reflexivity|].
  cbv zeta. repeat split; vm_compute; reflexivity.
Qed.

(** ** The order of the doubles *)

Lemma compare_cont_Eq_spec p q :
  match Pos.compare_cont Eq p q with
  | Eq => p = q
  | Lt => (p < q)%positive
  | Gt => (q < p)%positive
  end.
Proof.
  change (Pos.compare_cont Eq p q) with (Pos.compare p q).
  destruct (Pos.compare_spec p q); assumption.
Qed.

Lemma SFleb_trans a b c : SFleb a b = true -> SFleb b c = true -> SFleb a c = true.
Proof.
  unfold SFleb, SFcompare.
  destruct a as [sa|sa| |sa ma ea], b as [sb|sb| |sb mb eb], c as [sc|sc| |sc mc ec];
    try discriminate; try reflexivity;
    try (destruct sa, sb, sc; try discriminate; reflexivity);
    try (destruct sa, sb; try discriminate; reflexivity);
    try (destruct sb, sc; try discriminate; reflexivity);
    try (destruct sa, sc; try discriminate; reflexivity).
  all: destruct sa, sb, sc; try discriminate; try reflexivity.
  all: try (destruct (Z.compare_spec ea eb); destruct (Z.compare_spec eb ec);
            destruct (Z.compare_spec ea ec); try discriminate; try reflexivity; try lia;
            subst;
            pose proof (compare_cont_Eq_spec ma mb) as A;
            pose proof (compare_cont_Eq_spec mb mc) as B;
            pose proof (compare_cont_Eq_spec ma mc) as C;
            destruct (Pos.compare_cont Eq ma mb), (Pos.compare_cont Eq mb mc),
              (Pos.compare_cont Eq ma mc);
            try discriminate; try reflexivity; subst; lia).
  all: try (destruct (Z.compare ea eb); discriminate).
  all: try (destruct (Z.compare eb ec); discriminate).
  all: try (destruct (Z.compare ea eb), (Z.compare eb ec); discriminate).
Qed.

Lemma leb_trans a b c : (a <=? b) = true -> (b <=? c) = true -> (a <=? c) = true.
Proof. rewrite !leb_spec. apply SFleb_trans. Qed.

(** Below a positive bound: [-(4 M)] and [-0.5 M] are negative, [M] and
    [4 M] are not. *)
Lemma minus_four_times_below M :
  (0.0001 <=? M) = true -> is_nan (4 * M) = false -> (- (4 * M) <=? M) = true.
Proof.
  rewrite !leb_spec, is_nan_spec, opp_spec, mul_spec.
  set (c := Prim2SF 0.0001). vm_compute in c. subst c.
  change (Prim2SF 4) with (S754_finite false 4503599627370496 (-50)).
  destruct (Prim2SF M) as [s|s| |s m e]; cbn; try discriminate.
  - destruct s; [discriminate|reflexivity].
  - destruct s; [discriminate|]. intros _.
    unfold binary_round_aux.
    destruct (shr_fexp prec emax _ _ loc_Exact) as [mrs e1].
    destruct (shr_fexp prec emax _ e1 loc_Exact) as [mrs' e2].
    destruct (shr_m mrs'); try discriminate; try reflexivity.
    now destruct (e2 <=? emax - prec)%Z.
Qed.

Lemma minus_half_below_four_times M :
  (0.0001 <=? M) = true -> is_nan (-0.5 * M) = false -> is_nan (4 * M) = false ->
  (-0.5 * M <=? 4 * M) = true.
Proof.
  rewrite !leb_spec, !is_nan_spec, !mul_spec.
  set (c := Prim2SF 0.0001). vm_compute in c. subst c.
  change (Prim2SF 4) with (S754_finite false 4503599627370496 (-50)).
  change (Prim2SF (-0.5)) with (S754_finite true 4503599627370496 (-53)).
  destruct (Prim2SF M) as [s|s| |s m e]; cbn; try discriminate.
  - destruct s; [discriminate|reflexivity].
  - destruct s; [discriminate|]. intros _.
    unfold binary_round_aux.
    repeat match goal with
           | |- context [shr_fexp ?a ?b ?c ?d ?l] =>
               destruct (shr_fexp a b c d l) as [? ?]
           end.
    repeat match goal with
           | |- context [shr_m ?r] => destruct (shr_m r)
           end; try discriminate; try reflexivity;
      repeat match goal with
             | |- context [(?a <=? emax - prec)%Z] => destruct (a <=? emax - prec)%Z
             end; try discriminate; reflexivity.
Qed.

Lemma ltb_asym a b : (a <? b) = true -> (b <? a) = false.
Proof.
  rewrite !ltb_spec. unfold SFltb. rewrite (SFcompare_antisym (Prim2SF a) (Prim2SF b)).
  now destruct (SFcompare (Prim2SF a) (Prim2SF b)) as [[]|].
Qed.

(** With the throttle open the rule stops at [+maxSpeed]; with the throttle
    reversed it stops at [-0.5 * maxSpeed]. *)
Lemma speedRule_stops_above s M a t :
  (0.0001 <=? M) = true -> (0 <? t) = true -> is_nan (speedRule s M a t) = false ->
  (speedRule s M a t <=? M) = true.
Proof.
  intros HM T N. unfold speedRule in *. cbv zeta in *. rewrite T in *. unfold clamp in *.
  destruct (Math_max_cases _ _ N) as (Nlo & Nx & _ & _ & E).
  destruct (Math_min_cases _ _ Nx) as (_ & Nv & _ & X & _).
  destruct (Math_min_cases _ _ Nv) as (_ & _ & _ & V & _).
  destruct E as [-> | ->].
  - apply minus_four_times_below; [exact HM|]. now rewrite is_nan_opp in Nlo.
  - exact (leb_trans _ _ _ X V).
Qed.

Lemma speedRule_stops_below s M a t :
  (0.0001 <=? M) = true -> (t <? 0) = true -> is_nan (speedRule s M a t) = false ->
  (-0.5 * M <=? speedRule s M a t) = true.
Proof.
  intros HM T N. unfold speedRule in *. cbv zeta in *.
  rewrite (ltb_asym _ _ T), T in *. unfold clamp in *.
  destruct (Math_max_cases _ _ N) as (Nlo & Nx & _ & X & _).
  destruct (Math_min_cases _ _ Nx) as (Nhi & Nv & _ & _ & E).
  destruct (Math_max_cases _ _ Nv) as (_ & Nh & _ & V & _).
  eapply leb_trans; [|exact X].
  destruct E as [-> | ->]; [|exact V].
  now apply minus_half_below_four_times.
Qed.

Lemma speedRule_number s M a t : is_nan (speedRule s M a t) = false -> is_nan M = false.
Proof.
  unfold speedRule, clamp. cbv zeta. intros N.
  destruct (Math_max_cases _ _ N) as (Nlo & _).
  rewrite is_nan_opp in Nlo. now apply is_nan_mul_r in Nlo.
Qed.

(** C6: in every step of every player, the signed speed along the nose (the
    dot product of the velocity with the forward axis after the rotation of
    the step) is updated by the rule of the specification: towards
    [+maxSpeed] at the rate [acceleration * throttle] when the throttle is
    positive, towards [-0.5 * maxSpeed] at that rate when it is negative,
    multiplied by the fixed factor 0.99 when it is zero, and then clamped to
    [+-4 * maxSpeed]; a throttle in [-1, 1] is in exactly these three cases,
    and the resulting speed, when it is a number, lies within the clamp,
    does not exceed [+maxSpeed] when the throttle is positive and is not
    below [-0.5 * maxSpeed] when it is negative. The state after the step
    carries that speed: its orientation is the rotated
    one, and its velocity is the velocity before the step blended towards
    (forward axis * that speed) with [alpha = clamp(1 - e^(-8 min(dt, 2)), 0, 1)]
    and cut to the length [4 * maxSpeed], its position the position before
    the step advanced by that velocity for one fixed step; when the resolver
    reports a contact, the contact response is applied to that velocity and
    that position. *)
Theorem speed_follows_the_rule {host : HostMath} (w : workerState) (st : playerState)
  (closest : Vector3) :
  Math_pow 0.99 1 = 0.99 ->
  (-1 <=? throttle st) = true ->
  (throttle st <=? 1) = true ->
  m_forward (motion st) = forwardAxis (m_rot (motion st)) /\
  m_speed0 (motion st) = dot (velocity st) (m_forward (motion st)) /\
  m_maxSpeed (motion st) = Math_max 0.0001 (orElse (playerSpeed st) 1) /\
  m_speed (motion st)
  = speedRule (m_speed0 (motion st)) (m_maxSpeed (motion st)) (accel st) (throttle st) /\
  ((0 <? throttle st) = true \/ (throttle st <? 0) = true \/ (throttle st =? 0) = true) /\
  (is_nan (m_speed (motion st)) = false ->
   (- (4 * m_maxSpeed (motion st)) <=? m_speed (motion st)) = true /\
   (m_speed (motion st) <=? 4 * m_maxSpeed (motion st)) = true) /\
  ((0 <? throttle st) = true -> is_nan (m_speed (motion st)) = false ->
   (m_speed (motion st) <=? m_maxSpeed (motion st)) = true) /\
  ((throttle st <? 0) = true -> is_nan (m_speed (motion st)) = false ->
   (-0.5 * m_maxSpeed (motion st) <=? m_speed (motion st)) = true) /\
  (let st' := fst (updatePlayerPhysics w st closest) in
   let obb := fst (collisionTest w st closest) in
   let forward := forwardAxis (rot st') in
   let maxSpeed := Math_max 0.0001 (orElse (playerSpeed st) 1) in
   let speed := speedRule (dot (velocity st) forward) maxSpeed (accel st) (throttle st) in
   let alpha := clamp (Math_min 1 (1 - Math_exp (- 8 * Math_min FIXED_STEP 2))) 0 1 in
   let blended := lerp (velocity st) (multiplyScalar forward speed) alpha in
   let v := if maxSpeed * 4 <? length blended
            then multiplyScalar blended (maxSpeed * 4 / length blended)
            else blended in
   let p := add (pos st) (multiplyScalar v FIXED_STEP) in
   let n := normal obb in
   let d := distance obb in
   let vDotN := x v * x n + y v * y n + z v * z n in
   rot st' = m_rot (motion st) /\
   ((d <? playerRadius) = false -> velocity st' = v /\ pos st' = p) /\
   ((d <? playerRadius) = true ->
    velocity st' = mkV3 ((x v - x n * vDotN) * slideFactor w - x n * vDotN * restitution w)
                        ((y v - y n * vDotN) * slideFactor w - y n * vDotN * restitution w)
                        ((z v - z n * vDotN) * slideFactor w - z n * vDotN * restitution w) /\
    pos st' = mkV3 (x p + x n * (playerRadius - d))
                   (y p + y n * (playerRadius - d))
                   (z p + z n * (playerRadius - d)))).
Proof.
  intros P L U.
  assert (A1 : m_forward (motion st) = forwardAxis (m_rot (motion st)))
    by (unfold motion; cbv zeta; cbn [m_forward m_rot]; reflexivity).
  assert (A2 : m_speed0 (motion st) = dot (velocity st) (m_forward (motion st)))
    by (unfold motion; cbv zeta; cbn [m_speed0 m_forward]; reflexivity).
  assert (A3 : m_maxSpeed (motion st) = Math_max 0.0001 (orElse (playerSpeed st) 1))
    by (unfold motion; cbv zeta; cbn [m_maxSpeed]; reflexivity).
  assert (A4 : m_speed (motion st)
               = speedRule (m_speed0 (motion st)) (m_maxSpeed (motion st)) (accel st)
                   (throttle st)).
  { unfold motion. cbv zeta. cbn [m_speed0 m_maxSpeed m_speed]. now apply speedStep_rule. }
  assert (A6 : is_nan (m_speed (motion st)) = false ->
               (- (4 * m_maxSpeed (motion st)) <=? m_speed (motion st)) = true /\
               (m_speed (motion st) <=? 4 * m_maxSpeed (motion st)) = true).
  { unfold motion. cbv zeta. cbn [m_maxSpeed m_speed].
    intros N. split; now apply speedStep_bounds. }
  assert (M : is_nan (m_speed (motion st)) = false ->
              (0.0001 <=? m_maxSpeed (motion st)) = true).
  { intros N. rewrite A4 in N. apply speedRule_number in N. rewrite A3 in N |- *.
    now destruct (Math_max_cases _ _ N) as (_ & _ & B & _). }
  split; [exact A1|]. split; [exact A2|]. split; [exact A3|].
  split; [exact A4|]. split; [exact (trichotomy _ _ _ L U)|]. split; [exact A6|].
  split; [|split].
  - intros T N. pose proof (M N) as B. rewrite A4 in N |- *.
    now apply speedRule_stops_above.
  - intros T N. pose proof (M N) as B. rewrite A4 in N |- *.
    now apply speedRule_stops_below.
  - clear A1 A2 A3 A4 A6 M.
    pose proof (updatePlayerPhysics_cases w st closest) as C. cbv zeta in C.
    destruct C as (R & Cc & Cn). cbv zeta. rewrite R.
    assert (V : m_velocity (motion st)
                = let forward := forwardAxis (m_rot (motion st)) in
                  let maxSpeed := Math_max 0.0001 (orElse (playerSpeed st) 1) in
                  let speed := speedRule (dot (velocity st) forward) maxSpeed (accel st)
                                 (throttle st) in
                  let alpha :=
                    clamp (Math_min 1 (1 - Math_exp (- 8 * Math_min FIXED_STEP 2))) 0 1 in
                  let blended := lerp (velocity st) (multiplyScalar forward speed) alpha in
                  if maxSpeed * 4 <? length blended
                  then multiplyScalar blended (maxSpeed * 4 / length blended)
                  else blended).
    { unfold motion. cbv zeta. cbn [m_velocity m_rot]. unfold velocityStep. cbv zeta.
      rewrite (speedStep_rule _ _ P). unfold maxSpeedOf, SMOOTHING_RATE. reflexivity. }
    cbv zeta in V.
    assert (Q : m_pos (motion st)
                = add (pos st) (multiplyScalar (m_velocity (motion st)) FIXED_STEP))
      by (unfold motion; cbv zeta; cbn [m_pos m_velocity]; reflexivity).
    rewrite <- V. rewrite <- Q.
    split; [reflexivity|]. split.
    + intros D. destruct (Cn D) as (A & B & _). split; assumption.
    + intros D. destruct (Cc D) as (A & B & _). split; assumption.
Qed.

(** The rule at work on a craft flying nose first at 0.5 with the throttle
    fully open, far above the planet: the rule takes the speed to
    0.5 + 1/60, and the velocity after the step is the blend towards it. *)
Lemma speed_follows_the_rule_witness :
  (@Math_pow RefHost.refHost 0.99 1 = 0.99 /\
   (-1 <=? throttle cruising) = true /\ (throttle cruising <=? 1) = true) /\
  m_speed (motion (host := RefHost.refHost) cruising)
  = speedRule 0.5 1 (accel cruising) (throttle cruising) /\
  m_speed (motion (host := RefHost.refHost) cruising) = 0.5 + 1 * 1 * FIXED_STEP /\
  (distance (fst (collisionTest (host := RefHost.refHost) sphereWorker cruising (mkV3 0 0 0)))
   <? playerRadius) = false /\
  velocity (fst (updatePlayerPhysics (host := RefHost.refHost) sphereWorker cruising
                   (mkV3 0 0 0)))
  = lerp (mkV3 0 0 (-0.5)) (mkV3 0 0 (- (0.5 + 1 * 1 * FIXED_STEP)))
      (1 - @Math_exp RefHost.refHost (- 8 * FIXED_STEP)).
Proof.
  pose proof (@speed_follows_the_rule RefHost.refHost sphereWorker cruising (mkV3 0 0 0)
                eq_refl eq_refl eq_refl) as (_ & _ & _ & R & _ & _ & _ & _ & T).
  split; [repeat split|]. split; [exact R|]. split; [reflexivity|].
  cbv zeta in T. destruct T as (_ & N & _).
  split; [vm_compute; reflexivity|].
  rewrite (proj1 (N ltac:(vm_compute; reflexivity))). vm_compute. reflexivity.
Defined.

End Physics.

(* ====================================================================== *)
(** * Products with a fraction of the unit interval *)
(* ====================================================================== *)

Module Rounding.

Import FloatFacts.
Local Open Scope Z_scope.

(** ** Rounding from below *)

Lemma shr_1_spec mrs : 0 <= shr_m mrs -> shr_m (shr_1 mrs) = shr_m mrs / 2 /\ 0 <= shr_m (shr_1 mrs).
Proof.
  destruct mrs as [m r s]. cbn [shr_m]. intros H.
  destruct m as [|[p|p|]|p]; cbn [shr_1 shr_m]; try lia.
  - split; [reflexivity|lia].
  - split; [|lia]. rewrite (Pos2Z.inj_xI p).
    apply Z.div_unique with (r := 1); lia.
  - split; [|lia]. rewrite (Pos2Z.inj_xO p).
    apply Z.div_unique with (r := 0); lia.
  - split; [reflexivity|lia].
Qed.

Lemma pow2_xI n : 2 ^ Zpos n~1 = 2 * (2 ^ Zpos n * 2 ^ Zpos n).
Proof.
  rewrite (Pos2Z.inj_xI n). replace (2 * Zpos n + 1) with (1 + (Zpos n + Zpos n)) by lia.
  rewrite !Z.pow_add_r by lia. reflexivity.
Qed.

Lemma pow2_xO n : 2 ^ Zpos n~0 = 2 ^ Zpos n * 2 ^ Zpos n.
Proof.
  rewrite (Pos2Z.inj_xO n). replace (2 * Zpos n) with (Zpos n + Zpos n) by lia.
  rewrite !Z.pow_add_r by lia. reflexivity.
Qed.

Lemma shr_iter_spec n : forall mrs, 0 <= shr_m mrs ->
  shr_m (SpecFloat.iter_pos shr_1 n mrs) = shr_m mrs / 2 ^ Zpos n /\
  0 <= shr_m (SpecFloat.iter_pos shr_1 n mrs).
Proof.
  induction n as [n IH|n IH|]; intros mrs H; cbn [SpecFloat.iter_pos].
  - destruct (shr_1_spec mrs H) as [E1 H1].
    destruct (IH _ H1) as [E2 H2]. destruct (IH _ H2) as [E3 H3].
    split; [|exact H3]. rewrite E3, E2, E1, pow2_xI.
    assert (0 < 2 ^ Zpos n) by (apply Z.pow_pos_nonneg; lia).
    rewrite !Z.div_div by lia. f_equal; lia.
  - destruct (IH _ H) as [E2 H2]. destruct (IH _ H2) as [E3 H3].
    split; [|exact H3]. rewrite E3, E2, pow2_xO.
    assert (0 < 2 ^ Zpos n) by (apply Z.pow_pos_nonneg; lia).
    rewrite !Z.div_div by lia. reflexivity.
  - destruct (shr_1_spec mrs H) as [E1 H1]. split; [|exact H1]. now rewrite E1.
Qed.

Lemma round_nearest_even_bounds m l : m <= round_nearest_even m l <= m + 1.
Proof.
  destruct l as [|[]]; cbn; try lia. destruct (Z.even m); lia.
Qed.

Lemma digits2_mono a b : Zpos a <= Zpos b -> Zpos (digits2_pos a) <= Zpos (digits2_pos b).
Proof.
  intros H. pose proof (digits2_bounds a) as [La _]. pose proof (digits2_bounds b) as [_ Ub].
  assert (L : 2 ^ (Zpos (digits2_pos a) - 1) < 2 ^ Zpos (digits2_pos b)) by lia.
  apply Z.pow_lt_mono_r_iff in L; lia.
Qed.

Lemma fexp_mono a b : a <= b -> fexp prec emax a <= fexp prec emax b.
Proof. unfold fexp. lia. Qed.

(** The shift of [shr_fexp], as a division. *)
Lemma shr_fexp_spec m e :
  0 <= m ->
  let e1 := fexp prec emax (Zdigits2 m + e) in
  let r := shr_fexp prec emax m e loc_Exact in
  (e1 <= e -> r = (Build_shr_record m false false, e)) /\
  (e < e1 -> shr_m (fst r) = m / 2 ^ (e1 - e) /\ snd r = e1).
Proof.
  intros H e1 r. subst r. unfold shr_fexp. fold e1. cbn [shr_record_of_loc].
  split; intros L.
  - unfold shr. destruct (e1 - e) eqn:Q; try reflexivity. lia.
  - unfold shr. destruct (e1 - e) as [|q|q] eqn:Q; try lia.
    cbn [fst snd]. split; [|lia].
    now destruct (shr_iter_spec q (Build_shr_record m false false) H) as [-> _].
Qed.

(** A product below a representable number rounds to at most that number. *)
Lemma round_below (P M : positive) (E EM : Z) :
  E <= EM -> EM <= emax - prec ->
  fexp prec emax (Zpos (digits2_pos M) + EM) = EM ->
  Zpos P < Zpos M * 2 ^ (EM - E) ->
  match binary_round_aux prec emax false (Zpos P) E loc_Exact with
  | S754_zero _ => True
  | S754_finite s m e =>
      s = false /\ E <= e <= EM /\ Zpos m * 2 ^ (e - E) <= Zpos M * 2 ^ (EM - E)
  | _ => False
  end.
Proof.
  intros HE HM C B.
  (* digits of the product against those of the bound *)
  assert (DM : forall m k, 0 <= k -> Zpos m <= Zpos M * 2 ^ k ->
                Zpos (digits2_pos m) <= Zpos (digits2_pos M) + k).
  { intros m k Hk Hm.
    assert (Hpos : 0 < Zpos M * 2 ^ k) by (apply Z.mul_pos_pos; [lia|apply Z.pow_pos_nonneg; lia]).
    destruct (Zpos M * 2 ^ k) as [|b|b] eqn:Eb; try lia.
    rewrite <- (digits2_shift M k Hk b) by (symmetry; exact Eb).
    now apply digits2_mono. }
  unfold binary_round_aux.
  pose proof (shr_fexp_spec (Zpos P) E ltac:(lia)) as S1. cbv zeta in S1.
  cbn [Zdigits2] in S1.
  set (e1 := fexp prec emax (Zpos (digits2_pos P) + E)) in *.
  assert (He1 : e1 <= EM).
  { rewrite <- C. apply fexp_mono.
    pose proof (DM P (EM - E) ltac:(lia) ltac:(lia)). lia. }
  destruct (shr_fexp prec emax (Zpos P) E loc_Exact) as [mrs ea] eqn:R1.
  cbn [fst snd] in S1. destruct S1 as [S1a S1b].
  (* the value after the first shift and the rounding *)
  assert (V : exists m2, round_nearest_even (shr_m mrs) (loc_of_shr_record mrs) = m2 /\
                         0 <= m2 /\ E <= ea <= EM /\
                         m2 * 2 ^ (ea - E) <= Zpos M * 2 ^ (EM - E)).
  { eexists; split; [reflexivity|].
    destruct (Z.leb_spec e1 E) as [L|L].
    - injection (S1a L) as -> ->.
      cbn [shr_m loc_of_shr_record round_nearest_even]. repeat split; try lia.
      rewrite Z.sub_diag, Z.pow_0_r. lia.
    - destruct (S1b L) as [Em ->].
      pose proof (round_nearest_even_bounds (shr_m mrs) (loc_of_shr_record mrs)) as [Rl Ru].
      rewrite Em in *.
      assert (P2 : 0 < 2 ^ (e1 - E)) by (apply Z.pow_pos_nonneg; lia).
      assert (Hq : 0 <= Zpos P / 2 ^ (e1 - E)) by (apply Z.div_pos; lia).
      repeat split; try lia.
      replace (EM - E) with ((EM - e1) + (e1 - E)) in * by lia.
      rewrite Z.pow_add_r in * by lia.
      assert (Zpos P / 2 ^ (e1 - E) < Zpos M * 2 ^ (EM - e1)).
      { apply Z.div_lt_upper_bound; lia. }
      nia. }
  destruct V as (m2 & -> & H2 & Hea & V).
  destruct m2 as [|m2|m2]; [| |lia].
  - (* rounded to zero *)
    unfold shr_fexp. cbn [Zdigits2 shr_record_of_loc].
    unfold shr. destruct (fexp prec emax (0 + ea) - ea) as [|q|q]; cbn [shr_m]; try exact I.
    destruct (shr_iter_spec q (Build_shr_record 0 false false) ltac:(cbn; lia)) as [-> _].
    cbn [shr_m]. rewrite Z.div_0_l by (apply Z.pow_nonzero; lia). exact I.
  - pose proof (shr_fexp_spec (Zpos m2) ea ltac:(lia)) as S2. cbv zeta in S2.
    cbn [Zdigits2] in S2.
    set (e2 := fexp prec emax (Zpos (digits2_pos m2) + ea)) in *.
    assert (He2 : e2 <= EM).
    { rewrite <- C. apply fexp_mono.
      assert (Zpos m2 <= Zpos M * 2 ^ (EM - ea)).
      { replace (EM - E) with ((EM - ea) + (ea - E)) in V by lia.
        rewrite Z.pow_add_r in V by lia.
        assert (0 < 2 ^ (ea - E)) by (apply Z.pow_pos_nonneg; lia). nia. }
      pose proof (DM m2 (EM - ea) ltac:(lia) ltac:(lia)). lia. }
    destruct (shr_fexp prec emax (Zpos m2) ea loc_Exact) as [mrs' eb] eqn:R2.
    cbn [fst snd] in S2. destruct S2 as [S2a S2b].
    destruct (Z.leb_spec e2 ea) as [L|L].
    + injection (S2a L) as -> ->. cbn [shr_m].
      destruct (Z.leb_spec ea (emax - prec)); [|lia]. repeat split; lia.
    + destruct (S2b L) as [Em ->]. rewrite Em.
      assert (P2 : 0 < 2 ^ (e2 - ea)) by (apply Z.pow_pos_nonneg; lia).
      pose proof (Z.div_pos (Zpos m2) (2 ^ (e2 - ea)) ltac:(lia) P2) as Hq.
      destruct (Zpos m2 / 2 ^ (e2 - ea)) as [|m3|m3] eqn:Q3; [exact I| |lia].
      destruct (Z.leb_spec e2 (emax - prec)); [|lia]. repeat split; try lia.
      replace (e2 - E) with ((e2 - ea) + (ea - E)) by lia.
      rewrite Z.pow_add_r by lia.
      assert (Zpos m3 * 2 ^ (e2 - ea) <= Zpos m2).
      { rewrite <- Q3. rewrite Z.mul_comm. apply Z.mul_div_le. lia. }
      assert (0 < 2 ^ (ea - E)) by (apply Z.pow_pos_nonneg; lia). nia.
Qed.

Lemma zero_of_spec x s : Prim2SF x = S754_zero s -> x = (if s then (-0)%float else 0%float).
Proof.
  intros H. apply Prim2SF_inj. rewrite H. now destruct s.
Qed.

Lemma one_of_spec x : Prim2SF x = S754_finite false 4503599627370496 (-52) -> x = 1%float.
Proof. intros H. apply Prim2SF_inj. now rewrite H. Qed.

(** The canonical form of a finite number. *)
Lemma finite_canonical x s m e :
  Prim2SF x = S754_finite s m e ->
  fexp prec emax (Zpos (digits2_pos m) + e) = e /\ e <= emax - prec.
Proof.
  intros H. pose proof (Prim2SF_valid x) as V. rewrite H in V.
  unfold valid_binary, bounded, canonical_mantissa in V.
  apply andb_true_iff in V as [V1 V2].
  apply Z.eqb_eq in V1. apply Z.leb_le in V2. now split.
Qed.

Lemma below_one x m e :
  Prim2SF x = S754_finite false m e -> (x <? 1)%float = true ->
  e <= -53 /\ Zpos m < 2 ^ (- e).
Proof.
  intros H L. destruct (finite_canonical _ _ _ _ H) as [C _].
  rewrite ltb_spec, H in L.
  change (Prim2SF 1%float) with (S754_finite false 4503599627370496 (-52)) in L.
  unfold SFltb, SFcompare in L.
  pose proof (digits2_bounds m) as [Dl Du].
  unfold fexp, prec, emax, emin in C.
  assert (D : Zpos (digits2_pos m) <= 53) by lia.
  assert (E : e <= -53).
  { destruct (Z.compare_spec e (-52)) as [Q|Q|Q]; try discriminate; [|lia].
    subst e. exfalso.
    destruct (Pos.compare_cont Eq m 4503599627370496) eqn:Q; try discriminate.
    assert (Zpos m < 2 ^ 52) by (apply Pos2Z.pos_lt_pos; exact Q).
    assert (2 ^ (Zpos (digits2_pos m) - 1) < 2 ^ 52) by lia.
    apply Z.pow_lt_mono_r_iff in H1; lia. }
  split; [exact E|].
  assert (2 ^ Zpos (digits2_pos m) <= 2 ^ (- e)) by (apply Z.pow_le_mono_r; lia).
  lia.
Qed.

Local Open Scope float_scope.

Lemma max_zero_cases d :
  is_nan d = false ->
  Math_max d 0 = 0 \/ (Math_max d 0 = d /\ (0 <? d) = true).
Proof.
  intros N. unfold Math_max. rewrite N. change (is_nan 0) with false. cbn [orb].
  destruct (d <? 0) eqn:L0; [now left|].
  destruct (0 <? d) eqn:G0; [now right|]. left.
  assert (Zd : exists s, Prim2SF d = S754_zero s).
  { rewrite ltb_spec in L0, G0. change (Prim2SF 0) with (S754_zero false) in *.
    apply nan_iff in N. unfold SFltb, SFcompare in L0, G0.
    destruct (Prim2SF d) as [s|s| |s m e]; try congruence;
      try (destruct s; discriminate).
    now exists s. }
  destruct Zd as [s Zd]. apply zero_of_spec in Zd.
  destruct s; subst d; reflexivity.
Qed.

Lemma Prim2SF_one : Prim2SF 1 = S754_finite false 4503599627370496 (-52).
Proof. reflexivity. Qed.

Lemma Prim2SF_zero : Prim2SF 0 = S754_zero false.
Proof. reflexivity. Qed.

Lemma compare_both_ways (m c : positive) :
  match Pos.compare_cont Eq m c with Lt => true | _ => false end = false ->
  match Pos.compare_cont Eq c m with Lt => true | _ => false end = false ->
  m = c.
Proof.
  intros L G. pose proof (Pos.compare_antisym m c) as A.
  unfold Pos.compare in A. rewrite A in G.
  destruct (Pos.compare_cont Eq m c) eqn:Q; try discriminate.
  now apply Pos.compare_eq in Q.
Qed.

Lemma equal_to_one x :
  is_nan x = false -> (x <? 1) = false -> (1 <? x) = false -> (0 <? x) = true -> x = 1.
Proof.
  intros N L1 G1 G0.
  rewrite ltb_spec in L1, G1, G0. rewrite Prim2SF_one in L1, G1. rewrite Prim2SF_zero in G0.
  apply nan_iff in N.
  apply one_of_spec.
  destruct (Prim2SF x) as [s|s| |s m e];
    try destruct s; try discriminate; try congruence.
  unfold SFltb, SFcompare in L1, G1.
  destruct (Z.compare_spec e (-52)) as [Q|Q|Q]; try discriminate.
  - subst e.
    rewrite Z.compare_refl in G1.
    now rewrite (compare_both_ways m _ L1 G1).
  - rewrite (proj2 (Z.compare_lt_iff (-52) e) Q) in G1. discriminate.
Qed.

Lemma min_one_cases x :
  is_nan x = false -> (0 <? x) = true ->
  Math_min x 1 = 1 \/ (Math_min x 1 = x /\ (x <? 1) = true).
Proof.
  intros N G0. unfold Math_min. rewrite N. change (is_nan 1) with false. cbn [orb].
  destruct (x <? 1) eqn:L1; [now right|].
  destruct (1 <? x) eqn:G1; [now left|]. left.
  rewrite (equal_to_one x N L1 G1 G0). reflexivity.
Qed.

Lemma positive_finite x :
  (0 <? x) = true -> (x <? 1) = true -> exists m e, Prim2SF x = S754_finite false m e.
Proof.
  intros G0 L1.
  rewrite ltb_spec in G0, L1. change (Prim2SF 0) with (S754_zero false) in G0.
  unfold SFltb, SFcompare in G0, L1.
  destruct (Prim2SF x) as [s|s| |s m e]; try destruct s; try discriminate.
  now exists m, e.
Qed.

(** The clamped fraction is [+0], [1], or a positive number below [1]. *)
Lemma unit_interval_cases d :
  is_nan d = false ->
  let t := Math_min (Math_max d 0) 1 in
  t = 0 \/ t = 1 \/
  ((exists m e, Prim2SF t = S754_finite false m e) /\ (t <? 1) = true).
Proof.
  intros N t. subst t.
  destruct (max_zero_cases d N) as [->|[-> G0]]; [now left|].
  destruct (min_one_cases d N G0) as [->|[-> L1]]; [now right; left|].
  right; right. split; [now apply positive_finite|exact L1].
Qed.

Local Close Scope float_scope.

Lemma index_in_range t k :
  t = 0%float \/ t = 1%float \/
  ((exists m e, Prim2SF t = S754_finite false m e) /\ (t <? 1)%float = true) ->
  Zpos (digits2_pos k) <= 53 ->
  exists i, floorZ (t * ofZ (Zpos k))%float = Some i /\ 0 <= i <= Zpos k.
Proof.
  intros [->|[->|[(m & e & P) L]]] D.
  - exists 0. split; [|lia].
    destruct (ofZ_pos_spec k D) as (mN & j & PN & _).
    unfold floorZ. rewrite mul_spec, PN. reflexivity.
  - exists (Zpos k). rewrite fmul_one_l. split; [now apply floorZ_ofZ|lia].
  - destruct (ofZ_pos_spec k D) as (mN & j & PN & Hj & Em & Dm).
    destruct (below_one _ _ _ P L) as [E53 Hm].
    pose proof (round_below (m * mN) mN (e + - j) (- j)) as R.
    unfold floorZ. rewrite mul_spec, P, PN.
    unfold SF64mul. cbn [SFmul xorb].
    assert (P2 : 0 < 2 ^ (- e)) by (apply Z.pow_pos_nonneg; lia).
    destruct (binary_round_aux prec emax false (Zpos (m * mN)) (e + - j) loc_Exact)
      as [s|s| |s m' e'].
    + exists 0. split; [reflexivity|lia].
    + exfalso. apply R; try (unfold emax, prec; lia).
      * rewrite Dm. unfold fexp, prec, emax, emin. lia.
      * replace (- j - (e + - j)) with (- e) by lia. rewrite Pos2Z.inj_mul. nia.
    + exfalso. apply R; try (unfold emax, prec; lia).
      * rewrite Dm. unfold fexp, prec, emax, emin. lia.
      * replace (- j - (e + - j)) with (- e) by lia. rewrite Pos2Z.inj_mul. nia.
    + destruct R as (-> & He' & V); try (unfold emax, prec; lia).
      * rewrite Dm. unfold fexp, prec, emax, emin. lia.
      * replace (- j - (e + - j)) with (- e) by lia. rewrite Pos2Z.inj_mul. nia.
      * cbn [cond_Zopp]. eexists; split; [reflexivity|].
        replace (- j - (e + - j)) with (- e) in V by lia.
        rewrite Em in V.
        assert (Pj : 0 < 2 ^ j) by (apply Z.pow_pos_nonneg; lia).
        assert (V' : Zpos m' * 2 ^ (e' - (e + - j)) <= Zpos k * 2 ^ (- e + j)).
        { rewrite Z.pow_add_r by lia. lia. }
        destruct (Z.leb_spec 0 e') as [Q|Q].
        -- assert (e' = 0) by lia. assert (j = 0) by lia. subst e' j.
           rewrite Z.pow_0_r, Z.mul_1_r.
           replace (0 - (e + - 0)) with (- e + 0) in V' by lia.
           split; [lia|]. nia.
        -- assert (P3 : 0 < 2 ^ (- e')) by (apply Z.pow_pos_nonneg; lia).
           split; [apply Z.div_pos; lia|].
           apply Z.div_le_upper_bound; [lia|].
           replace (- e + j) with (- e' + (e' - (e + - j))) in V' by lia.
           rewrite Z.pow_add_r in V' by lia.
           assert (0 < 2 ^ (e' - (e + - j))) by (apply Z.pow_pos_nonneg; lia).
           nia.
Qed.

End Rounding.

(* ====================================================================== *)
(** * Facts about the start poses *)
(* ====================================================================== *)

Module Curve.

Import Fbm Utils FloatFacts Rounding.
Local Open Scope Z_scope.

Lemma at_index_in_range {A} (l : list A) i :
  0 <= i < Z.of_nat (List.length l) -> exists a, at_index l i = Some a.
Proof.
  intros H. unfold at_index. destruct (Z.ltb_spec i 0); [lia|].
  destruct (nth_error l (Z.to_nat i)) eqn:E; [now eexists|].
  apply nth_error_None in E. lia.
Qed.

Lemma digits_below_2_53 k : Zpos k < 2 ^ 53 -> Zpos (digits2_pos k) <= 53.
Proof.
  intros H. pose proof (digits2_bounds k) as [L _].
  assert (Q : 2 ^ (Zpos (digits2_pos k) - 1) < 2 ^ 53) by lia.
  apply Z.pow_lt_mono_r_iff in Q; lia.
Qed.

Lemma ofZ_finite k : Zpos (digits2_pos k) <= 53 -> is_finite (ofZ (Zpos k)) = true.
Proof.
  intros D. destruct (ofZ_pos_spec k D) as (m & j & P & _).
  unfold is_finite. rewrite is_nan_spec. unfold is_infinity.
  rewrite FloatAxioms.eqb_spec, abs_spec, P. reflexivity.
Qed.

Local Open Scope float_scope.

Section WithHost.
Context {host : HostMath}.

(** A direction that is not a number has no look rotation. *)
Lemma lookRotation_nan : lookRotation (nan, nan, nan) (0, 1, 0) = (nan, nan, nan, nan).
Proof.
  unfold lookRotation. cbv beta iota zeta.
  set (lx := Math_hypot _ _ _). clearbody lx.
  rewrite !nan_div. reflexivity.
Qed.

Lemma clamped_in_unit_interval d :
  is_nan d = false ->
  let t := Math_min (Math_max d 0) 1 in (0 <=? t) = true /\ (t <=? 1) = true.
Proof.
  intros N t. destruct (unit_interval_cases d N) as [E|[E|[(m & e & P) L]]]; fold t in E || idtac.
  - rewrite E. split; reflexivity.
  - rewrite E. split; reflexivity.
  - fold t in P, L. split; [|now apply ltb_leb].
    rewrite leb_spec, P. reflexivity.
Qed.

Lemma start_pose_total (points : list arr3) (distance : num) :
  (2 <= List.length points)%nat ->
  (Z.of_nat (List.length points) <= 2 ^ 32)%Z ->
  is_nan distance = false ->
  let n := Z.of_nat (List.length points) in
  let index := Math_min (Math_max distance 0) 1 * ofZ (n - 1) in
  exists i0 p0 p1 pose,
    floorZ index = Some i0 /\ (0 <= i0 <= n - 1)%Z /\
    at_index points i0 = Some p0 /\
    at_index points (Z.min (i0 + 1) (n - 1)) = Some p1 /\
    getStartPoseFromCurve points distance = Some pose /\
    position pose = interpolate p0 p1 (index - Math_floor index).
Proof.
  intros H2 H32 N n index.
  assert (Hk : exists k, (n - 1)%Z = Zpos k /\ (Zpos (digits2_pos k) <= 53)%Z).
  { destruct (n - 1)%Z as [|k|k] eqn:E; try lia. exists k. split; [reflexivity|].
    apply digits_below_2_53.
    assert (2 ^ 32 < 2 ^ 53)%Z by (apply Z.pow_lt_mono_r; lia). lia. }
  destruct Hk as (k & Ek & Dk).
  destruct (index_in_range _ k (unit_interval_cases distance N) Dk) as (i0 & F & R).
  destruct (at_index_in_range points i0 ltac:(lia)) as [[[p00 p01] p02] A0].
  destruct (at_index_in_range points (Z.min (i0 + 1) (n - 1)) ltac:(lia))
    as [[[p10 p11] p12] A1].
  exists i0, (p00, p01, p02), (p10, p11, p12).
  unfold getStartPoseFromCurve. cbv zeta. fold n. subst index. rewrite Ek in *.
  rewrite F, A0, A1. eexists. repeat split; try reflexivity; lia.
Qed.

Lemma start_pose_at_one (points : list arr3) (last : arr3) :
  Math_hypot 0 0 0 = 0 ->
  (2 <= List.length points)%nat ->
  (Z.of_nat (List.length points) <= 2 ^ 32)%Z ->
  lastPoint points = Some last ->
  finite3 last = true ->
  let n := Z.of_nat (List.length points) in
  floorZ (Math_min (Math_max 1 0) 1 * ofZ (n - 1)) = Some (n - 1)%Z /\
  Z.min (n - 1 + 1) (n - 1) = (n - 1)%Z /\
  exists pose,
    getStartPoseFromCurve points 1 = Some pose /\
    eqb3 (position pose) last = true /\
    quaternion pose = (nan, nan, nan, nan).
Proof.
  intros H0 H2 H32 L Fin n.
  assert (Hk : exists k, (n - 1)%Z = Zpos k /\ (Zpos (digits2_pos k) <= 53)%Z).
  { destruct (n - 1)%Z as [|k|k] eqn:E; try lia. exists k. split; [reflexivity|].
    apply digits_below_2_53.
    assert (2 ^ 32 < 2 ^ 53)%Z by (apply Z.pow_lt_mono_r; lia). lia. }
  destruct Hk as (k & Ek & Dk).
  change (Math_min (Math_max 1 0) 1) with 1.
  unfold lastPoint in L. fold n in L.
  destruct last as [[a b] c]. cbn [finite3] in Fin.
  apply andb_true_iff in Fin as [Fin Fc]. apply andb_true_iff in Fin as [Fa Fb].
  unfold isFiniteNum in Fa, Fb, Fc.
  unfold getStartPoseFromCurve. cbv zeta. fold n.
  change (Math_min (Math_max 1 0) 1) with 1.
  rewrite Ek in *. rewrite fmul_one_l, (floorZ_ofZ k Dk), (Math_floor_ofZ k Dk).
  split; [reflexivity|]. split; [lia|].
  replace (Z.min (Zpos k + 1) (Zpos k)) with (Zpos k) by lia.
  rewrite L.
  rewrite (fsub_self _ (ofZ_finite k Dk)), (fsub_self a Fa), (fsub_self b Fb), (fsub_self c Fc).
  rewrite H0. change (0 / 0) with nan. change (0 * 0) with 0.
  rewrite lookRotation_nan.
  eexists. split; [reflexivity|]. split; [|reflexivity].
  cbn [position eqb3]. now rewrite !fadd_zero_eqb.
Qed.

Lemma last_distance_is_one (n : Z) :
  (2 <= n <= 2 ^ 32)%Z -> startPoseDistance n (n - 1) = 1.
Proof.
  intros H. unfold startPoseDistance.
  replace (Z.max 1 (n - 1)) with (n - 1)%Z by lia.
  destruct (n - 1)%Z as [|k|k] eqn:E; try lia.
  assert (Dk : (Zpos (digits2_pos k) <= 53)%Z).
  { apply digits_below_2_53.
    assert (2 ^ 32 < 2 ^ 53)%Z by (apply Z.pow_lt_mono_r; lia). lia. }
  destruct (ofZ_pos_spec k Dk) as (m & j & P & _).
  exact (fdiv_self _ _ _ _ P).
Qed.

(** C10: on a curve of at least two points (an array, so below 2^32 of them)
    whose last point has finite coordinates, and on a host whose [Math.hypot]
    of three zeros is zero: for every distance that is a number,
    [getStartPoseFromCurve] returns a pose; the fraction is clamped to [0, 1],
    the segment index is within the curve and the position is the linear
    interpolation of the chosen segment. The precomputation gives the last
    point the distance [1]; there the index is the last one, both ends of the
    segment are the last point, the tangent has length zero, and the pose has
    a quaternion of four [NaN]s while its position still equals the last
    point. *)
Theorem last_start_pose_has_no_orientation (points : list arr3) (last : arr3) :
  Math_hypot 0 0 0 = 0 ->
  (2 <= List.length points)%nat ->
  (Z.of_nat (List.length points) <= 2 ^ 32)%Z ->
  lastPoint points = Some last ->
  finite3 last = true ->
  let n := Z.of_nat (List.length points) in
  (forall distance, is_nan distance = false ->
     let t := Math_min (Math_max distance 0) 1 in
     let index := t * ofZ (n - 1) in
     (0 <=? t) = true /\ (t <=? 1) = true /\
     exists i0 p0 p1 pose,
       floorZ index = Some i0 /\ (0 <= i0 <= n - 1)%Z /\
       at_index points i0 = Some p0 /\
       at_index points (Z.min (i0 + 1) (n - 1)) = Some p1 /\
       getStartPoseFromCurve points distance = Some pose /\
       position pose = interpolate p0 p1 (index - Math_floor index)) /\
  startPoseDistance n (n - 1) = 1 /\
  floorZ (Math_min (Math_max 1 0) 1 * ofZ (n - 1)) = Some (n - 1)%Z /\
  Z.min (n - 1 + 1) (n - 1) = (n - 1)%Z /\
  (let '(a, b, c) := last in Math_hypot (a - a) (b - b) (c - c) = 0) /\
  exists pose,
    getStartPoseFromCurve points 1 = Some pose /\
    eqb3 (position pose) last = true /\
    quaternion pose = (nan, nan, nan, nan).
Proof.
  intros H0 H2 H32 L Fin n.
  split; [|split; [|split; [|split; [|split]]]].
  - intros distance N t index.
    destruct (clamped_in_unit_interval distance N) as [B0 B1].
    split; [exact B0|]. split; [exact B1|].
    exact (start_pose_total points distance H2 H32 N).
  - apply last_distance_is_one. lia.
  - exact (proj1 (start_pose_at_one points last H0 H2 H32 L Fin)).
  - exact (proj1 (proj2 (start_pose_at_one points last H0 H2 H32 L Fin))).
  - destruct last as [[a b] c]. cbn [finite3] in Fin.
    apply andb_true_iff in Fin as [Fin Fc]. apply andb_true_iff in Fin as [Fa Fb].
    now rewrite (fsub_self a Fa), (fsub_self b Fb), (fsub_self c Fc).
  - exact (proj2 (proj2 (start_pose_at_one points last H0 H2 H32 L Fin))).
Qed.

End WithHost.

(** The straight curve of the tests: the third of its three start poses sits
    on the last point, (20, 0, 0), and has no orientation. *)
Lemma last_start_pose_has_no_orientation_witness :
  (@Math_hypot RefHost.refHost 0 0 0 = 0 /\
   (2 <= List.length Samples.straight)%nat /\
   (Z.of_nat (List.length Samples.straight) <= 2 ^ 32)%Z /\
   lastPoint Samples.straight = Some (20, 0, 0) /\
   finite3 (20, 0, 0) = true) /\
  startPoseDistance 3 2 = 1 /\
  exists pose,
    getStartPoseFromCurve (host := RefHost.refHost) Samples.straight 1 = Some pose /\
    eqb3 (position pose) (20, 0, 0) = true /\
    quaternion pose = (nan, nan, nan, nan).
Proof.
  assert (H32 : (Z.of_nat (List.length Samples.straight) <= 2 ^ 32)%Z) by (cbn; lia).
  assert (H2 : (2 <= List.length Samples.straight)%nat) by (cbn; lia).
  pose proof (@last_start_pose_has_no_orientation RefHost.refHost Samples.straight
                (20, 0, 0) eq_refl H2 H32 eq_refl eq_refl) as (_ & D & _ & _ & _ & P).
  split; [repeat split; assumption|]. split; [exact D|exact P].
Defined.

End Curve.

(* ====================================================================== *)
(** * What holds of every room, whatever happens *)
(* ====================================================================== *)

Module Rooms.

Import PhysicsWorker Server ServerFacts Samples.
Local Open Scope string_scope.

Section Invariant.
Variable P : roomT -> Prop.

Lemma allRooms_getRoom st k r : allRooms P st -> getRoom st k = Some r -> P r.
Proof.
  intros A G. apply lookup_In in G. unfold allRooms in A. rewrite Forall_forall in A.
  exact (A _ G).
Qed.

Lemma allRooms_setRoom st r : P r -> allRooms P st -> allRooms P (setRoom st r).
Proof. intros Pr A. apply Forall_insert; auto. Qed.

Lemma allRooms_deleteRoom st k : allRooms P st -> allRooms P (deleteRoom st k).
Proof. intros A. apply Forall_remove; auto. Qed.

Lemma allRooms_same st st' : rooms st' = rooms st -> allRooms P st -> allRooms P st'.
Proof. unfold allRooms; intros ->; auto. Qed.

Lemma allRooms_findOpenRoom st r :
  allRooms P st -> findOpenRoom st = Some r -> P r /\ isOpen r = true.
Proof.
  unfold findOpenRoom. intros A.
  destruct (find (fun e => isOpen (snd e)) (rooms st)) as [e|] eqn:F; [|discriminate].
  intros [= <-]. apply find_some in F as [I O]. split; [|exact O].
  unfold allRooms in A. rewrite Forall_forall in A. exact (A _ I).
Qed.

End Invariant.

(** The steps that leave [state.rooms] alone, delete a room, or branch. *)
Ltac rooms_step :=
  match goal with
  | |- allRooms _ (broadcast _ _ _) => eapply allRooms_same; [apply rooms_broadcast|]
  | |- allRooms _ (broadcastRoomState _ _) => eapply allRooms_same; [apply rooms_broadcast|]
  | |- allRooms _ (send _ _ _) => eapply allRooms_same; [apply rooms_send|]
  | |- allRooms _ (setWorker _ _ _) => eapply allRooms_same; [apply rooms_setWorker|]
  | |- allRooms _ (postToRoomWorker _ _ _) =>
      eapply allRooms_same; [apply rooms_postToRoomWorker|]
  | |- allRooms _ (setClientRoom _ _ _) => eapply allRooms_same; [apply rooms_setClientRoom|]
  | |- allRooms _ (deleteRoom _ _) => apply allRooms_deleteRoom
  | |- allRooms ?P (mkServer (rooms ?s) _ _ _) => change (allRooms P s)
  | |- allRooms _ (match ?x with _ => _ end) => destruct x eqn:?
  | |- allRooms _ (if ?x then _ else _) => destruct x eqn:?
  | |- allRooms _ (fst (match ?x with _ => _ end)) => destruct x eqn:?
  | |- allRooms _ (fst (if ?x then _ else _)) => destruct x eqn:?
  | |- allRooms _ (fst (_, _)) => cbn [fst]
  end.

(** ** The capacity of a room *)

Lemma length_insert_le {A} k (v : A) l :
  (List.length (insert k v l) <= Datatypes.S (List.length l))%nat.
Proof.
  induction l as [|[k' v'] l IH]; simpl; [lia|].
  destruct (String.eqb k k'); simpl; lia.
Qed.

Lemma length_insert_present {A} k (v v0 : A) l :
  lookup k l = Some v0 -> List.length (insert k v l) = List.length l.
Proof.
  induction l as [|[k' v'] l IH]; simpl; [discriminate|].
  destruct (String.eqb k k'); simpl; auto.
Qed.

Lemma length_remove_le {A} k (l : list (string * A)) :
  (List.length (remove k l) <= List.length l)%nat.
Proof.
  induction l as [|[k' v'] l IH]; simpl; [lia|].
  destruct (String.eqb k k'); simpl; lia.
Qed.

Lemma length_assignFrom sorted : forall i roster,
  List.length (assignFrom sorted i roster) = List.length roster.
Proof.
  induction sorted as [|p rest IH]; intros i roster; simpl; auto.
  rewrite IH. destruct (lookup (p_id p) roster) eqn:L; auto.
  eapply length_insert_present; eauto.
Qed.

Ltac cap_room :=
  match goal with
  | A : allRooms withinCapacity ?st, G : getRoom ?st _ = Some ?r |- _ =>
      lazymatch goal with
      | _ : (List.length (r_players r) <= MAX_PLAYERS_PER_ROOM)%nat |- _ => fail
      | _ => let H := fresh "C" in
             pose proof (allRooms_getRoom withinCapacity st _ r A G) as H;
             unfold withinCapacity in H
      end
  end.

Ltac cap_set :=
  match goal with
  | |- allRooms withinCapacity (setRoom _ _) =>
      apply allRooms_setRoom;
      [ repeat cap_room; unfold withinCapacity;
        cbn [r_players withRoster withPhase];
        rewrite ?length_assignFrom;
        try (erewrite length_insert_present by eassumption);
        try (eapply Nat.le_trans; [apply length_remove_le|]);
        try assumption; try lia
      | ]
  end.

Ltac cap := repeat (first [rooms_step | cap_set]); auto.

Lemma cap_startRaceCountdown st k n :
  allRooms withinCapacity st -> allRooms withinCapacity (startRaceCountdown st k n).
Proof.
  intros A. unfold startRaceCountdown.
  destruct (getRoom st k) as [room|] eqn:G; [|exact A].
  assert (A1 : allRooms withinCapacity
                 (broadcast (setRoom st (withPhase room racecountdown (r_pregameTimer room)
                                           (r_raceTimer room) (r_raceStartAt room)))
                    k "racecountdown:tick")) by cap.
  cbv zeta.
  destruct (getRoom (broadcast _ _ _) k) as [room'|] eqn:G'; cap.
Qed.

Lemma cap_assign st k :
  allRooms withinCapacity st -> allRooms withinCapacity (assignStartPositions st k).
Proof. intros A. unfold assignStartPositions. cap. Qed.

Lemma cap_endRace st k :
  allRooms withinCapacity st -> allRooms withinCapacity (endRace st k).
Proof. intros A. unfold endRace. cap. Qed.

Lemma cap_startRace env st k :
  allRooms withinCapacity st -> allRooms withinCapacity (startRace env st k).
Proof. intros A. unfold startRace. cap. Qed.

Lemma cap_getOrCreate env st a b c d st' r :
  allRooms withinCapacity st -> getOrCreateOpenRoom env st a b c d = (st', r) ->
  allRooms withinCapacity st' /\
  (List.length (r_players r) <= 1 \/ List.length (r_players r) < MAX_PLAYERS_PER_ROOM)%nat /\
  (List.length (r_players r) <= MAX_PLAYERS_PER_ROOM)%nat.
Proof.
  unfold getOrCreateOpenRoom. intros A.
  destruct (findOpenRoom st) as [room|] eqn:F.
  - intros [= <- <-]. destruct (allRooms_findOpenRoom _ _ _ A F) as [C O].
    split; [exact A|].
    unfold isOpen in O. apply andb_true_iff in O as [_ O]. apply Nat.ltb_lt in O.
    split; [now right|exact C].
  - intros [= <- <-].
    assert (L : (List.length
                  (if nonEmpty a then [(a, newPlayer a b (now env))] else []) <= 1)%nat)
      by (destruct (nonEmpty a); simpl; lia).
    split; [|split].
    + apply allRooms_setRoom; [|cap].
      unfold withinCapacity, MAX_PLAYERS_PER_ROOM. cbn [r_players]. lia.
    + cbn [r_players]. now left.
    + cbn [r_players]. unfold MAX_PLAYERS_PER_ROOM. lia.
Qed.

Lemma cap_onJoin env st ws pid pl :
  allRooms withinCapacity st -> allRooms withinCapacity (onJoin env st ws pid pl).
Proof.
  intros A. unfold onJoin.
  destruct (getOrCreateOpenRoom env st pid _ _ _) as [st' room] eqn:G.
  destruct (cap_getOrCreate _ _ _ _ _ _ _ _ A G) as (A' & L & C).
  repeat rooms_step; auto.
  apply allRooms_setRoom; [|cap].
  unfold withinCapacity, MAX_PLAYERS_PER_ROOM in *. cbn [r_players withRoster].
  pose proof (length_insert_le pid (newPlayer pid
    match pl with Some p => j_name p | None => None end (now env)) (r_players room)).
  destruct L as [L|L]; lia.
Qed.

Lemma cap_onRemoved st ws pid rid s :
  allRooms withinCapacity st -> onRemoved st ws pid rid = Some s -> allRooms withinCapacity s.
Proof.
  intros A. unfold onRemoved.
  destruct rid as [rid|]; [|discriminate].
  destruct (negb (nonEmpty rid)); [discriminate|].
  destruct (getRoom st rid) eqn:G; [|discriminate].
  destruct (lookup pid (r_players r)); [|discriminate].
  intros [= <-]. cap.
Qed.

Lemma cap_after_room env st pid m rid :
  allRooms withinCapacity st ->
  allRooms withinCapacity (fst (match m with
    | SetReady payload => onSetReady st pid rid payload
    | Input payload => onInput st pid rid payload
    | Config payload => (onConfig st pid rid payload, Completed)
    | Finish => (onFinish env st pid rid, Completed)
    | StartNow => (if ALLOW_FORCE_START env then startPregameCountdown env st rid 3 else st, Completed)
    | _ => (st, Completed)
    end)).
Proof.
  intros A.
  destruct m; cbn [fst]; auto;
    unfold onSetReady, onInput, onConfig, onFinish, startPregameCountdown; cap;
    try (apply cap_endRace; cap).
Qed.

Lemma cap_step env st e :
  allRooms withinCapacity st -> allRooms withinCapacity (fst (step env st e)).
Proof.
  intros A. destruct e; simpl.
  - cap.
  - unfold onMessage. destruct (lookupN ws (clients st)) as [c|]; [|exact A].
    destruct f; [exact A|exact A|].
    match goal with |- allRooms _ (fst (match ?x with _ => _ end)) => destruct x as [s1|] eqn:E1 end;
      [|exact A].
    assert (A1 : allRooms withinCapacity s1).
    { destruct m; try (injection E1 as <-; auto).
      - apply cap_onJoin; auto.
      - eapply cap_onRemoved; eauto. }
    destruct (match lookupN ws (clients s1) with Some c' => s_roomId c' | None => None end);
      [|exact A1].
    destruct (nonEmpty s); [|exact A1].
    apply cap_after_room; auto.
  - unfold onClose, cleanupRoom. cap.
  - unfold onWorkerMessage. cap.
  - unfold onWorkerExit. cap.
  - unfold pregameInterval. cap; apply cap_startRaceCountdown; cap; apply cap_assign; cap.
  - unfold raceInterval. cap; apply cap_startRace; cap.
Qed.

Lemma cap_run es : forall st,
  allRooms withinCapacity st -> allRooms withinCapacity (fst (run st es)).
Proof.
  induction es as [|[env e] es IH]; intros st A; simpl; auto.
  destruct (step env st e) as [st' o] eqn:S.
  destruct (run st' es) as [st'' os] eqn:R. simpl.
  change st'' with (fst (st'', os)). rewrite <- R. apply IH.
  change st' with (fst (st', o)). rewrite <- S. now apply cap_step.
Qed.

(** X1: whatever the clients and the workers do, in whatever order, no room
    ever has more than eight players on its roster. *)
Theorem rosters_stay_within_capacity (es : list (envT * event)) (roomId : string) :
  match rosterSize (fst (run initial es)) roomId with
  | Some n => (n <= 8)%nat
  | None => True
  end.
Proof.
  unfold rosterSize.
  destruct (getRoom (fst (run initial es)) roomId) as [r|] eqn:G; [|exact I].
  exact (allRooms_getRoom withinCapacity _ _ _ (cap_run es initial (Forall_nil _)) G).
Qed.

(** ** Without force start no countdown ever runs *)

Ltac idle_room :=
  match goal with
  | A : allRooms idle ?st, G : getRoom ?st _ = Some ?r |- _ =>
      lazymatch goal with
      | _ : idle r |- _ => fail
      | _ => pose proof (allRooms_getRoom idle st _ r A G)
      end
  end.

Ltac idle_set :=
  match goal with
  | |- allRooms idle (setRoom _ _) =>
      apply allRooms_setRoom;
      [ repeat idle_room; unfold idle in *; cbn [r_phase r_pregameTimer r_raceTimer withRoster withPhase];
        intuition (auto; congruence)
      | ]
  end.

Ltac idl := repeat (first [rooms_step | idle_set]); auto.

Lemma idle_endRace st k : allRooms idle st -> allRooms idle (endRace st k).
Proof. intros A. unfold endRace. idl. Qed.

Lemma idle_getOrCreate env st a b c d st' r :
  allRooms idle st -> getOrCreateOpenRoom env st a b c d = (st', r) ->
  allRooms idle st' /\ idle r.
Proof.
  unfold getOrCreateOpenRoom. intros A.
  destruct (findOpenRoom st) as [room|] eqn:F.
  - intros [= <- <-]. destruct (allRooms_findOpenRoom _ _ _ A F) as [C O]. now split.
  - intros [= <- <-].
    assert (I : idle (mkRoom (uuid env)
                        (if nonEmpty a then [(a, newPlayer a b (now env))] else [])
                        lobby "/stages/stage1" None None None (Some (uuid env)) None None)).
    { unfold idle. cbn. auto. }
    split; [|exact I]. apply allRooms_setRoom; [exact I|idl].
Qed.

Lemma idle_onJoin env st ws pid pl : allRooms idle st -> allRooms idle (onJoin env st ws pid pl).
Proof.
  intros A. unfold onJoin.
  destruct (getOrCreateOpenRoom env st pid _ _ _) as [st' room] eqn:G.
  destruct (idle_getOrCreate _ _ _ _ _ _ _ _ A G) as (A' & I).
  repeat rooms_step; auto.
  apply allRooms_setRoom; [|idl]. exact I.
Qed.

Lemma idle_onRemoved st ws pid rid s :
  allRooms idle st -> onRemoved st ws pid rid = Some s -> allRooms idle s.
Proof.
  intros A. unfold onRemoved.
  destruct rid as [rid|]; [|discriminate].
  destruct (negb (nonEmpty rid)); [discriminate|].
  destruct (getRoom st rid) eqn:G; [|discriminate].
  destruct (lookup pid (r_players r)); [|discriminate].
  intros [= <-]. idl.
Qed.

Lemma idle_after_room env st pid m rid :
  ALLOW_FORCE_START env = false ->
  allRooms idle st ->
  allRooms idle (fst (match m with
    | SetReady payload => onSetReady st pid rid payload
    | Input payload => onInput st pid rid payload
    | Config payload => (onConfig st pid rid payload, Completed)
    | Finish => (onFinish env st pid rid, Completed)
    | StartNow => (if ALLOW_FORCE_START env then startPregameCountdown env st rid 3 else st, Completed)
    | _ => (st, Completed)
    end)).
Proof.
  intros NF A.
  destruct m; cbn [fst]; auto; rewrite ?NF;
    unfold onSetReady, onInput, onConfig, onFinish; idl;
    try (apply idle_endRace; idl).
Qed.

Lemma idle_step env st e :
  ALLOW_FORCE_START env = false -> allRooms idle st -> allRooms idle (fst (step env st e)).
Proof.
  intros NF A. destruct e; simpl.
  - idl.
  - unfold onMessage. destruct (lookupN ws (clients st)) as [c|]; [|exact A].
    destruct f; [exact A|exact A|].
    match goal with |- allRooms _ (fst (match ?x with _ => _ end)) => destruct x as [s1|] eqn:E1 end;
      [|exact A].
    assert (A1 : allRooms idle s1).
    { destruct m; try (injection E1 as <-; auto).
      - apply idle_onJoin; auto.
      - eapply idle_onRemoved; eauto. }
    destruct (match lookupN ws (clients s1) with Some c' => s_roomId c' | None => None end);
      [|exact A1].
    destruct (nonEmpty s); [|exact A1].
    apply idle_after_room; auto.
  - unfold onClose, cleanupRoom. idl.
  - unfold onWorkerMessage. idl.
  - unfold onWorkerExit. idl.
  - unfold pregameInterval.
    destruct (getRoom st roomId) as [room|] eqn:G; [|exact A].
    destruct (allRooms_getRoom idle _ _ _ A G) as (_ & -> & _). exact A.
  - unfold raceInterval.
    destruct (getRoom st roomId) as [room|] eqn:G; [|exact A].
    destruct (allRooms_getRoom idle _ _ _ A G) as (_ & _ & ->). exact A.
Qed.

Lemma idle_run es : forall st,
  Forall (fun ee => ALLOW_FORCE_START (fst ee) = false) es ->
  allRooms idle st -> allRooms idle (fst (run st es)).
Proof.
  induction es as [|[env e] es IH]; intros st NF A; simpl; auto.
  inversion NF as [|? ? NF1 NF2]; subst.
  destruct (step env st e) as [st' o] eqn:S.
  destruct (run st' es) as [st'' os] eqn:R. simpl.
  change st'' with (fst (st'', os)). rewrite <- R. apply IH; auto.
  change st' with (fst (st', o)). rewrite <- S. now apply idle_step.
Qed.

(** X2: while force start is not allowed, no room ever enters pregame, the
    race countdown or the race, and no countdown interval is ever armed:
    whatever the clients and the workers do, every room is in the lobby or
    finished. *)
Theorem no_race_without_force_start (es : list (envT * event)) (roomId : string) (room : roomT) :
  Forall (fun ee => ALLOW_FORCE_START (fst ee) = false) es ->
  getRoom (fst (run initial es)) roomId = Some room ->
  (r_phase room = lobby \/ r_phase room = finished) /\
  r_pregameTimer room = None /\ r_raceTimer room = None.
Proof.
  intros NF G.
  exact (allRooms_getRoom idle _ _ _ (idle_run es initial NF (Forall_nil _)) G).
Qed.

(** One client joins and sets ready: its room is still in the lobby, with
    no countdown. *)
Lemma no_race_without_force_start_witness :
  Forall (fun ee => ALLOW_FORCE_START (fst ee) = false)
    (oneJoined ++ [(env1, Message 1 (Parsed (SetReady (Some true))))]) /\
  exists room,
    getRoom (fst (run initial (oneJoined ++ [(env1, Message 1 (Parsed (SetReady (Some true))))])))
      "room-1" = Some room /\
    (r_phase room = lobby \/ r_phase room = finished) /\
    r_pregameTimer room = None /\ r_raceTimer room = None.
Proof.
  assert (NF : Forall (fun ee => ALLOW_FORCE_START (fst ee) = false)
                 (oneJoined ++ [(env1, Message 1 (Parsed (SetReady (Some true))))]))
    by (repeat constructor).
  split; [exact NF|].
  eexists. split; [reflexivity|].
  exact (no_race_without_force_start _ "room-1" _ NF eq_refl).
Defined.

End Rooms.

(* ====================================================================== *)
(** * Facts about the log throttle *)
(* ====================================================================== *)

Module Throttle.

Import Utils Server FloatFacts Rounding Curve.
Local Open Scope float_scope.

Lemma called_spaced : forall nows t, spaced (th_interval t) (th_lastTime t) (called t nows).
Proof.
  induction nows as [|now rest IH]; intros t; simpl; [exact I|].
  unfold throttled.
  destruct (th_interval t <=? ofZ (now - th_lastTime t)) eqn:E.
  - simpl. split; [exact E|]. exact (IH (mkThrottle (th_interval t) now)).
  - exact (IH t).
Qed.

(** The two throttles are the same code. *)
Lemma logged_called : forall nows t, logged t nows = called t nows.
Proof.
  induction nows as [|now rest IH]; intros t; simpl; [reflexivity|].
  unfold throttledLog, throttled.
  destruct (th_interval t <=? ofZ (now - th_lastTime t)); now rewrite IH.
Qed.

Lemma ofZ_is_finite z : (- 2 ^ 53 < z < 2 ^ 53)%Z -> is_finite (ofZ z) = true.
Proof.
  intros H. destruct z as [|p|p].
  - reflexivity.
  - apply ofZ_finite, digits_below_2_53. lia.
  - unfold ofZ. fold (ofZ (Zpos p)).
    assert (F : is_finite (ofZ (Zpos p)) = true) by (apply ofZ_finite, digits_below_2_53; lia).
    revert F. generalize (ofZ (Zpos p)). intros a.
    unfold is_finite. rewrite !is_nan_spec. unfold is_infinity.
    rewrite !FloatAxioms.eqb_spec, !abs_spec, !opp_spec.
    now destruct (Prim2SF a) as [[|]|[|]| |[|] ? ?].
Qed.

Lemma infinity_not_below a : is_finite a = true -> (infinity <=? a) = false.
Proof.
  intros F. rewrite leb_spec. change (Prim2SF infinity) with (S754_infinity false).
  destruct (is_finite_spec a F) as [[s ->]|(s & m & e & ->)]; reflexivity.
Qed.

Lemma never_called interval : forall nows last,
  (forall z, (- 2 ^ 53 < z < 2 ^ 53)%Z -> (interval <=? ofZ z) = false) ->
  Forall (fun now => 0 <= now < 2 ^ 53)%Z nows ->
  (0 <= last < 2 ^ 53)%Z ->
  called (mkThrottle interval last) nows = [].
Proof.
  induction nows as [|now rest IH]; intros last H A L; simpl; [reflexivity|].
  inversion A as [|? ? A1 A2]; subst.
  unfold throttled. cbn [th_interval th_lastTime].
  rewrite H by lia. now apply IH.
Qed.

(** X3: of the calls of a throttled function, each one that reaches the
    callback comes at least [1000 / timesPerSecond] milliseconds after the one
    before it that did, and the first at least that long after time 0; this
    holds of [createThrottle] and of [createLogThrottle], which is the same
    code. With the rate 2, of calls at 1000, 1200, 1500, 1600 and 2100 the
    first, the third and the fifth get through, and of calls at 1000, 1200 and
    1500 the first and the third, as in the two tests; and with the rate 0 the
    interval is infinite and no call ever gets through. *)
Theorem throttle_spaces_the_calls (timesPerSecond : num) (nows : list Z) :
  spaced (1000 / timesPerSecond) 0 (called (createThrottle timesPerSecond) nows) /\
  spaced (1000 / timesPerSecond) 0 (logged (createLogThrottle timesPerSecond) nows) /\
  called (createThrottle 2) [1000; 1200; 1500; 1600; 2100]%Z = [1000; 1500; 2100]%Z /\
  logged (createLogThrottle 2) [1000; 1200; 1500]%Z = [1000; 1500]%Z /\
  (Forall (fun now => 0 <= now < 2 ^ 53)%Z nows ->
   called (createThrottle 0) nows = [] /\ logged (createLogThrottle 0) nows = []).
Proof.
  split; [exact (called_spaced nows (createThrottle timesPerSecond))|].
  split; [rewrite logged_called; exact (called_spaced nows (createLogThrottle timesPerSecond))|].
  split; [reflexivity|]. split; [reflexivity|].
  intros A.
  assert (E : called (createThrottle 0) nows = []).
  { apply never_called; [|exact A|lia].
    intros z Hz. change (1000 / 0) with infinity.
    apply infinity_not_below. now apply ofZ_is_finite. }
  split; [exact E|]. rewrite logged_called. exact E.
Qed.

End Throttle.

(* ====================================================================== *)
(** * Facts about the handlers of the worker *)
(* ====================================================================== *)

Module Handlers.

Import MathJs PhysicsWorker ServerFacts EngineFacts Samples.
Local Open Scope string_scope.
Local Open Scope float_scope.

Lemma keys_insert_present {A} k (v v0 : A) l :
  lookup k l = Some v0 -> map fst (insert k v l) = map fst l.
Proof.
  induction l as [|[k' v'] l IH]; simpl; [discriminate|].
  destruct (String.eqb_spec k k') as [->|N]; simpl; [reflexivity|].
  intros H. now rewrite IH.
Qed.

(** X4: [handleInput] changes what the message carries and nothing else. For
    a player the worker knows, the throttle is replaced when the message has
    one and the two axes when it has an [inputAxis]; every other field of the
    player, every other player and the order of the map stay as they were, and
    one log line is posted. When [inputAxis] is present but [undefined] the
    handler throws. For an unknown player only the log line is posted. *)
Theorem handleInput_updates_only_what_is_sent (w : workerState) (playerId : string)
  (throttle' : option num) (inputAxis : option (option (num * num))) :
  match lookup playerId (players w) with
  | None =>
      handleInput w playerId throttle' inputAxis = Some (log w)
  | Some st =>
      match inputAxis with
      | Some None => handleInput w playerId throttle' inputAxis = None
      | _ =>
          exists w',
            handleInput w playerId throttle' inputAxis = Some w' /\
            lookup playerId (players w')
            = Some (mkPlayerState (pos st) (rot st) (velocity st) (angularVelocity st)
                      (match throttle' with Some t => t | None => throttle st end)
                      (match inputAxis with Some (Some (ax, _)) => ax | _ => inputX st end)
                      (match inputAxis with Some (Some (_, ay)) => ay | _ => inputY st end)
                      (accel st) (pitchVel st) (rollVel st) (damping st) (playerSpeed st)) /\
            (forall other, other <> playerId ->
               lookup other (players w') = lookup other (players w)) /\
            map fst (players w') = map fst (players w) /\
            outbox w' = (outbox w ++ [ELog])%list
      end
  end.
Proof.
  unfold handleInput. cbn [log post withPlayers players].
  destruct (lookup playerId (players w)) as [st|] eqn:L; [|reflexivity].
  destruct inputAxis as [[[ax ay]|]|]; [|reflexivity|];
    (eexists; split; [reflexivity|]; cbn [players withPlayers outbox];
     split; [apply lookup_insert|];
     split; [intros other N; now apply lookup_insert_ne|];
     split; [eapply keys_insert_present; eassumption|reflexivity]).
Qed.

(** X5: [handleConfig] replaces those of the player's speed, acceleration,
    pitch rate and roll rate that the message carries, and nothing else: the
    damping, the inputs, the motion, every other player and the order of the
    map stay as they were and nothing is posted; for an unknown player the
    worker is unchanged. *)
Theorem handleConfig_updates_only_what_is_sent (w : workerState) (playerId : string)
  (playerSpeed' acceleration pitchVelocity rollVelocity : option num) :
  let w' := handleConfig w playerId playerSpeed' acceleration pitchVelocity rollVelocity in
  match lookup playerId (players w) with
  | None => w' = w
  | Some st =>
      lookup playerId (players w')
      = Some (mkPlayerState (pos st) (rot st) (velocity st) (angularVelocity st)
                (throttle st) (inputX st) (inputY st)
                (match acceleration with Some a => a | None => accel st end)
                (match pitchVelocity with Some a => a | None => pitchVel st end)
                (match rollVelocity with Some a => a | None => rollVel st end)
                (damping st)
                (match playerSpeed' with Some a => a | None => playerSpeed st end)) /\
      (forall other, other <> playerId ->
         lookup other (players w') = lookup other (players w)) /\
      map fst (players w') = map fst (players w) /\
      outbox w' = outbox w
  end.
Proof.
  unfold handleConfig.
  destruct (lookup playerId (players w)) as [st|] eqn:L; [|reflexivity].
  cbn [players withPlayers outbox].
  split; [apply lookup_insert|].
  split; [intros other N; now apply lookup_insert_ne|].
  split; [eapply keys_insert_present; eassumption|reflexivity].
Qed.

Section WithHost.
Context {host : HostMath}.

(** One [addPlayer] on a worker that has its start poses. *)
Lemma addPlayer_with_poses (w : workerState) (data : addPlayerData) cp p0 ps :
  nonEmpty (ap_playerId data) = true ->
  curvePoints w = Some cp ->
  startPositions w = Some (p0 :: ps) ->
  let pose := nth (nextStartIndex w mod List.length (p0 :: ps)) (p0 :: ps) p0 in
  exists w',
    addPlayer w data = Some w' /\
    curvePoints w' = Some cp /\ startPositions w' = Some (p0 :: ps) /\
    nextStartIndex w' = Datatypes.S (nextStartIndex w) /\
    players w'
    = insert (ap_playerId data)
        (mkPlayerState
           (ofArr (match ap_position data with Some p => p | None => Utils.position pose end))
           (quatOfArr (Utils.quaternion pose))
           (mkV3 0 0 0) (mkV3 0 0 0) 0 0 0
           (match ap_acceleration data with Some a => a | None => 20 end)
           (match ap_pitchVelocity data with Some a => a | None => 3 end)
           (match ap_rollVelocity data with Some a => a | None => 6 end)
           (match ap_damping data with Some a => a | None => 0.998 end)
           (match ap_playerSpeed data with Some a => a | None => 50 end))
        (players w).
Proof.
  intros NE C SP pose. unfold addPlayer. rewrite NE, C, SP. cbn [negb].
  eexists. split; [reflexivity|]. cbn. repeat split; reflexivity.
Qed.

(** X6: on a worker that holds start poses, players added one after the
    other get the poses in turn, starting again from the first when the poses
    run out: the player of the [k]-th message gets the orientation of the pose
    number [(nextStartIndex + k) mod n], and its position unless the message
    carries one; [nextStartIndex] advances by one per player, and the players
    that were not named keep their state. *)
Theorem start_poses_are_assigned_round_robin cp p0 ps :
  forall (ds : list addPlayerData) (w : workerState),
  curvePoints w = Some cp ->
  startPositions w = Some (p0 :: ps) ->
  Forall (fun d => nonEmpty (ap_playerId d) = true) ds ->
  NoDup (map ap_playerId ds) ->
  exists w',
    run w (addAll ds) = Some w' /\
    nextStartIndex w' = (nextStartIndex w + List.length ds)%nat /\
    (forall id, ~ In id (map ap_playerId ds) -> lookup id (players w') = lookup id (players w)) /\
    forall k d, nth_error ds k = Some d ->
      let pose := nth ((nextStartIndex w + k) mod List.length (p0 :: ps)) (p0 :: ps) p0 in
      exists st,
        lookup (ap_playerId d) (players w') = Some st /\
        rot st = quatOfArr (Utils.quaternion pose) /\
        pos st = ofArr (match ap_position d with
                        | Some p => p
                        | None => Utils.position pose
                        end).
Proof.
  induction ds as [|d ds IH]; intros w C SP NE ND.
  - exists w. split; [reflexivity|]. split; [simpl; lia|]. split; [reflexivity|].
    intros [|k] d H; discriminate.
  - inversion NE as [|? ? NE1 NE2]; subst. inversion ND as [|? ? NI ND']; subst.
    destruct (addPlayer_with_poses w d cp p0 ps NE1 C SP) as (w1 & E1 & C1 & SP1 & I1 & P1).
    destruct (IH w1 C1 SP1 NE2 ND') as (w' & R & I' & O' & K').
    exists w'. split; [cbn [addAll map run occur onMessage]; rewrite E1; exact R|].
    split; [rewrite I', I1; simpl; lia|]. split.
    + intros id NI'. simpl in NI'. rewrite O' by tauto. rewrite P1.
      apply lookup_insert_ne. intros ->. tauto.
    + intros [|k] d' H; simpl in H.
      * injection H as <-. rewrite (O' _ NI), P1, lookup_insert.
        eexists. split; [reflexivity|]. cbn [rot pos]. now rewrite Nat.add_0_r.
      * destruct (K' k d' H) as (st & L & Q & Q'). exists st. split; [exact L|].
        rewrite Q, Q', I1.
        now replace (nextStartIndex w + Datatypes.S k)%nat
          with (Datatypes.S (nextStartIndex w) + k)%nat by lia.
Qed.

(** X7: the [addPlayer] message the server builds for a player who joins
    (in [getOrCreateOpenRoom], in answer to [ready] and in the [join]
    handler) carries the position
    [[0, 0, 0]] and the tuning values 1, 1, 1, 0.998, 1; so whatever start
    poses the worker holds, the craft it creates for that message is at the
    origin, at rest, with these tuning values. *)
Theorem server_players_start_at_the_origin (w w' : workerState) (playerId : string)
  (fbmParams' : option Fbm.fbmParamsT) (curvePoints' : option (list Fbm.arr3)) :
  nonEmpty playerId = true ->
  onMessage w (Server.addPlayerMessage playerId fbmParams' curvePoints') = Some w' ->
  exists st,
    lookup playerId (players w') = Some st /\
    pos st = mkV3 0 0 0 /\
    velocity st = mkV3 0 0 0 /\ angularVelocity st = mkV3 0 0 0 /\
    throttle st = 0 /\ inputX st = 0 /\ inputY st = 0 /\
    accel st = 1 /\ pitchVel st = 1 /\ rollVel st = 1 /\
    damping st = 0.998 /\ playerSpeed st = 1.
Proof.
  intros NE. unfold Server.addPlayerMessage. cbn [onMessage]. unfold addPlayer.
  cbn [ap_playerId ap_position ap_acceleration ap_pitchVelocity ap_rollVelocity ap_damping
       ap_playerSpeed ap_fbmParams ap_curvePoints nullish].
  rewrite NE. cbn [negb].
  destruct (curvePoints w) as [cp0|].
  - destruct (startPositions w) as [[|p0 ps]|];
      (intros [= <-]; cbn [players];
       rewrite lookup_insert; eexists; split; [reflexivity|]; cbn; repeat split).
  - destruct (Utils.precomputeStartPositions _) as [sp|]; [|discriminate].
    destruct sp as [|p0 ps];
      (intros [= <-]; cbn [players];
       rewrite lookup_insert; eexists; split; [reflexivity|]; cbn; repeat split).
Qed.

Lemma lookup_ownProperties {A} id (writes : list (string * A)) :
  lookup id (ownProperties writes)
  = if String.eqb id "__proto__" then None else lookup id writes.
Proof.
  unfold ownProperties. induction writes as [|[k v] l IH]; simpl.
  - now destruct (String.eqb id "__proto__").
  - destruct (String.eqb_spec k "__proto__") as [->|N]; simpl.
    + rewrite IH. now destruct (String.eqb id "__proto__").
    + rewrite IH. destruct (String.eqb_spec id k) as [->|D]; [|reflexivity].
      apply String.eqb_neq in N. now rewrite N.
Qed.

Lemma lookup_snapshots {A B} (f : A -> B) id (l : list (string * A)) :
  lookup id (map (fun e => (fst e, f (snd e))) l)
  = match lookup id l with Some a => Some (f a) | None => None end.
Proof.
  induction l as [|[k v] l IH]; simpl; [reflexivity|].
  now destruct (String.eqb id k).
Qed.

Lemma lookup_none_of_keys {A B} id (l : list (string * A)) (l' : list (string * B)) :
  map fst l' = map fst l -> lookup id l = None -> lookup id l' = None.
Proof.
  revert l'. induction l as [|[k v] l IH]; intros [|[k' v'] l'] E; simpl in *;
    try discriminate; auto.
  injection E as -> E. destruct (String.eqb id k); [discriminate|]. now apply IH.
Qed.

(** X8: [updatePhysics] posts exactly one [stateUpdate], an object keyed by
    player id. Read by key, the object has under every id of the map, other
    than [__proto__], the pose and the velocities that player has after the
    step, which is one run of [updatePlayerPhysics] from the state the player
    had; it has no entry for an id that is not in the map, and none for
    [__proto__]. The ids of the map and their order, the two intervals,
    [running] and the start poses are unchanged. *)
Theorem updatePhysics_posts_one_snapshot (w : workerState) :
  exists state,
    outbox (updatePhysics w) = (outbox w ++ [EStateUpdate state])%list /\
    (forall id,
       lookup id state
       = if String.eqb id "__proto__" then None
         else match lookup id (players (updatePhysics w)) with
              | Some st' => Some (snapshotOf st')
              | None => None
              end) /\
    (forall id st, lookup id (players w) = Some st ->
       exists closest,
         lookup id (players (updatePhysics w))
         = Some (fst (updatePlayerPhysics w st closest))) /\
    (forall id, lookup id (players w) = None ->
       lookup id (players (updatePhysics w)) = None /\ lookup id state = None) /\
    map fst (players (updatePhysics w)) = map fst (players w) /\
    interval (updatePhysics w) = interval w /\
    running (updatePhysics w) = running w /\
    physicsInterval (updatePhysics w) = physicsInterval w /\
    nextStartIndex (updatePhysics w) = nextStartIndex w /\
    startPositions (updatePhysics w) = startPositions w.
Proof.
  unfold updatePhysics.
  pose proof (stepPlayers_keeps w (players w) (closestCorner w)) as K.
  pose proof (stepPlayers_lookup w (players w) (closestCorner w)) as S.
  destruct (stepPlayers w (players w) (closestCorner w)) as [ps closest].
  cbn [fst] in K, S. cbn [withPlayers outbox players interval running physicsInterval
                           nextStartIndex startPositions].
  eexists. split; [reflexivity|].
  assert (R : forall id,
            lookup id (ownProperties (map (fun e => (fst e, snapshotOf (snd e))) ps))
            = if String.eqb id "__proto__" then None
              else match lookup id ps with
                   | Some st' => Some (snapshotOf st')
                   | None => None
                   end).
  { intros id. now rewrite lookup_ownProperties, lookup_snapshots. }
  split; [exact R|]. split; [exact S|]. split.
  - intros id N. pose proof (lookup_none_of_keys id _ ps K N) as N'.
    split; [exact N'|]. rewrite R, N'. now destruct (String.eqb id "__proto__").
  - repeat split; auto.
Qed.

(** Without terrain the resolver reports the distance 1000. *)
Lemma no_terrain_no_contact (w : workerState) (st : playerState) (closest : Vector3) :
  fbmParams w = None \/ (planetRadius w =? 0) = true ->
  collisionTest w st closest = (mkObb 1000 (mkV3 0 1 0), closest).
Proof.
  intros H. unfold collisionTest, obbSignedDistanceWithNormal.
  destruct (fbmParams w); [|reflexivity].
  destruct H as [H|H]; [discriminate|]. now rewrite H.
Qed.

(** X9: while the worker has no terrain parameters, or a planet radius of 0,
    the resolver reports the distance 1000 and a step is the integration
    alone: the position advances by the new velocity times the fixed step and
    no contact response is applied. *)
Theorem step_without_terrain_is_integration (w : workerState) (st : playerState)
  (closest : Vector3) :
  fbmParams w = None \/ (planetRadius w =? 0) = true ->
  updatePlayerPhysics w st closest
  = (mkPlayerState (m_pos (motion st)) (m_rot (motion st)) (m_velocity (motion st))
       (m_angularVelocity (motion st)) (throttle st) (inputX st) (inputY st)
       (accel st) (pitchVel st) (rollVel st) (damping st) (playerSpeed st),
     closest) /\
  m_pos (motion st) = add (pos st) (multiplyScalar (m_velocity (motion st)) FIXED_STEP).
Proof.
  intros H. split; [|reflexivity].
  unfold updatePlayerPhysics. rewrite (no_terrain_no_contact w st closest H).
  cbn [distance]. change (1000 <? playerRadius) with false. reflexivity.
Qed.

Lemma occur_keeps_timer w o w' :
  interval w = running w -> occur w o = Some w' -> interval w' = running w'.
Proof.
  intros I O. destruct o as [c| |]; simpl in O.
  - destruct c; simpl in O.
    + unfold init in O.
      destruct (in_curvePoints data) as [cp|].
      * destruct (Utils.precomputeStartPositions cp); [|discriminate].
        injection O as <-. exact I.
      * injection O as <-. exact I.
    + injection O as <-. unfold start. destruct (running w) eqn:R; [congruence|reflexivity].
    + injection O as <-. reflexivity.
    + unfold addPlayer in O.
      destruct (negb (nonEmpty (ap_playerId data))); [injection O as <-; exact I|].
      destruct (curvePoints w) as [cp0|].
      * destruct (startPositions w) as [[|p0 ps]|]; injection O as <-; exact I.
      * destruct (ap_curvePoints data) as [cp|].
        -- destruct (Utils.precomputeStartPositions cp) as [sp|]; [|discriminate].
           destruct sp; injection O as <-; exact I.
        -- destruct (startPositions w) as [[|p0 ps]|]; injection O as <-; exact I.
    + injection O as <-. unfold removePlayer.
      destruct (negb (nonEmpty playerId)); exact I.
    + injection O as <-. unfold handleConfig.
      destruct (lookup playerId (players w)); exact I.
    + unfold handleInput in O. simpl in O.
      destruct (lookup playerId (players w)) as [st|].
      * destruct inputAxis as [[[ax ay]|]|]; [|discriminate|]; injection O as <-; exact I.
      * injection O as <-. exact I.
    + injection O as <-. exact I.
  - destruct (interval w) eqn:T; injection O as <-; [cbn; congruence|congruence].
  - destruct (physicsInterval w); injection O as <-; [|exact I].
    unfold updatePhysics.
    destruct (stepPlayers w (players w) (closestCorner w)) as [ps closest]. exact I.
Qed.

(** X10: in every state the worker reaches from its load, whatever it
    receives, the tick interval is armed exactly when [running] is set: an
    elapse of it posts a tick if and only if the worker is running; and a
    second [start] changes nothing. *)
Theorem ticks_follow_running (os : list occurrence) :
  match run loaded os with
  | Some w =>
      interval w = running w /\
      occur w TickInterval = Some (if running w then post w ETick else w) /\
      start (start w) = start w
  | None => True
  end.
Proof.
  assert (K : forall os w w', interval w = running w -> run w os = Some w' ->
                               interval w' = running w').
  { clear os. induction os as [|o os IH]; intros w w' I R; simpl in R.
    - now injection R as <-.
    - destruct (occur w o) as [w1|] eqn:O; [|discriminate].
      exact (IH w1 w' (occur_keeps_timer w o w1 I O) R). }
  destruct (run loaded os) as [w|] eqn:R; [|exact I].
  pose proof (K os loaded w eq_refl R) as E.
  split; [exact E|]. split.
  - cbn [occur]. now rewrite E.
  - unfold start. destruct (running w) eqn:Q; [now rewrite Q|reflexivity].
Qed.

(** X11: the contact normal the resolver reports does not depend on the
    craft. The six samples of the finite difference are taken through the
    scratch vector that is also the argument of its own [add], so they do not
    involve the closest corner: two calls on the same worker, for any two
    boxes, report the same normal, unless that gradient is degenerate and both
    fall back to the radial direction of their own closest corner. *)
Theorem normal_ignores_the_craft (w : workerState)
  (center1 center2 halfExtents1 halfExtents2 : Vector3)
  (orientation1 orientation2 : Quaternion) (closest1 closest2 : Vector3) :
  let r1 := obbSignedDistanceWithNormal w center1 halfExtents1 orientation1 closest1 in
  let r2 := obbSignedDistanceWithNormal w center2 halfExtents2 orientation2 closest2 in
  normal (fst r1) = normal (fst r2) \/
  (normal (fst r1) = calculatePlanetNormal (snd r1) /\
   normal (fst r2) = calculatePlanetNormal (snd r2)).
Proof.
  unfold obbSignedDistanceWithNormal.
  destruct (fbmParams w) as [fp|]; [|now left].
  destruct (planetRadius w =? 0); [now left|].
  destruct (fold_left (cornerRound w center1 orientation1) (seq 0 8)
              (halfExtents1, infinity, closest1)) as [[h1 d1] c1].
  destruct (fold_left (cornerRound w center2 orientation2) (seq 0 8)
              (halfExtents2, infinity, closest2)) as [[h2 d2] c2].
  cbv zeta.
  match goal with |- context [if ?c then _ else _] => destruct c end; cbn [fst snd normal].
  - right. split; reflexivity.
  - left. reflexivity.
Qed.

End WithHost.

(** Three players on a worker with two poses: the third gets the first pose
    again. *)
Lemma start_poses_are_assigned_round_robin_witness :
  (curvePoints posedWorker = Some [(1, 0, 0); (2, 0, 0)] /\
   startPositions posedWorker = Some twoPoses /\
   Forall (fun d => nonEmpty (ap_playerId d) = true) threeNewcomers /\
   NoDup (map ap_playerId threeNewcomers)) /\
  exists w' st,
    run (host := RefHost.refHost) posedWorker (addAll threeNewcomers) = Some w' /\
    nextStartIndex w' = 3%nat /\
    lookup "cy" (players w') = Some st /\
    rot st = mkQuat 0 0 0 1 /\ pos st = mkV3 1 0 0.
Proof.
  assert (NE : Forall (fun d => nonEmpty (ap_playerId d) = true) threeNewcomers)
    by (repeat constructor).
  assert (ND : NoDup (map ap_playerId threeNewcomers)).
  { repeat constructor; simpl; intuition discriminate. }
  split; [repeat split; assumption|].
  destruct (@start_poses_are_assigned_round_robin RefHost.refHost _ _ _ threeNewcomers
              posedWorker eq_refl eq_refl NE ND) as (w' & R & I' & _ & K).
  destruct (K 2%nat (newcomer "cy") eq_refl) as (st & L & Q & Q').
  exists w', st. repeat split; assumption.
Defined.

(** The first player of a room, on the worker as it is loaded. *)
Lemma server_players_start_at_the_origin_witness :
  nonEmpty "alice" = true /\
  exists w' st,
    onMessage (host := RefHost.refHost) loaded (Server.addPlayerMessage "alice" None None)
    = Some w' /\
    lookup "alice" (players w') = Some st /\ pos st = mkV3 0 0 0 /\ playerSpeed st = 1.
Proof.
  split; [reflexivity|].
  eexists.
  destruct (@server_players_start_at_the_origin RefHost.refHost loaded _ "alice" None None
              eq_refl eq_refl) as (st & L & P & _ & _ & _ & _ & _ & _ & _ & _ & _ & S).
  exists st. repeat split; assumption.
Defined.

(** A craft cruising on a worker that was only loaded. *)
Lemma step_without_terrain_is_integration_witness :
  (fbmParams loaded = None \/ (planetRadius loaded =? 0) = true) /\
  pos (fst (updatePlayerPhysics (host := RefHost.refHost) loaded cruising (mkV3 0 0 0)))
  = add (pos cruising)
      (multiplyScalar (m_velocity (motion (host := RefHost.refHost) cruising)) FIXED_STEP).
Proof.
  split; [now left|].
  destruct (@step_without_terrain_is_integration RefHost.refHost loaded cruising (mkV3 0 0 0)
              (or_introl eq_refl)) as [E P].
  rewrite E. exact P.
Defined.

End Handlers.

(* ====================================================================== *)
(** * More facts about the noise sums *)
(* ====================================================================== *)

Module Noise.

Import Fbm FloatFacts Terrain.
Local Open Scope float_scope.

Lemma abs_opp n : abs (- n) = abs n.
Proof.
  apply Prim2SF_inj. rewrite !abs_spec, opp_spec.
  now destruct (Prim2SF n) as [s|s| |s m e].
Qed.

(** X12: [ridge] is even, whatever its argument, and it is 1 at 0 and 0 at
    1 and at -1. *)
Theorem ridge_is_even (n : num) :
  ridge (- n) = ridge n /\ ridge 0 = 1 /\ ridge (-0) = 1 /\ ridge 1 = 0 /\ ridge (-1) = 0.
Proof.
  unfold ridge, Math_abs. rewrite abs_opp. repeat split; reflexivity.
Qed.

(** X13: [ridgedFBM] returns the sum over the octaves [0 <= i < octaves] of
    [ridge(noiseFn(p * f_i)) * amp_i], with the frequencies and amplitudes of
    [fbmStandard]; it calls the noise function exactly on the points
    [p * f_i], in order, the same points as [fbmStandard]; and with a noise
    of 0.2, two octaves, [freq = 1], [lacunarity = 2], [persistence = 0.5] on
    the point (1, 1, 1) the result is [ridge(0.2) * 0.5 + ridge(0.2) * 0.25],
    within 0.005 of [0.64 * 0.75], as in the test. *)
Theorem ridgedFBM_sums_the_ridged_octaves {S} (noiseFn : noiseFnT S) (p : arr3)
  (freq lacunarity persistence : num) (octaves : Z) (s : S) :
  ridgedFBM p freq lacunarity persistence octaves noiseFn s
  = octaveSum ridge noiseFn p freq lacunarity persistence (Z.to_nat octaves) s /\
  snd (snd (ridgedFBM p freq lacunarity persistence octaves (traced noiseFn) (s, [])))
  = octavePoints p freq lacunarity (Z.to_nat octaves) /\
  snd (snd (ridgedFBM p freq lacunarity persistence octaves (traced noiseFn) (s, [])))
  = snd (snd (fbmStandard p freq lacunarity persistence octaves (traced noiseFn) (s, []))) /\
  fst (ridgedFBM (1, 1, 1) 1 2 0.5 2 (pureNoise (fun _ => 0.2)) tt)
  = 0 + ridge 0.2 * 0.5 + ridge 0.2 * (0.5 * 0.5) /\
  (abs (fst (ridgedFBM (1, 1, 1) 1 2 0.5 2 (pureNoise (fun _ => 0.2)) tt) - 0.64 * 0.75)
   <? 0.005) = true.
Proof.
  assert (T : forall shape,
    octaveSum shape (traced noiseFn) p freq lacunarity persistence (Z.to_nat octaves) (s, [])
    = (fst (octaveSum shape noiseFn p freq lacunarity persistence (Z.to_nat octaves) s),
       (snd (octaveSum shape noiseFn p freq lacunarity persistence (Z.to_nat octaves) s),
        octavePoints p freq lacunarity (Z.to_nat octaves)))).
  { intros shape. unfold octaveSum, octavePoints.
    exact (traced_fold noiseFn p freq lacunarity shape persistence
             (Z.to_nat octaves) 0 0 s []). }
  split; [apply ridgedFBM_octaveSum|].
  rewrite ridgedFBM_octaveSum, fbmStandard_octaveSum, !T. cbn [fst snd].
  repeat split; reflexivity.
Qed.

(** X14: with an octave count of zero or less, [fbmStandard] and
    [ridgedFBM] return 0 without calling the noise function. *)
Theorem no_octaves_no_samples {S} (noiseFn : noiseFnT S) (p : arr3)
  (freq lacunarity persistence : num) (octaves : Z) (s : S) :
  (octaves <= 0)%Z ->
  fbmStandard p freq lacunarity persistence octaves noiseFn s = (0, s) /\
  ridgedFBM p freq lacunarity persistence octaves noiseFn s = (0, s) /\
  snd (snd (fbmStandard p freq lacunarity persistence octaves (traced noiseFn) (s, []))) = [] /\
  snd (snd (ridgedFBM p freq lacunarity persistence octaves (traced noiseFn) (s, []))) = [].
Proof.
  intros H. unfold fbmStandard, ridgedFBM.
  replace (Z.to_nat octaves) with O by lia. repeat split; reflexivity.
Qed.

(** No octaves, with a stub that records its calls. *)
Lemma no_octaves_no_samples_witness :
  (0 <= 0)%Z /\
  fbmStandard (1, 2, 3) 2 3 0.5 0 (recordingNoise 1) [] = (0, []) /\
  ridgedFBM (1, 2, 3) 2 3 0.5 0 (recordingNoise 1) [] = (0, []).
Proof.
  split; [lia|].
  destruct (no_octaves_no_samples (recordingNoise 1) (1, 2, 3) 2 3 0.5 0 []
              ltac:(lia)) as (A & B & _).
  split; assumption.
Defined.

Lemma octaveSum_traced {S} (noiseFn : noiseFnT S) shape p freq lacunarity persistence n s calls :
  octaveSum shape (traced noiseFn) p freq lacunarity persistence n (s, calls)
  = (fst (octaveSum shape noiseFn p freq lacunarity persistence n s),
     (snd (octaveSum shape noiseFn p freq lacunarity persistence n s),
      calls ++ octavePoints p freq lacunarity n)).
Proof.
  unfold octaveSum, octavePoints.
  exact (traced_fold noiseFn p freq lacunarity shape persistence n 0 0 s calls).
Qed.

Lemma traced_call {S} (noiseFn : noiseFnT S) p s calls :
  traced noiseFn p (s, calls) = (fst (noiseFn p s), (snd (noiseFn p s), calls ++ [p])).
Proof. unfold traced. cbn [fst snd]. now destruct (noiseFn p s). Qed.

Section WithHost.
Context {host : HostMath}.

(** X15: what [terrainElevationRidged] asks of the noise function: first the
    points of the base octaves, then the three samples of the warp (the
    position scaled by 0.5, then with +100 on the first axis, then with +200
    on the second), then the points of the detail octaves, taken from the
    warped position at the frequency [* 2.5]. That is
    [octaves + 3 + max(3, floor(octaves / 2))] calls, of which the detail has
    at least three; recording the calls changes neither the result nor the
    state of the noise function. *)
Theorem terrainElevationRidged_samples {S} (noiseFn : noiseFnT S) (pos : arr3)
  (params : fbmParamsT) (s : S) :
  let n0 := Z.to_nat (uOctaves params) in
  let n1 := Z.to_nat (Z.max 3 (uOctaves params / 2)) in
  let base := octaveSum ridge noiseFn pos (uFrequency params) (uLacunarity params)
                (uPersistence params) n0 s in
  let warp := fst (warpVector noiseFn pos (snd base)) in
  let r := terrainElevationRidged pos params (traced noiseFn) (s, []) in
  fst r = fst (terrainElevationRidged pos params noiseFn s) /\
  fst (snd r) = snd (terrainElevationRidged pos params noiseFn s) /\
  snd (snd r)
  = octavePoints pos (uFrequency params) (uLacunarity params) n0
    ++ (let '(h0, h1, h2) := scaled pos 0.5 in
        [(h0, h1, h2); (h0 + 100, h1, h2); (h0, h1 + 200, h2)])
    ++ octavePoints (offsetBy pos warp 0.3) (uFrequency params * 2.5) (uLacunarity params) n1 /\
  List.length (snd (snd r)) = (n0 + 3 + n1)%nat /\
  (3 <= n1)%nat.
Proof.
  intros n0 n1 base warp r. subst r warp base n0 n1.
  unfold terrainElevationRidged, warpVector, offsetBy, scaled.
  destruct pos as [[pos0 pos1] pos2]. cbv delta [num arr3] in *.
  rewrite !ridgedFBM_octaveSum, octaveSum_traced.
  destruct (octaveSum ridge noiseFn (pos0, pos1, pos2) _ _ _ _ s) as [base s1].
  cbv beta iota zeta. cbn [fst snd].
  rewrite traced_call.
  destruct (noiseFn (pos0 * 0.5, pos1 * 0.5, pos2 * 0.5) s1) as [w0 s2].
  cbv beta iota zeta. cbn [fst snd].
  rewrite traced_call.
  destruct (noiseFn (pos0 * 0.5 + 100, pos1 * 0.5, pos2 * 0.5) s2) as [w1 s3].
  cbv beta iota zeta. cbn [fst snd].
  rewrite traced_call.
  destruct (noiseFn (pos0 * 0.5, pos1 * 0.5 + 200, pos2 * 0.5) s3) as [w2 s4].
  cbv beta iota zeta. cbn [fst snd].
  rewrite !ridgedFBM_octaveSum, octaveSum_traced.
  destruct (octaveSum ridge noiseFn _ _ _ _ _ s4) as [detail s5].
  cbv beta iota zeta. cbn [fst snd]. split; [reflexivity|]. split; [reflexivity|]. split.
  - rewrite <- !app_assoc. reflexivity.
  - split; [|lia]. unfold octavePoints. rewrite !length_app, !length_map, !length_seq.
    simpl. lia.
Qed.

End WithHost.

End Noise.

(* ====================================================================== *)
(** * The edges of the start poses *)
(* ====================================================================== *)

Module CurveEdges.

Import Fbm Utils FloatFacts Rounding Curve.
Local Open Scope float_scope.

Lemma ltb_not_leb a b : (a <? b) = true -> (b <=? a) = false.
Proof.
  rewrite ltb_spec, leb_spec. unfold SFltb, SFleb.
  rewrite (SFcompare_antisym (Prim2SF a) (Prim2SF b)).
  destruct (SFcompare (Prim2SF a) (Prim2SF b)) as [[| |]|]; try discriminate. reflexivity.
Qed.

Lemma leb_not_ltb a b : (a <=? b) = true -> (b <? a) = false.
Proof.
  intros H. destruct (b <? a) eqn:L; [|reflexivity].
  apply ltb_not_leb in L. congruence.
Qed.

(** Below or at zero the fraction is clamped to [+0]. *)
Lemma clamp_low d : (d <=? 0) = true -> Math_min (Math_max d 0) 1 = 0.
Proof.
  intros H. destruct (leb_not_nan _ _ H) as [N _].
  destruct (max_zero_cases d N) as [->|[_ G]]; [reflexivity|].
  apply ltb_not_leb in G. congruence.
Qed.

(** At or above one it is clamped to [1]. *)
Lemma clamp_high d : (1 <=? d) = true -> Math_min (Math_max d 0) 1 = 1.
Proof.
  intros H. destruct (leb_not_nan _ _ H) as [_ N].
  assert (G0 : (0 <? d) = true).
  { rewrite leb_spec in H. rewrite ltb_spec.
    rewrite Prim2SF_one in H. rewrite Prim2SF_zero.
    unfold SFleb, SFltb, SFcompare in *.
    destruct (Prim2SF d) as [s|s| |s m e]; try destruct s; try discriminate; reflexivity. }
  destruct (max_zero_cases d N) as [E|[-> _]].
  - exfalso. unfold Math_max in E. rewrite N, G0 in E. change (is_nan 0) with false in E.
    cbn [orb] in E. rewrite (leb_not_ltb 0 d (ltb_leb _ _ G0)) in E.
    subst d. discriminate G0.
  - destruct (min_one_cases d N G0) as [->|[_ L]]; [reflexivity|].
    apply ltb_not_leb in L. congruence.
Qed.

(** ** [NaN] absorbs *)

Ltac nan_absorbs :=
  intros; apply Prim2SF_inj;
  rewrite ?mul_spec, ?add_spec, ?sub_spec, ?div_spec;
  change (Prim2SF nan) with S754_nan;
  match goal with |- context [Prim2SF ?a] => destruct (Prim2SF a) as [[|]|[|]| |[|] ? ?] end;
  reflexivity.

Lemma fadd_nan_l a : nan + a = nan. Proof. nan_absorbs. Qed.
Lemma fadd_nan_r a : a + nan = nan. Proof. nan_absorbs. Qed.
Lemma fsub_nan_l a : nan - a = nan. Proof. nan_absorbs. Qed.
Lemma fsub_nan_r a : a - nan = nan. Proof. nan_absorbs. Qed.
Lemma fmul_nan_l a : nan * a = nan. Proof. nan_absorbs. Qed.
Lemma fmul_nan_r a : a * nan = nan. Proof. nan_absorbs. Qed.
Lemma fdiv_nan_r a : a / nan = nan. Proof. nan_absorbs. Qed.

Lemma ltb_nan_l a : (nan <? a) = false.
Proof. rewrite ltb_spec. change (Prim2SF nan) with S754_nan. reflexivity. Qed.

Lemma ltb_nan_r a : (a <? nan) = false.
Proof.
  rewrite ltb_spec. change (Prim2SF nan) with S754_nan.
  now destruct (Prim2SF a) as [[|]|[|]| |[|] ? ?].
Qed.

Create Rewrite HintDb nan_algebra.
#[local] Hint Rewrite fadd_nan_l fadd_nan_r fsub_nan_l fsub_nan_r fmul_nan_l fmul_nan_r
  fdiv_nan_r nan_div ltb_nan_l ltb_nan_r : nan_algebra.

Section WithHost.
Context {host : HostMath}.

(** X16: the distance is clamped to the unit interval: on any curve, a
    distance of zero or less, down to minus infinity, gives what the distance
    0 gives, and a distance of one or more, up to infinity, gives what the
    distance 1 gives. *)
Theorem distance_is_clamped (points : list arr3) (distance : num) :
  ((distance <=? 0) = true ->
   getStartPoseFromCurve points distance = getStartPoseFromCurve points 0) /\
  ((1 <=? distance) = true ->
   getStartPoseFromCurve points distance = getStartPoseFromCurve points 1) /\
  getStartPoseFromCurve points neg_infinity = getStartPoseFromCurve points 0 /\
  getStartPoseFromCurve points (-0) = getStartPoseFromCurve points 0 /\
  getStartPoseFromCurve points infinity = getStartPoseFromCurve points 1.
Proof.
  assert (L : forall d, (d <=? 0) = true ->
            getStartPoseFromCurve points d = getStartPoseFromCurve points 0).
  { intros d H. unfold getStartPoseFromCurve. cbv zeta.
    rewrite (clamp_low d H). reflexivity. }
  assert (U : forall d, (1 <=? d) = true ->
            getStartPoseFromCurve points d = getStartPoseFromCurve points 1).
  { intros d H. unfold getStartPoseFromCurve. cbv zeta.
    rewrite (clamp_high d H). reflexivity. }
  split; [apply L|]. split; [apply U|].
  split; [now apply L|]. split; [now apply L|now apply U].
Qed.

(** X17: [getStartPoseFromCurve] throws on an empty curve, whatever the
    distance, and on any curve when the distance is [NaN]; the precomputation
    over an empty curve calls it for no point and gives no pose. *)
Theorem no_pose_without_a_point (points : list arr3) (distance : num) :
  getStartPoseFromCurve [] distance = None /\
  getStartPoseFromCurve points nan = None /\
  precomputeStartPositions [] = Some [].
Proof.
  split; [|split; [|reflexivity]].
  - unfold getStartPoseFromCurve. cbv zeta.
    destruct (floorZ _) as [i0|]; [|reflexivity].
    unfold at_index. destruct (i0 <? 0)%Z; [reflexivity|].
    now destruct (Z.to_nat i0).
  - unfold getStartPoseFromCurve. cbv zeta.
    change (Math_min (Math_max nan 0) 1) with nan. now rewrite fmul_nan_l.
Qed.

Lemma fmul_zero_r t :
  t = 0 \/ t = 1 \/ ((exists m e, Prim2SF t = S754_finite false m e) /\ (t <? 1) = true) ->
  t * 0 = 0.
Proof.
  intros [->|[->|[(m & e & P) _]]]; try reflexivity.
  apply Prim2SF_inj. rewrite mul_spec, P. reflexivity.
Qed.

(** X18: on a curve of a single point with finite coordinates (and a host
    whose [Math.hypot] of three zeros is zero), every distance that is a
    number gives the same pose: its position equals the point and every
    component of its quaternion is [NaN]; the precomputation gives that pose
    as the only start pose. *)
Theorem single_point_curve_has_no_orientation (p : arr3) (distance : num) :
  Math_hypot 0 0 0 = 0 ->
  finite3 p = true ->
  is_nan distance = false ->
  exists pose,
    getStartPoseFromCurve [p] distance = Some pose /\
    eqb3 (position pose) p = true /\
    quaternion pose = (nan, nan, nan, nan) /\
    precomputeStartPositions [p] = Some [pose].
Proof.
  intros H0 Fin N.
  assert (G : forall d, is_nan d = false ->
            getStartPoseFromCurve [p] d
            = Some (mkPose (let '(a, b, c) := p in (a + 0, b + 0, c + 0)) (nan, nan, nan, nan))).
  { intros d Nd. unfold getStartPoseFromCurve. cbv zeta.
    change (ofZ (Z.of_nat (List.length [p]) - 1)) with 0.
    rewrite (fmul_zero_r _ (unit_interval_cases d Nd)).
    change (floorZ 0) with (Some 0%Z). cbv iota beta.
    change (Z.min (0 + 1) (Z.of_nat (List.length [p]) - 1)) with 0%Z.
    change (at_index [p] 0) with (Some p).
    destruct p as [[a b] c]. cbn [finite3] in Fin.
    apply andb_true_iff in Fin as [Fin Fc]. apply andb_true_iff in Fin as [Fa Fb].
    unfold isFiniteNum in Fa, Fb, Fc.
    change (0 - Math_floor 0) with 0.
    rewrite (fsub_self a Fa), (fsub_self b Fb), (fsub_self c Fc).
    rewrite H0. change (0 / 0) with nan. change (0 * 0) with 0.
    now rewrite lookRotation_nan. }
  eexists. split; [exact (G distance N)|]. split; [|split; [reflexivity|]].
  - destruct p as [[a b] c]. cbn [finite3] in Fin.
    apply andb_true_iff in Fin as [Fin Fc]. apply andb_true_iff in Fin as [Fa Fb].
    cbn [position eqb3]. now rewrite !fadd_zero_eqb.
  - unfold precomputeStartPositions. cbn [List.length seq traverse].
    change (startPoseDistance (Z.of_nat 1) (Z.of_nat 0)) with 0.
    now rewrite (G 0 eq_refl).
Qed.

(** A frame whose first axis has a [NaN] first component has no rotation. *)
Lemma lookRotation_without_first_axis (forward up : arr3) :
  (let '(f0, f1, f2) := forward in
   let '(up0, up1, up2) := up in
   let x0 := up1 * - f2 - up2 * - f1 in
   let x1 := up2 * - f0 - up0 * - f2 in
   let x2 := up0 * - f1 - up1 * - f0 in
   x0 / Math_hypot x0 x1 x2 = nan) ->
  lookRotation forward up = (nan, nan, nan, nan).
Proof.
  destruct forward as [[f0 f1] f2]. destruct up as [[up0 up1] up2].
  cbv zeta. intros E. unfold lookRotation. cbv zeta. rewrite E.
  autorewrite with nan_algebra. cbn [andb].
  change (Math_sqrt nan) with nan.
  autorewrite with nan_algebra. reflexivity.
Qed.

(** ** Zeros of either sign *)

Lemma is_zero_spec x : is_zero x = true -> x = 0 \/ x = -0.
Proof.
  unfold is_zero. rewrite FloatAxioms.eqb_spec. change (Prim2SF zero) with (S754_zero false).
  destruct (Prim2SF x) as [s|s| |s m e] eqn:P.
  - intros _. apply zero_of_spec in P. destruct s; auto.
  - destruct s; discriminate.
  - discriminate.
  - destruct s; discriminate.
Qed.

Lemma zero_times_cases a : is_zero (0 * a) = true \/ 0 * a = nan.
Proof.
  destruct (Prim2SF a) as [s|s| |s m e] eqn:P.
  - left. unfold is_zero. rewrite FloatAxioms.eqb_spec, mul_spec, P. now destruct s.
  - right. apply Prim2SF_inj. rewrite mul_spec, P. reflexivity.
  - right. apply Prim2SF_inj. rewrite mul_spec, P. reflexivity.
  - left. unfold is_zero. rewrite FloatAxioms.eqb_spec, mul_spec, P. now destruct s.
Qed.

Lemma zero_minus_zero a b :
  is_zero a = true -> is_zero b = true -> is_zero (a - b) = true.
Proof.
  intros A B. destruct (is_zero_spec a A) as [->| ->], (is_zero_spec b B) as [->| ->];
    reflexivity.
Qed.

Lemma zero_over_zero a : is_zero a = true -> a / 0 = nan.
Proof. intros A. destruct (is_zero_spec a A) as [->| ->]; reflexivity. Qed.

Lemma one_times_opp_zero a : is_zero a = true -> is_zero (1 * - a) = true.
Proof. intros A. destruct (is_zero_spec a A) as [->| ->]; reflexivity. Qed.

Lemma zero_times_opp_zero a : is_zero a = true -> is_zero (0 * - a) = true.
Proof. intros A. destruct (is_zero_spec a A) as [->| ->]; reflexivity. Qed.

(** X19: [lookRotation] has no value for a direction along the up axis: with
    [up = [0, 1, 0]] and a forward vector whose first and third components
    are zeros of either sign, whatever the second, the cross product of up and
    the direction is zero or [NaN], its normalization divides by zero, and
    every component of the quaternion returned is [NaN] (on a host whose
    [Math.hypot] of three zeros is zero). *)
Theorem lookRotation_along_up_is_undefined (f0 f1 f2 : num) :
  (forall a b c, is_zero a = true -> is_zero b = true -> is_zero c = true ->
                 Math_hypot a b c = 0) ->
  is_zero f0 = true -> is_zero f2 = true ->
  lookRotation (f0, f1, f2) (0, 1, 0) = (nan, nan, nan, nan).
Proof.
  intros H Z0 Z2. apply lookRotation_without_first_axis. cbv zeta.
  destruct (zero_times_cases (- f1)) as [T|T].
  - rewrite H.
    + apply zero_over_zero. apply zero_minus_zero; [now apply one_times_opp_zero|exact T].
    + apply zero_minus_zero; [now apply one_times_opp_zero|exact T].
    + apply zero_minus_zero; now apply zero_times_opp_zero.
    + apply zero_minus_zero; [exact T|now apply one_times_opp_zero].
  - rewrite T. now rewrite fsub_nan_r, nan_div.
Qed.

End WithHost.

(** The reference host gives 0 for the length of zeros of either sign. *)
Lemma refHost_hypot_of_zeros a b c :
  is_zero a = true -> is_zero b = true -> is_zero c = true ->
  @Math_hypot RefHost.refHost a b c = 0.
Proof.
  intros A B C.
  destruct (is_zero_spec a A) as [->| ->], (is_zero_spec b B) as [->| ->],
    (is_zero_spec c C) as [->| ->]; reflexivity.
Qed.

(** The curve of the single point (5, 0, -3). *)
Lemma single_point_curve_has_no_orientation_witness :
  (@Math_hypot RefHost.refHost 0 0 0 = 0 /\ finite3 (5, 0, -3) = true /\
   is_nan 0.5 = false) /\
  exists pose,
    getStartPoseFromCurve (host := RefHost.refHost) [(5, 0, -3)] 0.5 = Some pose /\
    quaternion pose = (nan, nan, nan, nan) /\
    precomputeStartPositions (host := RefHost.refHost) [(5, 0, -3)] = Some [pose].
Proof.
  split; [repeat split|].
  destruct (@single_point_curve_has_no_orientation RefHost.refHost (5, 0, -3) 0.5
              eq_refl eq_refl eq_refl) as (pose & G & _ & Q & R).
  exists pose. repeat split; assumption.
Defined.

(** Straight up. *)
Lemma lookRotation_along_up_is_undefined_witness :
  (is_zero 0 = true /\ is_zero (-0) = true) /\
  lookRotation (host := RefHost.refHost) (0, 1, -0) (0, 1, 0) = (nan, nan, nan, nan).
Proof.
  split; [split; reflexivity|].
  exact (@lookRotation_along_up_is_undefined RefHost.refHost 0 1 (-0)
           refHost_hypot_of_zeros eq_refl eq_refl).
Defined.

End CurveEdges.

(* ====================================================================== *)
(** * The queue of messages for a worker that is not ready *)
(* ====================================================================== *)

Module Queue.
Import PhysicsWorker Server ServerFacts Samples.
Local Open Scope string_scope.

Lemma allWorkers_lookup P st k w : allWorkers P st -> lookup k (workers st) = Some w -> P w.
Proof.
  intros A G. apply lookup_In in G. unfold allWorkers in A. rewrite Forall_forall in A.
  exact (A _ G).
Qed.

Lemma allWorkers_setWorker P st k w : P w -> allWorkers P st -> allWorkers P (setWorker st k w).
Proof. intros Pw A. apply Forall_insert; auto. Qed.

Lemma allWorkers_same P st st' : workers st' = workers st -> allWorkers P st -> allWorkers P st'.
Proof. unfold allWorkers; intros ->; auto. Qed.

Lemma workers_broadcast st rid ty : workers (broadcast st rid ty) = workers st.
Proof. unfold broadcast. destruct (getRoom st rid); reflexivity. Qed.

Lemma workers_send st ws ty : workers (send st ws ty) = workers st.
Proof. unfold send. destruct (lookupN ws (clients st)); reflexivity. Qed.

Lemma workers_setClientRoom st ws k : workers (setClientRoom st ws k) = workers st.
Proof. unfold setClientRoom. destruct (lookupN ws (clients st)); reflexivity. Qed.

Lemma nq_postMessage w m : nothingQueued w -> nothingQueued (postMessage w m).
Proof. auto. Qed.

Lemma nq_terminate w : nothingQueued w -> nothingQueued (terminate w).
Proof. auto. Qed.

Lemma nq_sendToWorker_ready w m :
  w_workerReady w = true -> nothingQueued w ->
  nothingQueued (sendToWorker w m) /\ w_workerReady (sendToWorker w m) = true.
Proof. intros R Q. unfold sendToWorker. rewrite R. split; [exact Q|exact R]. Qed.

Lemma nq_onFirstWorkerMessage w m : nothingQueued w -> nothingQueued (onFirstWorkerMessage w m).
Proof.
  intros Q. unfold onFirstWorkerMessage. destruct m; try exact Q.
  cbv zeta.
  match goal with
  | |- nothingQueued (if _ then sendToWorker (sendToWorker (sendToWorker ?w0 ?a) ?b) ?c
                      else sendToWorker (sendToWorker ?w0 ?a) ?b) =>
      assert (R0 : w_workerReady w0 = true) by reflexivity;
      assert (Q0 : nothingQueued w0) by reflexivity;
      destruct (nq_sendToWorker_ready w0 a R0 Q0) as [Q1 R1];
      destruct (nq_sendToWorker_ready _ b R1 Q1) as [Q2 R2];
      destruct (nq_sendToWorker_ready _ c R2 Q2) as [Q3 R3]
  end.
  match goal with |- nothingQueued (if ?c then _ else _) => destruct c end; assumption.
Qed.

Ltac workers_step :=
  match goal with
  | |- allWorkers _ (broadcast _ _ _) => eapply allWorkers_same; [apply workers_broadcast|]
  | |- allWorkers _ (broadcastRoomState _ _) => eapply allWorkers_same; [apply workers_broadcast|]
  | |- allWorkers _ (send _ _ _) => eapply allWorkers_same; [apply workers_send|]
  | |- allWorkers _ (setClientRoom _ _ _) => eapply allWorkers_same; [apply workers_setClientRoom|]
  | |- allWorkers ?P (setRoom ?s _) => change (allWorkers P s)
  | |- allWorkers ?P (deleteRoom ?s _) => change (allWorkers P s)
  | |- allWorkers ?P (mkServer _ (workers ?s) _ _) => change (allWorkers P s)
  | |- allWorkers _ (match ?x with _ => _ end) => destruct x eqn:?
  | |- allWorkers _ (if ?x then _ else _) => destruct x eqn:?
  | |- allWorkers _ (fst (match ?x with _ => _ end)) => destruct x eqn:?
  | |- allWorkers _ (fst (if ?x then _ else _)) => destruct x eqn:?
  | |- allWorkers _ (fst (_, _)) => cbn [fst]
  end.

Ltac nq_worker :=
  match goal with
  | A : allWorkers nothingQueued ?st, G : lookup _ (workers ?st) = Some ?w |- _ =>
      lazymatch goal with
      | _ : nothingQueued w |- _ => fail
      | _ => pose proof (allWorkers_lookup nothingQueued st _ w A G)
      end
  end.

Ltac nq_set :=
  match goal with
  | |- allWorkers nothingQueued (setWorker _ _ _) =>
      apply allWorkers_setWorker;
      [ repeat nq_worker;
        repeat match goal with
               | |- nothingQueued (terminate _) => apply nq_terminate
               | |- nothingQueued (postMessage _ _) => apply nq_postMessage
               | |- nothingQueued (onFirstWorkerMessage _ _) => apply nq_onFirstWorkerMessage
               end;
        try assumption; try reflexivity
      | ]
  end.

Ltac nq := repeat (first [workers_step | nq_set]); auto.

Lemma nq_postToRoomWorker st r m :
  allWorkers nothingQueued st -> allWorkers nothingQueued (postToRoomWorker st r m).
Proof. intros A. unfold postToRoomWorker. nq. Qed.

Lemma nq_startRaceCountdown st k n :
  allWorkers nothingQueued st -> allWorkers nothingQueued (startRaceCountdown st k n).
Proof.
  intros A. unfold startRaceCountdown.
  destruct (getRoom st k) as [room|] eqn:G; [|exact A].
  cbv zeta. destruct (getRoom (broadcast _ _ _) k) as [room'|] eqn:G'; nq.
Qed.

Lemma nq_assign st k :
  allWorkers nothingQueued st -> allWorkers nothingQueued (assignStartPositions st k).
Proof. intros A. unfold assignStartPositions. nq. Qed.

Lemma nq_endRace st k : allWorkers nothingQueued st -> allWorkers nothingQueued (endRace st k).
Proof. intros A. unfold endRace. nq. Qed.

Lemma nq_startRace env st k :
  allWorkers nothingQueued st -> allWorkers nothingQueued (startRace env st k).
Proof. intros A. unfold startRace. nq. Qed.

Lemma nq_getOrCreate env st a b c d st' r :
  allWorkers nothingQueued st -> getOrCreateOpenRoom env st a b c d = (st', r) ->
  allWorkers nothingQueued st'.
Proof.
  unfold getOrCreateOpenRoom. intros A.
  destruct (findOpenRoom st) as [room|] eqn:F.
  - intros [= <- <-]. exact A.
  - intros [= <- <-]. cbv zeta.
    change (allWorkers nothingQueued
              (setWorker st (uuid env)
                 (if nonEmpty a
                  then postMessage (mkWorkerT [] false false [] true a c d) (addPlayerMessage a c d)
                  else mkWorkerT [] false false [] true a c d))).
    apply allWorkers_setWorker; [|exact A]. now destruct (nonEmpty a).
Qed.

Lemma nq_onJoin env st ws pid pl :
  allWorkers nothingQueued st -> allWorkers nothingQueued (onJoin env st ws pid pl).
Proof.
  intros A. unfold onJoin.
  destruct (getOrCreateOpenRoom env st pid _ _ _) as [st' room] eqn:G.
  pose proof (nq_getOrCreate _ _ _ _ _ _ _ _ A G) as A'.
  repeat workers_step; auto.
  apply nq_postToRoomWorker. nq.
Qed.

Lemma nq_onRemoved st ws pid rid s :
  allWorkers nothingQueued st -> onRemoved st ws pid rid = Some s -> allWorkers nothingQueued s.
Proof.
  intros A. unfold onRemoved.
  destruct rid as [rid|]; [|discriminate].
  destruct (negb (nonEmpty rid)); [discriminate|].
  destruct (getRoom st rid) eqn:G; [|discriminate].
  destruct (lookup pid (r_players r)); [|discriminate].
  intros [= <-]. repeat workers_step. now apply nq_postToRoomWorker.
Qed.

Lemma nq_after_room env st pid m rid :
  allWorkers nothingQueued st ->
  allWorkers nothingQueued (fst (match m with
    | SetReady payload => onSetReady st pid rid payload
    | Input payload => onInput st pid rid payload
    | Config payload => (onConfig st pid rid payload, Completed)
    | Finish => (onFinish env st pid rid, Completed)
    | StartNow => (if ALLOW_FORCE_START env then startPregameCountdown env st rid 3 else st, Completed)
    | _ => (st, Completed)
    end)).
Proof.
  intros A.
  destruct m; cbn [fst]; auto;
    unfold onSetReady, onInput, onConfig, onFinish, startPregameCountdown;
    repeat workers_step; auto;
    try (apply nq_postToRoomWorker; repeat workers_step; auto);
    try (apply nq_endRace; repeat workers_step; auto).
Qed.

Lemma nq_cleanupRoom st k p :
  allWorkers nothingQueued st -> allWorkers nothingQueued (cleanupRoom st k p).
Proof. intros A. unfold cleanupRoom. nq. Qed.

Lemma nq_step env st e :
  allWorkers nothingQueued st -> allWorkers nothingQueued (fst (step env st e)).
Proof.
  intros A. destruct e; cbn [step fst].
  - nq.
  - unfold onMessage. destruct (lookupN ws (clients st)) as [c|]; [|exact A].
    destruct f; [exact A|exact A|].
    match goal with |- allWorkers _ (fst (match ?x with _ => _ end)) => destruct x as [s1|] eqn:E1 end;
      [|exact A].
    assert (A1 : allWorkers nothingQueued s1).
    { destruct m; try (injection E1 as <-; auto).
      - apply nq_onJoin; auto.
      - eapply nq_onRemoved; eauto. }
    destruct (match lookupN ws (clients s1) with Some c' => s_roomId c' | None => None end);
      [|exact A1].
    destruct (nonEmpty s); [|exact A1].
    apply nq_after_room; auto.
  - unfold onClose. repeat (first [workers_step | apply nq_cleanupRoom]); auto.
  - unfold onWorkerMessage. nq.
  - unfold onWorkerExit. nq.
  - unfold pregameInterval. nq; apply nq_startRaceCountdown; nq; apply nq_assign; nq.
  - unfold raceInterval. nq; apply nq_startRace; nq.
Qed.

Lemma nq_run es : forall st,
  allWorkers nothingQueued st -> allWorkers nothingQueued (fst (run st es)).
Proof.
  induction es as [|[env e] es IH]; intros st A; simpl; auto.
  destruct (step env st e) as [st' o] eqn:S.
  destruct (run st' es) as [st'' os] eqn:R. simpl.
  change st'' with (fst (st'', os)). rewrite <- R. apply IH.
  change st' with (fst (st', o)). rewrite <- S. now apply nq_step.
Qed.

(** X20: whatever the clients, the workers and the timers do, the
    [pendingMessages] queue of every room's worker is empty: [sendToWorker]
    is called only after [workerReady] is set, and every other message goes
    through [worker.postMessage] directly. *)
Theorem nothing_is_ever_queued (es : list (envT * event)) (roomId : string) :
  match lookup roomId (workers (fst (run initial es))) with
  | Some w => w_pendingMessages w = []
  | None => True
  end.
Proof.
  destruct (lookup roomId (workers (fst (run initial es)))) as [w|] eqn:G; [|exact I].
  exact (allWorkers_lookup nothingQueued _ _ _ (nq_run es initial (Forall_nil _)) G).
Qed.

End Queue.

(* ====================================================================== *)
(** * The identity quaternion *)
(* ====================================================================== *)

Module Rotation.

Import JsNum MathJs FloatFacts CurveEdges.
Local Open Scope float_scope.

Lemma zero_is_finite z : is_zero z = true -> is_finite z = true.
Proof. intros Z. destruct (is_zero_spec z Z) as [->| ->]; reflexivity. Qed.

Lemma zero_opp z : is_zero z = true -> is_zero (- z) = true.
Proof. intros Z. destruct (is_zero_spec z Z) as [->| ->]; reflexivity. Qed.

Lemma zero_add a b : is_zero a = true -> is_zero b = true -> is_zero (a + b) = true.
Proof.
  intros A B. destruct (is_zero_spec a A) as [->| ->], (is_zero_spec b B) as [->| ->];
    reflexivity.
Qed.

Lemma zero_mul_r a z : is_finite a = true -> is_zero z = true -> is_zero (a * z) = true.
Proof.
  intros F Z. unfold is_zero. rewrite FloatAxioms.eqb_spec, mul_spec.
  destruct (is_finite_spec a F) as [[s E]|(s & m & e & E)]; rewrite E;
    destruct (is_zero_spec z Z) as [->| ->]; now destruct s.
Qed.

Lemma zero_mul_l a z : is_finite a = true -> is_zero z = true -> is_zero (z * a) = true.
Proof. intros F Z. rewrite fmul_comm. now apply zero_mul_r. Qed.

Lemma add_zero_r a z : is_finite a = true -> is_zero z = true -> sameNumber (a + z) a.
Proof.
  intros F Z. destruct (is_finite_spec a F) as [[s E]|(s & m & e & E)].
  - right. assert (A : is_zero a = true).
    { unfold is_zero. rewrite FloatAxioms.eqb_spec, E. now destruct s. }
    split; [now apply zero_add|exact A].
  - left. apply Prim2SF_inj. rewrite add_spec, E.
    destruct (is_zero_spec z Z) as [->| ->]; reflexivity.
Qed.

Lemma add_zero_l a z : is_finite a = true -> is_zero z = true -> sameNumber (z + a) a.
Proof.
  intros F Z. destruct (is_finite_spec a F) as [[s E]|(s & m & e & E)].
  - right. assert (A : is_zero a = true).
    { unfold is_zero. rewrite FloatAxioms.eqb_spec, E. now destruct s. }
    split; [now apply zero_add|exact A].
  - left. apply Prim2SF_inj. rewrite add_spec, E.
    destruct (is_zero_spec z Z) as [->| ->]; reflexivity.
Qed.

Lemma sub_zero_r a z : is_finite a = true -> is_zero z = true -> sameNumber (a - z) a.
Proof.
  intros F Z. destruct (is_finite_spec a F) as [[s E]|(s & m & e & E)].
  - right. assert (A : is_zero a = true).
    { unfold is_zero. rewrite FloatAxioms.eqb_spec, E. now destruct s. }
    split; [now apply zero_minus_zero|exact A].
  - left. apply Prim2SF_inj. rewrite sub_spec, E.
    destruct (is_zero_spec z Z) as [->| ->]; reflexivity.
Qed.

Lemma same_finite a b : sameNumber a b -> is_finite b = true -> is_finite a = true.
Proof. intros [->|[A _]] F; [exact F|now apply zero_is_finite]. Qed.

Lemma same_refl a : sameNumber a a.
Proof. now left. Qed.

Lemma same_add_r a b z :
  is_finite b = true -> sameNumber a b -> is_zero z = true -> sameNumber (a + z) b.
Proof.
  intros F [->|[A B]] Z; [now apply add_zero_r|].
  right. split; [now apply zero_add|exact B].
Qed.

Lemma same_add_l a b z :
  is_finite b = true -> is_zero z = true -> sameNumber a b -> sameNumber (z + a) b.
Proof.
  intros F Z [->|[A B]]; [now apply add_zero_l|].
  right. split; [now apply zero_add|exact B].
Qed.

Lemma same_sub_r a b z :
  is_finite b = true -> sameNumber a b -> is_zero z = true -> sameNumber (a - z) b.
Proof.
  intros F [->|[A B]] Z; [now apply sub_zero_r|].
  right. split; [now apply zero_minus_zero|exact B].
Qed.

Lemma same_mul_one_l a b : sameNumber a b -> sameNumber (1 * a) b.
Proof. now rewrite fmul_one_l. Qed.

Lemma same_mul_one_r a b : sameNumber a b -> sameNumber (a * 1) b.
Proof. now rewrite fmul_comm, fmul_one_l. Qed.

Lemma same_eqb a b : is_finite b = true -> sameNumber a b -> (a =? b) = true.
Proof.
  intros F [->|[A B]].
  - rewrite FloatAxioms.eqb_spec.
    destruct (is_finite_spec b F) as [[s E]|(s & m & e & E)]; rewrite E.
    + now destruct s.
    + unfold SFeqb, SFcompare.
      destruct s; rewrite Z.compare_refl, Pos.compare_cont_refl; reflexivity.
  - destruct (is_zero_spec a A) as [->| ->], (is_zero_spec b B) as [->| ->]; reflexivity.
Qed.

(** Sums and products in which every term but one vanishes. *)
Ltac vanish :=
  lazymatch goal with
  | |- is_finite ?a = true =>
      first [ assumption | reflexivity
            | apply zero_is_finite; vanish
            | match goal with
              | H : is_finite ?b = true |- _ =>
                  apply (same_finite a b); [solve [vanish] | exact H]
              end ]
  | |- is_zero (- _) = true => apply zero_opp; vanish
  | |- is_zero (_ + _) = true => apply zero_add; vanish
  | |- is_zero (_ - _) = true => apply zero_minus_zero; vanish
  | |- is_zero (_ * _) = true =>
      first [ apply zero_mul_r; [solve [vanish] | solve [vanish]]
            | apply zero_mul_l; [solve [vanish] | solve [vanish]] ]
  | |- is_zero _ = true => reflexivity
  | |- sameNumber (1 * _) _ => apply same_mul_one_l; vanish
  | |- sameNumber (_ * 1) _ => apply same_mul_one_r; vanish
  | |- sameNumber (_ + _) _ =>
      first [ apply same_add_r; [assumption | solve [vanish] | solve [vanish]]
            | apply same_add_l; [assumption | solve [vanish] | solve [vanish]] ]
  | |- sameNumber (_ - _) _ =>
      apply same_sub_r; [assumption | solve [vanish] | solve [vanish]]
  | |- sameNumber ?a ?a => apply same_refl
  end.

(** X21: the identity quaternion rotates nothing: [applyQuaternion] with
    (0, 0, 0, 1) returns a vector of finite components with every component
    equal ([===]) to the one it had. *)
Theorem identity_rotation_keeps_a_vector (v : Vector3) :
  is_finite (x v) = true -> is_finite (y v) = true -> is_finite (z v) = true ->
  let r := applyQuaternion v identity in
  (x r =? x v) = true /\ (y r =? y v) = true /\ (z r =? z v) = true.
Proof.
  intros Fx Fy Fz. destruct v as [a b c]. cbn [x y z] in *.
  unfold applyQuaternion, identity. cbv zeta. cbn [x y z qx qy qz qw].
  repeat split; apply same_eqb; try assumption; vanish.
Qed.

(** X22: the identity quaternion is neutral on both sides of [multiply] and
    of [premultiply]: for a quaternion of finite components every component
    of the product equals ([===]) the one of the quaternion. *)
Theorem identity_is_neutral (q : Quaternion) :
  is_finite (qx q) = true -> is_finite (qy q) = true ->
  is_finite (qz q) = true -> is_finite (qw q) = true ->
  let same (r : Quaternion) :=
    (qx r =? qx q) = true /\ (qy r =? qy q) = true /\
    (qz r =? qz q) = true /\ (qw r =? qw q) = true in
  same (multiply q identity) /\ same (multiply identity q) /\
  same (premultiply q identity) /\ same (premultiply identity q).
Proof.
  intros Fx Fy Fz Fw. destruct q as [a b c d]. cbn [qx qy qz qw] in *.
  unfold multiply, premultiply, identity. cbv zeta. cbn [qx qy qz qw].
  repeat split; apply same_eqb; try assumption; vanish.
Qed.

(** The vector (1.5, -2, 0). *)
Lemma identity_rotation_keeps_a_vector_witness :
  (is_finite 1.5 = true /\ is_finite (-2) = true /\ is_finite 0 = true) /\
  (x (applyQuaternion (mkV3 1.5 (-2) 0) identity) =? 1.5) = true /\
  (y (applyQuaternion (mkV3 1.5 (-2) 0) identity) =? -2) = true /\
  (z (applyQuaternion (mkV3 1.5 (-2) 0) identity) =? 0) = true.
Proof.
  split; [repeat split|].
  exact (identity_rotation_keeps_a_vector (mkV3 1.5 (-2) 0) eq_refl eq_refl eq_refl).
Defined.

(** The quaternion (0.5, -0.5, 0, 0.75). *)
Lemma identity_is_neutral_witness :
  (is_finite 0.5 = true /\ is_finite (-0.5) = true /\ is_finite 0 = true /\
   is_finite 0.75 = true) /\
  (qx (multiply (mkQuat 0.5 (-0.5) 0 0.75) identity) =? 0.5) = true /\
  (qw (premultiply identity (mkQuat 0.5 (-0.5) 0 0.75)) =? 0.75) = true.
Proof.
  split; [repeat split|].
  destruct (identity_is_neutral (mkQuat 0.5 (-0.5) 0 0.75) eq_refl eq_refl eq_refl eq_refl)
    as ((A & _) & _ & _ & (_ & _ & _ & D)).
  split; [exact A|exact D].
Defined.

End Rotation.

(* ====================================================================== *)
(** * Joining a room *)
(* ====================================================================== *)

Module Joining.

Import PhysicsWorker Server ServerFacts Samples Rooms.
Local Open Scope string_scope.

Lemma In_keys_insert {A} x k (v : A) l :
  In x (map fst (insert k v l)) -> x = k \/ In x (map fst l).
Proof.
  induction l as [|[k' v'] l IH]; simpl.
  - intros [<-|[]]; auto.
  - destruct (String.eqb_spec k k') as [->|N]; simpl.
    + intros [<-|I]; auto.
    + intros [<-|I]; auto. destruct (IH I); auto.
Qed.

Lemma NoDup_keys_insert {A} k (v : A) l :
  NoDup (map fst l) -> NoDup (map fst (insert k v l)).
Proof.
  induction l as [|[k' v'] l IH]; simpl; intros U.
  - constructor; [intros []|constructor].
  - inversion U as [|? ? N U']; subst.
    destruct (String.eqb_spec k k') as [->|D]; simpl.
    + constructor; assumption.
    + constructor; [|auto].
      intros I. apply In_keys_insert in I as [E|I]; [congruence|contradiction].
Qed.

Lemma In_keys_remove {A} x k (l : list (string * A)) :
  In x (map fst (remove k l)) -> In x (map fst l).
Proof.
  induction l as [|[k' v'] l IH]; simpl; auto.
  destruct (String.eqb k k'); simpl; auto.
  intros [<-|I]; auto.
Qed.

Lemma NoDup_keys_remove {A} k (l : list (string * A)) :
  NoDup (map fst l) -> NoDup (map fst (remove k l)).
Proof.
  induction l as [|[k' v'] l IH]; simpl; intros U; auto.
  inversion U as [|? ? N U']; subst.
  destruct (String.eqb k k'); simpl; auto.
  constructor; auto. intros I. apply In_keys_remove in I. contradiction.
Qed.

Lemma In_lookup {A} k (v : A) l : NoDup (map fst l) -> In (k, v) l -> lookup k l = Some v.
Proof.
  induction l as [|[k' v'] l IH]; simpl; intros U; [intros []|].
  inversion U as [|? ? N U']; subst.
  intros [[= -> ->]|I].
  - now rewrite String.eqb_refl.
  - destruct (String.eqb_spec k k') as [->|D]; auto.
    exfalso. apply N. apply (in_map fst) in I. exact I.
Qed.

Lemma uq_setRoom st r : uniqueRooms st -> uniqueRooms (setRoom st r).
Proof. intros; apply NoDup_keys_insert; auto. Qed.

Lemma uq_deleteRoom st k : uniqueRooms st -> uniqueRooms (deleteRoom st k).
Proof. intros; apply NoDup_keys_remove; auto. Qed.

Lemma uq_same_rooms st st' : rooms st' = rooms st -> uniqueRooms st -> uniqueRooms st'.
Proof. unfold uniqueRooms; intros ->; auto. Qed.

(** ** The keys of [state.rooms] stay distinct *)

Ltac uq_step :=
  match goal with
  | |- uniqueRooms (broadcast _ _ _) => eapply uq_same_rooms; [apply rooms_broadcast|]
  | |- uniqueRooms (broadcastRoomState _ _) => eapply uq_same_rooms; [apply rooms_broadcast|]
  | |- uniqueRooms (send _ _ _) => eapply uq_same_rooms; [apply rooms_send|]
  | |- uniqueRooms (setWorker _ _ _) => eapply uq_same_rooms; [apply rooms_setWorker|]
  | |- uniqueRooms (postToRoomWorker _ _ _) => eapply uq_same_rooms; [apply rooms_postToRoomWorker|]
  | |- uniqueRooms (setClientRoom _ _ _) => eapply uq_same_rooms; [apply rooms_setClientRoom|]
  | |- uniqueRooms (setRoom _ _) => apply uq_setRoom
  | |- uniqueRooms (deleteRoom _ _) => apply uq_deleteRoom
  | |- uniqueRooms (mkServer (rooms ?s) _ _ _) => change (uniqueRooms s)
  | |- uniqueRooms (match ?x with _ => _ end) => destruct x eqn:?
  | |- uniqueRooms (if ?x then _ else _) => destruct x eqn:?
  | |- uniqueRooms (let '(_, _) := ?x in _) => destruct x eqn:?
  | |- uniqueRooms (fst (match ?x with _ => _ end)) => destruct x eqn:?
  | |- uniqueRooms (fst (if ?x then _ else _)) => destruct x eqn:?
  | |- uniqueRooms (fst (_, _)) => cbn [fst]
  end.

Ltac uq := repeat uq_step; auto.

Lemma uq_startRaceCountdown st k n : uniqueRooms st -> uniqueRooms (startRaceCountdown st k n).
Proof. intros. unfold startRaceCountdown. uq. Qed.

Lemma uq_assign st k : uniqueRooms st -> uniqueRooms (assignStartPositions st k).
Proof. intros. unfold assignStartPositions. uq. Qed.

Lemma uq_getOrCreate env st a b c d st' r :
  uniqueRooms st -> getOrCreateOpenRoom env st a b c d = (st', r) -> uniqueRooms st'.
Proof.
  unfold getOrCreateOpenRoom. intros UQ. destruct (findOpenRoom st).
  - intros [= <- <-]; auto.
  - intros [= <- <-]. uq.
Qed.

Lemma uq_onJoin env st ws pid pl : uniqueRooms st -> uniqueRooms (onJoin env st ws pid pl).
Proof.
  intros UQ. unfold onJoin.
  destruct (getOrCreateOpenRoom env st pid _ _ _) as [st' room] eqn:G.
  apply uq_getOrCreate in G; auto. uq.
Qed.

Lemma uq_onRemoved st ws pid rid s :
  uniqueRooms st -> onRemoved st ws pid rid = Some s -> uniqueRooms s.
Proof.
  intros UQ. unfold onRemoved.
  destruct rid as [rid|]; [|discriminate].
  destruct (negb (nonEmpty rid)); [discriminate|].
  destruct (getRoom st rid); [|discriminate].
  destruct (lookup pid (r_players r)); [|discriminate].
  intros [= <-]. uq.
Qed.

Lemma uq_after_room env st pid m rid :
  uniqueRooms st ->
  uniqueRooms (fst (match m with
    | SetReady payload => onSetReady st pid rid payload
    | Input payload => onInput st pid rid payload
    | Config payload => (onConfig st pid rid payload, Completed)
    | Finish => (onFinish env st pid rid, Completed)
    | StartNow => (if ALLOW_FORCE_START env then startPregameCountdown env st rid 3 else st, Completed)
    | _ => (st, Completed)
    end)).
Proof.
  intros UQ.
  destruct m; cbn [fst]; auto;
    unfold onSetReady, onInput, onConfig, onFinish, startPregameCountdown, endRace; uq.
Qed.

Lemma uq_step_preserved env st e : uniqueRooms st -> uniqueRooms (fst (step env st e)).
Proof.
  intros UQ. destruct e; simpl.
  - unfold uniqueRooms; rewrite rooms_send; exact UQ.
  - unfold onMessage. destruct (lookupN ws (clients st)) as [c|]; [|exact UQ].
    destruct f; [exact UQ|exact UQ|].
    match goal with |- uniqueRooms (fst (match ?x with _ => _ end)) => destruct x as [s1|] eqn:E1 end;
      [|exact UQ].
    assert (UQ1 : uniqueRooms s1).
    { destruct m; try (injection E1 as <-; auto).
      - apply uq_onJoin; auto.
      - eapply uq_onRemoved; eauto. }
    destruct (match lookupN ws (clients s1) with Some c' => s_roomId c' | None => None end);
      [|exact UQ1].
    destruct (nonEmpty s); [|exact UQ1].
    apply uq_after_room; auto.
  - unfold onClose, cleanupRoom. uq.
  - unfold onWorkerMessage. uq.
  - unfold onWorkerExit. uq.
  - unfold pregameInterval. uq; apply uq_startRaceCountdown; uq; apply uq_assign; uq.
  - unfold raceInterval, startRace. uq.
Qed.

Lemma uq_run es : forall st, uniqueRooms st -> uniqueRooms (fst (run st es)).
Proof.
  induction es as [|[env e] es IH]; intros st UQ; simpl; auto.
  destruct (step env st e) as [st' o] eqn:S.
  destruct (run st' es) as [st'' os] eqn:R. simpl.
  change st'' with (fst (st'', os)). rewrite <- R. apply IH.
  change st' with (fst (st', o)). rewrite <- S. now apply uq_step_preserved.
Qed.

Lemma reachable_uniqueRooms st : reachable st -> uniqueRooms st.
Proof. intros [es <-]. apply uq_run. constructor. Qed.

(** ** Joining *)

Lemma clients_send st ws ty : clients (send st ws ty) = clients st.
Proof. unfold send. destruct (lookupN ws (clients st)); reflexivity. Qed.

Lemma clients_broadcast st rid ty : clients (broadcast st rid ty) = clients st.
Proof. unfold broadcast. destruct (getRoom st rid); reflexivity. Qed.

Lemma clients_postToRoomWorker st r m : clients (postToRoomWorker st r m) = clients st.
Proof.
  unfold postToRoomWorker. destruct (r_physicsWorker r); auto.
  destruct (lookup s (workers st)); auto.
Qed.

Lemma lookupN_insertN {A} k (v : A) l : lookupN k (insertN k v l) = Some v.
Proof.
  induction l as [|[k' v'] l IH]; simpl.
  - now rewrite Nat.eqb_refl.
  - destruct (Nat.eqb k k') eqn:E; simpl; rewrite ?Nat.eqb_refl, ?E; auto.
Qed.

Lemma phase_eqb_lobby p : phase_eqb p lobby = true -> p = lobby.
Proof. now destruct p. Qed.

Lemma getOrCreate_room env st a b c d st' r :
  wellKeyed st -> uniqueRooms st ->
  getOrCreateOpenRoom env st a b c d = (st', r) ->
  clients st' = clients st /\ getRoom st' (r_id r) = Some r /\ r_phase r = lobby.
Proof.
  intros WK UQ. unfold getOrCreateOpenRoom, findOpenRoom.
  destruct (find (fun e => isOpen (snd e)) (rooms st)) as [[k room]|] eqn:F.
  - intros [= <- <-]. apply find_some in F as [I O]. cbn [snd] in *.
    unfold wellKeyed in WK. rewrite Forall_forall in WK. pose proof (WK _ I) as K.
    cbn [fst snd] in K. rewrite K.
    split; [reflexivity|]. split; [now apply In_lookup|].
    unfold isOpen in O. apply andb_prop in O as [O _]. now apply phase_eqb_lobby.
  - intros [= <- <-]. split; [reflexivity|]. split; [|reflexivity].
    now apply getRoom_setRoom.
Qed.

Lemma onJoin_spec env st ws c payload :
  wellKeyed st -> uniqueRooms st -> lookupN ws (clients st) = Some c ->
  exists roomId room,
    lookupN ws (clients (onJoin env st ws (s_playerId c) payload))
    = Some (mkSocket (s_playerId c) (Some roomId)) /\
    getRoom (onJoin env st ws (s_playerId c) payload) roomId = Some room /\
    r_id room = roomId /\
    lookup (s_playerId c) (r_players room) <> None /\
    r_phase room = lobby.
Proof.
  intros WK UQ L. unfold onJoin.
  destruct (getOrCreateOpenRoom env st (s_playerId c) _ _ _) as [st1 room] eqn:G.
  destruct (getOrCreate_room _ _ _ _ _ _ _ _ WK UQ G) as (C1 & G1 & P1).
  assert (C2 : lookupN ws (clients (setClientRoom st1 ws (r_id room)))
               = Some (mkSocket (s_playerId c) (Some (r_id room)))).
  { unfold setClientRoom. rewrite C1, L. cbn [clients]. apply lookupN_insertN. }
  assert (G2 : getRoom (setClientRoom st1 ws (r_id room)) (r_id room) = Some room).
  { unfold getRoom. now rewrite rooms_setClientRoom. }
  unfold broadcastRoomState.
  destruct (lookup (s_playerId c) (r_players room)) as [p|] eqn:R.
  - exists (r_id room), room.
    rewrite clients_broadcast, clients_send, getRoom_broadcast, getRoom_send.
    repeat split; auto. congruence.
  - eexists (r_id room), _.
    rewrite clients_broadcast, clients_send, clients_postToRoomWorker,
      getRoom_broadcast, getRoom_send, getRoom_postToRoomWorker.
    split; [exact C2|]. split; [now apply getRoom_setRoom|].
    split; [reflexivity|]. split; [|exact P1].
    cbn [r_players withRoster]. now rewrite lookup_insert.
Qed.

(** X23: in every state the server can reach, a [join] message from a
    connected client is handled without an exception, and afterwards the
    connection is bound to a room of [state.rooms] that is in the lobby, has
    the client's player on its roster and holds at most eight players. *)
Theorem join_lands_on_a_lobby_roster (es : list (envT * event)) (env : envT) (ws : nat)
  (c : socketT) (payload : option joinPayload) :
  let st := fst (run initial es) in
  lookupN ws (clients st) = Some c ->
  let after := step env st (Message ws (Parsed (Join payload))) in
  snd after = Completed /\
  exists roomId room,
    lookupN ws (clients (fst after)) = Some (mkSocket (s_playerId c) (Some roomId)) /\
    getRoom (fst after) roomId = Some room /\
    lookup (s_playerId c) (r_players room) <> None /\
    r_phase room = lobby /\
    (List.length (r_players room) <= MAX_PLAYERS_PER_ROOM)%nat.
Proof.
  intros st L after.
  assert (RS : reachable st) by (exists es; reflexivity).
  pose proof (reachable_wellKeyed _ RS) as WK.
  pose proof (reachable_uniqueRooms _ RS) as UQ.
  pose proof (cap_step env st (Message ws (Parsed (Join payload)))
                (cap_run es initial (Forall_nil _))) as CAP.
  fold after in CAP.
  destruct (onJoin_spec env st ws c payload WK UQ L) as (k & room & C & G & K & R & P).
  assert (E : after = (onJoin env st ws (s_playerId c) payload, Completed)).
  { unfold after. cbn [step]. unfold onMessage. rewrite L. cbv zeta.
    rewrite C. cbn [s_roomId]. now destruct (nonEmpty k). }
  rewrite E in *. cbn [fst snd] in *.
  split; [reflexivity|]. exists k, room. repeat split; auto.
  exact (allRooms_getRoom withinCapacity _ _ _ CAP G).
Qed.

(** The first player to connect joins. *)
Lemma join_lands_on_a_lobby_roster_witness :
  lookupN 1 (clients (fst (run initial [(env1, Connection 1 "p1")])))
  = Some (mkSocket "p1" None) /\
  exists roomId room,
    getRoom (fst (step env1 (fst (run initial [(env1, Connection 1 "p1")]))
                    (Message 1 (Parsed (Join None))))) roomId = Some room /\
    lookup "p1" (r_players room) <> None.
Proof.
  split; [reflexivity|].
  destruct (join_lands_on_a_lobby_roster [(env1, Connection 1 "p1")] env1 1
              (mkSocket "p1" None) None eq_refl) as (_ & k & room & _ & G & R & _).
  exists k, room. split; assumption.
Defined.

End Joining.

(* ====================================================================== *)
(** * The path of an input message *)
(* ====================================================================== *)

Module InputPath.

Import PhysicsWorker Server ServerFacts Samples Queue.
Local Open Scope string_scope.

Section WithHost.
Context {host : HostMath}.

(** X24: an [input] message that carries no [inputAxis] is forwarded by the
    server all the same, with the key [inputAxis] present and its value
    missing; the handler completes on the server, and in a worker that knows
    the player [handleInput] throws on reading [data.inputAxis.x]. *)
Theorem input_without_axis_throws_in_the_worker (env : envT) (st : serverT) (ws : nat)
  (playerId roomId wid : string) (room : roomT) (p : playerT) (sw : workerT)
  (th : option JsNum.num) :
  lookupN ws (clients st) = Some (mkSocket playerId (Some roomId)) ->
  nonEmpty roomId = true ->
  getRoom st roomId = Some room ->
  lookup playerId (r_players room) = Some p ->
  r_physicsWorker room = Some wid ->
  lookup wid (workers st) = Some sw ->
  let after := step env st (Message ws (Parsed (Input (Some (mkInput th None))))) in
  snd after = Completed /\
  postedTo (fst after) wid = (w_posted sw ++ [CInput playerId th (Some None)])%list /\
  forall (w : workerState) (s : playerState),
    lookup playerId (players w) = Some s ->
    PhysicsWorker.onMessage w (CInput playerId th (Some None)) = None.
Proof.
  intros C N G R W L after. unfold after. cbn [step]. unfold onMessage.
  rewrite C. cbv zeta. cbn [s_playerId s_roomId]. rewrite N.
  unfold onInput. rewrite G, R, W. cbn [fst snd i_throttle i_inputAxis].
  split; [reflexivity|]. split.
  - unfold postToRoomWorker, postedTo. rewrite W, workers_broadcast, L.
    cbn [workers setWorker]. rewrite lookup_insert. reflexivity.
  - intros w s K. cbn [PhysicsWorker.onMessage]. unfold handleInput. cbv zeta.
    replace (players (log w)) with (players w) by reflexivity. now rewrite K.
Qed.

End WithHost.

(** The one player of a room sends a throttle and no axis. *)
Lemma input_without_axis_throws_in_the_worker_witness :
  (lookupN 1 (clients alone) = Some (mkSocket "alice" (Some "room-1")) /\
   getRoom alone "room-1" = Some aloneRoom /\
   r_physicsWorker aloneRoom = Some "room-1" /\
   lookup "room-1" (workers alone)
   = Some (mkWorkerT [addPlayerMessage "alice" None None] false false [] true "alice" None None)) /\
  postedTo (fst (step env1 alone (Message 1 (Parsed (Input (Some (mkInput (Some 1%float) None)))))))
    "room-1"
  = [addPlayerMessage "alice" None None; CInput "alice" (Some 1%float) (Some None)].
Proof.
  split; [repeat split|].
  exact (proj1 (proj2 (@input_without_axis_throws_in_the_worker RefHost.refHost env1 alone 1
                  "alice" "room-1" "room-1" aloneRoom _ _ (Some 1%float)
                  eq_refl eq_refl eq_refl eq_refl eq_refl eq_refl))).
Defined.

End InputPath.

(* ====================================================================== *)
(** * Noise where a coordinate is not a finite number *)
(* ====================================================================== *)

Module NoiseEdges.

Import JsNum Fbm Utils FloatFacts CurveEdges.
Local Open Scope float_scope.

#[local] Hint Rewrite fadd_nan_l fadd_nan_r fsub_nan_l fsub_nan_r fmul_nan_l fmul_nan_r
  : nan_algebra.

Lemma not_finite_cases a :
  isFiniteNum a = false -> a = nan \/ a = infinity \/ a = neg_infinity.
Proof.
  unfold isFiniteNum, is_finite. rewrite negb_false_iff, orb_true_iff.
  intros [N|I].
  - left. apply Prim2SF_inj. rewrite is_nan_spec in N.
    destruct (Prim2SF a); try discriminate. reflexivity.
  - right. unfold is_infinity in I. rewrite FloatAxioms.eqb_spec, abs_spec in I.
    destruct (Prim2SF a) as [s|s| |s m e] eqn:P; try discriminate.
    destruct s; [right|left]; apply Prim2SF_inj; rewrite P; reflexivity.
Qed.

Lemma fract_not_finite a : isFiniteNum a = false -> a - Math_floor a = nan.
Proof. intros F. destruct (not_finite_cases a F) as [->|[->| ->]]; reflexivity. Qed.

Lemma mul_not_finite a f : isFiniteNum a = false -> isFiniteNum (a * f) = false.
Proof.
  intros F. unfold isFiniteNum, is_finite. rewrite negb_false_iff, orb_true_iff.
  rewrite is_nan_spec. unfold is_infinity. rewrite FloatAxioms.eqb_spec, abs_spec, mul_spec.
  destruct (not_finite_cases a F) as [->|[->| ->]].
  - now left.
  - change (Prim2SF infinity) with (S754_infinity false).
    destruct (Prim2SF f) as [s|s| |s m e]; cbn; auto.
  - change (Prim2SF neg_infinity) with (S754_infinity true).
    destruct (Prim2SF f) as [s|s| |s m e]; cbn; auto.
Qed.

Lemma finite3_false p :
  finite3 p = false ->
  let '(a, b, c) := p in
  isFiniteNum a = false \/ isFiniteNum b = false \/ isFiniteNum c = false.
Proof.
  destruct p as [[a b] c]. unfold finite3.
  destruct (isFiniteNum a), (isFiniteNum b), (isFiniteNum c); auto; discriminate.
Qed.

Lemma scaled_not_finite p f : finite3 p = false -> finite3 (scaled p f) = false.
Proof.
  intros F. apply finite3_false in F. destruct p as [[a b] c]. unfold scaled, finite3.
  destruct F as [F|[F|F]]; rewrite (mul_not_finite _ f F);
    rewrite ?andb_false_r; reflexivity.
Qed.

Lemma noiseArray_not_finite p : finite3 p = false -> noiseArray p = nan.
Proof.
  intros F. apply finite3_false in F. destruct p as [[a b] c].
  unfold noiseArray, noise, vec3. cbv zeta. cbn [x y z sub floorVec].
  destruct F as [F|[F|F]]; rewrite (fract_not_finite _ F);
    unfold fade, mix; autorewrite with nan_algebra; reflexivity.
Qed.

Lemma ridge_nan : ridge nan = nan.
Proof. reflexivity. Qed.

Section Loops.
Context {S : Type}.
Variable noiseFn : noiseFnT S.
Variable p : arr3.
Variables lacunarity persistence : num.

Lemma fbmStandard_loop_nan rounds : forall amp f s,
  fst (fbmStandard_loop noiseFn p lacunarity persistence rounds nan amp f s) = nan.
Proof.
  induction rounds as [|k IH]; intros amp f s; cbn [fbmStandard_loop]; [reflexivity|].
  destruct (noiseFn (scaled p f) s) as [n s']. rewrite fadd_nan_l. apply IH.
Qed.

Lemma ridgedFBM_loop_nan rounds : forall amp f s,
  fst (ridgedFBM_loop noiseFn p lacunarity persistence rounds nan amp f s) = nan.
Proof.
  induction rounds as [|k IH]; intros amp f s; cbn [ridgedFBM_loop]; [reflexivity|].
  destruct (noiseFn (scaled p f) s) as [n s']. rewrite fadd_nan_l. apply IH.
Qed.

End Loops.

(** X25: where a coordinate is [NaN] or infinite there is no noise and no
    elevation: [noiseArray] is [NaN] there, and so are [fbmStandard] and
    [ridgedFBM] with the default noise for one octave or more, whatever the
    frequency, lacunarity and persistence. *)
Theorem no_elevation_off_the_numbers (p : arr3) (freq lacunarity persistence : num)
  (octaves : Z) :
  finite3 p = false ->
  noiseArray p = nan /\
  ((1 <= octaves)%Z ->
   fst (fbmStandard p freq lacunarity persistence octaves (pureNoise noiseArray) tt) = nan /\
   fst (ridgedFBM p freq lacunarity persistence octaves (pureNoise noiseArray) tt) = nan).
Proof.
  intros F. split; [now apply noiseArray_not_finite|].
  intros O. unfold fbmStandard, ridgedFBM.
  destruct (Z.to_nat octaves) as [|k] eqn:E; [lia|].
  cbn [fbmStandard_loop ridgedFBM_loop]. unfold pureNoise at 1 3.
  rewrite (noiseArray_not_finite _ (scaled_not_finite p freq F)).
  rewrite ridge_nan, fmul_nan_l, fadd_nan_r.
  split; [apply fbmStandard_loop_nan|apply ridgedFBM_loop_nan].
Qed.

(** A point at infinity on the first axis. *)
Lemma no_elevation_off_the_numbers_witness :
  finite3 (infinity, 0, 2) = false /\
  noiseArray (infinity, 0, 2) = nan /\
  fst (fbmStandard (infinity, 0, 2) 1.5 2 0.5 4 (pureNoise noiseArray) tt) = nan.
Proof.
  split; [reflexivity|].
  destruct (no_elevation_off_the_numbers (infinity, 0, 2) 1.5 2 0.5 4 eq_refl) as [N E].
  split; [exact N|]. apply E. lia.
Defined.

End NoiseEdges.

(* ====================================================================== *)
(** * The angular velocity of a step *)
(* ====================================================================== *)

Module AngularRate.

Import JsNum MathJs PhysicsWorker FloatFacts.
Local Open Scope float_scope.

Section WithHost.
Context {host : HostMath}.

(** X26: the pitch and roll rates a step computes are capped: whatever the
    stick, the tuning and the damping, each is [NaN] or lies between
    [-MAX_ANG] and [MAX_ANG], and it is [NaN] exactly when the damped product
    of stick and rate is; the yaw rate is never driven or clamped, only
    damped. *)
Theorem rotation_rate_is_capped (st : playerState) :
  let before := angularVelocity st in
  let after := m_angularVelocity (motion st) in
  let capped (a : num) :=
    is_nan a = true \/ ((- MAX_ANG <=? a) = true /\ (a <=? MAX_ANG) = true) in
  capped (x after) /\ capped (z after) /\
  y after = y before * Math_pow (damping st) FIXED_STEP /\
  (is_nan (x after) = true <->
   is_nan (inputY st * pitchVel st * Math_pow (damping st) FIXED_STEP) = true) /\
  (is_nan (z after) = true <->
   is_nan (inputX st * rollVel st * Math_pow (damping st) FIXED_STEP) = true).
Proof.
  cbv zeta. unfold motion. cbv zeta. cbn [m_angularVelocity].
  unfold angularStep. cbv zeta. cbn [x y z multiplyScalar].
  set (d := Math_pow (damping st) FIXED_STEP).
  assert (B : forall v, is_nan (clamp v (- MAX_ANG) MAX_ANG) = true \/
                        ((- MAX_ANG <=? clamp v (- MAX_ANG) MAX_ANG) = true /\
                         (clamp v (- MAX_ANG) MAX_ANG <=? MAX_ANG) = true)).
  { intros v. destruct (is_nan (clamp v (- MAX_ANG) MAX_ANG)) eqn:N; [now left|right].
    apply clamp_bounds; [reflexivity|exact N]. }
  assert (N : forall v, is_nan (clamp v (- MAX_ANG) MAX_ANG) = true <-> is_nan v = true).
  { intros v. unfold clamp, Math_max, Math_min.
    change (is_nan (- MAX_ANG)) with false. change (is_nan MAX_ANG) with false.
    cbn [orb]. destruct (is_nan v) eqn:V; [split; reflexivity|].
    split; [|discriminate]. intros H. exfalso. revert H.
    destruct (MAX_ANG <? v), (v <? MAX_ANG), (get_sign MAX_ANG);
      repeat match goal with
             | |- context [is_nan ?c] =>
                 first [change (is_nan c) with false | rewrite V]; cbn [orb]
             | |- context [if ?c then _ else _] => destruct c
             end; discriminate. }
  repeat split; try apply B; try apply N; try reflexivity;
    try (intros H; apply N; exact H).
Qed.

End WithHost.

End AngularRate.

(* ====================================================================== *)
(** * The players of a worker *)
(* ====================================================================== *)

Module WorkerPlayers.

Import JsNum MathJs PhysicsWorker ServerFacts EngineFacts Joining.
Local Open Scope string_scope.

Lemma lookup_remove_same {A} k (l : list (string * A)) :
  NoDup (map fst l) -> lookup k (remove k l) = None.
Proof.
  induction l as [|[k' v'] l IH]; simpl; intros U; [reflexivity|].
  inversion U as [|? ? N U']; subst.
  destruct (String.eqb_spec k k') as [->|D]; simpl.
  - destruct (lookup k' l) eqn:L; [|reflexivity].
    exfalso. apply N. apply lookup_In in L. exact (in_map fst _ _ L).
  - apply String.eqb_neq in D. rewrite D. auto.
Qed.

Lemma lookup_remove_other {A} k k' (l : list (string * A)) :
  k <> k' -> lookup k (remove k' l) = lookup k l.
Proof.
  intros D. induction l as [|[k2 v2] l IH]; simpl; [reflexivity|].
  destruct (String.eqb_spec k' k2) as [->|D2]; simpl.
  - apply String.eqb_neq in D. now rewrite D.
  - now rewrite IH.
Qed.

Lemma lookup_none_keys {A} k (l : list (string * A)) :
  lookup k l = None -> ~ In k (map fst l).
Proof.
  induction l as [|[k' v'] l IH]; simpl; [tauto|].
  destruct (String.eqb_spec k k') as [->|D]; [discriminate|].
  intros L [E|I]; [congruence|]. now apply IH.
Qed.

Section WithHost.
Context {host : HostMath}.

Lemma occur_keeps_ids w o w' :
  NoDup (map fst (players w)) -> occur w o = Some w' -> NoDup (map fst (players w')).
Proof.
  intros I O. destruct o as [c| |]; simpl in O.
  - destruct c; simpl in O.
    + unfold init in O.
      destruct (in_curvePoints data) as [cp|].
      * destruct (Utils.precomputeStartPositions cp); [|discriminate].
        injection O as <-. exact I.
      * injection O as <-. exact I.
    + injection O as <-. unfold start. destruct (running w); exact I.
    + injection O as <-. exact I.
    + unfold addPlayer in O.
      destruct (negb (nonEmpty (ap_playerId data))); [injection O as <-; exact I|].
      destruct (curvePoints w) as [cp0|].
      * destruct (startPositions w) as [[|p0 ps]|]; injection O as <-;
          now apply NoDup_keys_insert.
      * destruct (ap_curvePoints data) as [cp|].
        -- destruct (Utils.precomputeStartPositions cp) as [sp|]; [|discriminate].
           destruct sp; injection O as <-; now apply NoDup_keys_insert.
        -- destruct (startPositions w) as [[|p0 ps]|]; injection O as <-;
             now apply NoDup_keys_insert.
    + injection O as <-. unfold removePlayer.
      destruct (negb (nonEmpty playerId)); [exact I|]. now apply NoDup_keys_remove.
    + injection O as <-. unfold handleConfig.
      destruct (lookup playerId (players w)); [|exact I]. now apply NoDup_keys_insert.
    + unfold handleInput in O. simpl in O.
      destruct (lookup playerId (players w)) as [st|].
      * destruct inputAxis as [[[ax ay]|]|]; [|discriminate|]; injection O as <-;
          now apply NoDup_keys_insert.
      * injection O as <-. exact I.
    + injection O as <-. exact I.
  - destruct (interval w); injection O as <-; exact I.
  - destruct (physicsInterval w); injection O as <-; [|exact I].
    unfold updatePhysics.
    pose proof (stepPlayers_keeps w (players w) (closestCorner w)) as K.
    destruct (stepPlayers w (players w) (closestCorner w)) as [ps closest].
    cbn [fst] in K. cbn [players withPlayers]. now rewrite K.
Qed.

Lemma run_keeps_ids os : forall w w',
  NoDup (map fst (players w)) -> run w os = Some w' -> NoDup (map fst (players w')).
Proof.
  induction os as [|o os IH]; intros w w' I R; simpl in R.
  - now injection R as <-.
  - destruct (occur w o) as [w1|] eqn:O; [|discriminate].
    exact (IH _ _ (occur_keeps_ids _ _ _ I O) R).
Qed.

(** X27: in every state a worker can reach, [removePlayer] with a player id
    removes that player and no other: the id is no longer in the map, every
    other player is as before, and the next [stateUpdate] posted by
    [updatePhysics] has no entry for the id. *)
Theorem removePlayer_forgets_the_player (os : list occurrence) (w : workerState)
  (playerId : string) :
  run loaded os = Some w -> nonEmpty playerId = true ->
  let w' := removePlayer w playerId in
  lookup playerId (players w') = None /\
  (forall other, other <> playerId ->
     lookup other (players w') = lookup other (players w)) /\
  exists state,
    outbox (updatePhysics w') = (outbox w' ++ [EStateUpdate state])%list /\
    ~ In playerId (map fst state).
Proof.
  intros R N w'.
  assert (U : NoDup (map fst (players w))).
  { apply (run_keeps_ids os loaded w); [constructor|exact R]. }
  assert (P : players w' = remove playerId (players w)).
  { unfold w', removePlayer. rewrite N. reflexivity. }
  assert (L : lookup playerId (players w') = None).
  { rewrite P. now apply lookup_remove_same. }
  split; [exact L|]. split.
  - intros other D. rewrite P. now apply lookup_remove_other.
  - unfold updatePhysics.
    pose proof (stepPlayers_keeps w' (players w') (closestCorner w')) as K.
    destruct (stepPlayers w' (players w') (closestCorner w')) as [ps closest].
    cbn [fst] in K. eexists. split; [reflexivity|].
    intros I. apply in_map_iff in I as ([k v] & <- & I). cbn [fst] in *.
    unfold ownProperties in I. apply filter_In in I as [I _].
    apply (in_map fst) in I. rewrite map_map in I. cbv beta in I. cbn [fst] in I.
    change (map (fun x : string * playerState => fst x) ps) with (map fst ps) in I.
    rewrite K in I. exact (lookup_none_keys _ _ L I).
Qed.

End WithHost.

(** Two players are added, then the first is removed. *)
Lemma removePlayer_forgets_the_player_witness :
  exists w,
    run (host := RefHost.refHost) loaded
      [Receive (CAddPlayer (Samples.newcomer "a")); Receive (CAddPlayer (Samples.newcomer "b"))]
    = Some w /\
    nonEmpty "a" = true /\
    lookup "a" (players (removePlayer w "a")) = None /\
    lookup "b" (players (removePlayer w "a")) = lookup "b" (players w).
Proof.
  destruct (run (host := RefHost.refHost) loaded
              [Receive (CAddPlayer (Samples.newcomer "a"));
               Receive (CAddPlayer (Samples.newcomer "b"))]) as [w|] eqn:R;
    [|vm_compute in R; discriminate R].
  exists w. split; [reflexivity|]. split; [reflexivity|].
  destruct (@removePlayer_forgets_the_player RefHost.refHost _ w "a" R eq_refl) as (L & O & _).
  split; [exact L|]. apply O. discriminate.
Defined.

End WorkerPlayers.

(* ====================================================================== *)
(** * The starting grid *)
(* ====================================================================== *)

Module Grid.

Import PhysicsWorker Server ServerFacts Samples Rooms Handlers Joining.
Local Open Scope string_scope.
Local Open Scope Z_scope.

(** ** The sort *)

Lemma insertByJoin_perm p l : Permutation (insertByJoin p l) (p :: l).
Proof.
  induction l as [|q l IH]; simpl; [apply Permutation_refl|].
  destruct (p_joinedAt p <? p_joinedAt q); [apply Permutation_refl|].
  eapply perm_trans; [apply perm_skip, IH|apply perm_swap].
Qed.

Lemma fold_insertByJoin_perm l : forall acc,
  Permutation (fold_left (fun acc p => insertByJoin p acc) l acc) (l ++ acc).
Proof.
  induction l as [|p l IH]; intros acc; simpl; [apply Permutation_refl|].
  eapply perm_trans; [apply IH|].
  eapply perm_trans; [apply Permutation_app_head, insertByJoin_perm|].
  apply Permutation_sym, Permutation_middle.
Qed.

Lemma sortByJoin_perm l : Permutation (sortByJoin l) l.
Proof.
  unfold sortByJoin. eapply perm_trans; [apply fold_insertByJoin_perm|].
  now rewrite app_nil_r.
Qed.

Lemma insertByJoin_sorted p l :
  StronglySorted joinedBefore l -> StronglySorted joinedBefore (insertByJoin p l).
Proof.
  induction 1 as [|q l S IH F]; simpl.
  - constructor; constructor.
  - destruct (p_joinedAt p <? p_joinedAt q) eqn:E.
    + apply Z.ltb_lt in E. constructor; [constructor; assumption|].
      constructor; [unfold joinedBefore; lia|].
      eapply Forall_impl; [|exact F]. unfold joinedBefore. intros a H. lia.
    + apply Z.ltb_ge in E. constructor; [exact IH|].
      rewrite Forall_forall. intros a I.
      apply (Permutation_in _ (insertByJoin_perm p l)) in I. destruct I as [<-|I].
      * exact E.
      * rewrite Forall_forall in F. now apply F.
Qed.

Lemma sortByJoin_sorted l : StronglySorted joinedBefore (sortByJoin l).
Proof.
  unfold sortByJoin.
  assert (G : forall acc, StronglySorted joinedBefore acc ->
                StronglySorted joinedBefore (fold_left (fun acc p => insertByJoin p acc) l acc)).
  { induction l as [|p l IH]; intros acc S; simpl; [exact S|].
    apply IH. now apply insertByJoin_sorted. }
  apply G. constructor.
Qed.

Lemma sorted_nth (l : list playerT) : StronglySorted joinedBefore l ->
  forall i j a b, (i < j)%nat -> nth_error l i = Some a -> nth_error l j = Some b ->
  joinedBefore a b.
Proof.
  induction 1 as [|q l S IH F]; intros i j a b L A B.
  - destruct i; discriminate.
  - destruct j as [|j]; [lia|]. simpl in B. destruct i as [|i]; simpl in A.
    + injection A as <-. rewrite Forall_forall in F. apply F.
      eapply nth_error_In; eauto.
    + eapply IH; [|eassumption|eassumption]. lia.
Qed.

(** ** The assignment *)

Lemma assignFrom_untouched sorted : forall i roster k,
  ~ In k (map p_id sorted) -> lookup k (assignFrom sorted i roster) = lookup k roster.
Proof.
  induction sorted as [|p rest IH]; intros i roster k N; simpl; [reflexivity|].
  simpl in N. rewrite IH by tauto.
  destruct (lookup (p_id p) roster); [|reflexivity].
  apply lookup_insert_ne. intros ->. tauto.
Qed.

Lemma assignFrom_nth sorted : forall j i roster p q,
  NoDup (map p_id sorted) -> nth_error sorted j = Some p ->
  lookup (p_id p) roster = Some q ->
  lookup (p_id p) (assignFrom sorted i roster) = Some (setPosition q (i + 1 + Z.of_nat j)).
Proof.
  induction sorted as [|p0 rest IH]; intros j i roster p q U N L.
  - destruct j; discriminate.
  - simpl in U. inversion U as [|? ? N0 U']; subst.
    destruct j as [|j]; simpl in N.
    + injection N as ->. simpl. rewrite L.
      rewrite assignFrom_untouched by exact N0.
      rewrite lookup_insert. do 2 f_equal. lia.
    + assert (D : p_id p <> p_id p0).
      { intros E. apply N0. rewrite <- E. apply in_map. eapply nth_error_In; eauto. }
      simpl.
      replace (i + 1 + Z.pos (Pos.of_succ_nat j)) with (i + 1 + 1 + Z.of_nat j) by lia.
      apply IH; auto.
      destruct (lookup (p_id p0) roster); [|exact L].
      now rewrite lookup_insert_ne.
Qed.

Lemma keys_assignFrom sorted : forall i roster,
  map fst (assignFrom sorted i roster) = map fst roster.
Proof.
  induction sorted as [|p rest IH]; intros i roster; simpl; [reflexivity|].
  rewrite IH. destruct (lookup (p_id p) roster) eqn:L; [|reflexivity].
  eapply keys_insert_present; eauto.
Qed.

(** ** Rosters *)

Lemma keyed_lookup ps k p : keyed ps -> lookup k ps = Some p -> p_id p = k.
Proof.
  intros [_ K] L. apply lookup_In in L. rewrite Forall_forall in K. exact (K _ L).
Qed.

Lemma keyed_insert ps k p : keyed ps -> p_id p = k -> keyed (insert k p ps).
Proof.
  intros [U K] E. split; [now apply NoDup_keys_insert|now apply Forall_insert].
Qed.

Lemma keyed_remove ps k : keyed ps -> keyed (remove k ps).
Proof.
  intros [U K]. split; [now apply NoDup_keys_remove|now apply Forall_remove].
Qed.

Lemma keyed_assignFrom sorted : forall i ps, keyed ps -> keyed (assignFrom sorted i ps).
Proof.
  induction sorted as [|p rest IH]; intros i ps K; simpl; [exact K|].
  apply IH. destruct (lookup (p_id p) ps) as [q|] eqn:L; [|exact K].
  apply keyed_insert; [exact K|]. exact (keyed_lookup _ _ _ K L).
Qed.

Lemma keyed_ids ps : keyed ps -> map p_id (map snd ps) = map fst ps.
Proof.
  intros [_ K]. induction K as [|[k p] l E F IH]; simpl; [reflexivity|].
  simpl in E. now rewrite E, IH.
Qed.

Lemma lookup_some_of_key {A} k (l : list (string * A)) :
  In k (map fst l) -> exists v, lookup k l = Some v.
Proof.
  induction l as [|[k' v'] l IH]; simpl; [intros []|].
  destruct (String.eqb_spec k k') as [->|D]; [eauto|].
  intros [E|I]; [congruence|auto].
Qed.

Lemma lookup_key {A} k (v : A) l : lookup k l = Some v -> In k (map fst l).
Proof. intros L. apply lookup_In in L. exact (in_map fst _ _ L). Qed.

(** The grid on a roster. *)
Lemma grid_of_roster ps :
  keyed ps ->
  let ps' := assignFrom (sortByJoin (map snd ps)) 0 ps in
  map fst ps' = map fst ps /\
  (forall k p, lookup k ps = Some p ->
     exists n, lookup k ps' = Some (setPosition p n) /\
               1 <= n <= Z.of_nat (List.length ps)) /\
  (forall k1 k2 p1 p2 n1 n2,
     lookup k1 ps' = Some p1 -> lookup k2 ps' = Some p2 ->
     p_position p1 = Some n1 -> p_position p2 = Some n2 ->
     (k1 <> k2 -> n1 <> n2) /\ (p_joinedAt p1 < p_joinedAt p2 -> n1 < n2)).
Proof.
  intros K ps'.
  set (sorted := sortByJoin (map snd ps)) in *.
  pose proof (sortByJoin_perm (map snd ps)) as P. fold sorted in P.
  pose proof (sortByJoin_sorted (map snd ps)) as S. fold sorted in S.
  assert (U : NoDup (map p_id sorted)).
  { apply (Permutation_NoDup (l := map p_id (map snd ps))).
    - apply Permutation_map, Permutation_sym, P.
    - rewrite keyed_ids by exact K. exact (proj1 K). }
  assert (Len : List.length sorted = List.length ps).
  { rewrite (Permutation_length P). apply length_map. }
  assert (At : forall k p, lookup k ps = Some p ->
            exists j, nth_error sorted j = Some p /\ (j < List.length ps)%nat /\
                      lookup k ps' = Some (setPosition p (1 + Z.of_nat j))).
  { intros k p L.
    assert (I : In p sorted).
    { apply (Permutation_in _ (Permutation_sym P)).
      apply lookup_In in L. exact (in_map snd _ _ L). }
    apply In_nth_error in I as [j N]. exists j. split; [exact N|]. split.
    - rewrite <- Len. apply nth_error_Some. congruence.
    - pose proof (keyed_lookup _ _ _ K L) as E. subst k.
      exact (assignFrom_nth sorted j 0 ps p p U N L). }
  assert (Keys : map fst ps' = map fst ps) by apply keys_assignFrom.
  split; [exact Keys|]. split.
  - intros k p L. destruct (At k p L) as (j & _ & B & R).
    exists (1 + Z.of_nat j). split; [exact R|lia].
  - intros k1 k2 p1 p2 n1 n2 L1 L2 E1 E2.
    assert (O : forall k p n, lookup k ps' = Some p -> p_position p = Some n ->
              exists q j, lookup k ps = Some q /\ nth_error sorted j = Some q /\
                          p_joinedAt p = p_joinedAt q /\ n = 1 + Z.of_nat j).
    { intros k p n L E.
      destruct (lookup_some_of_key k ps) as [q Q].
      { rewrite <- Keys. eapply lookup_key; eauto. }
      destruct (At k q Q) as (j & N & _ & R).
      exists q, j. rewrite R in L. injection L as <-. cbn in E. injection E as <-.
      repeat split; auto. }
    destruct (O _ _ _ L1 E1) as (q1 & j1 & Q1 & N1 & J1 & ->).
    destruct (O _ _ _ L2 E2) as (q2 & j2 & Q2 & N2 & J2 & ->).
    split.
    + intros D E. assert (j1 = j2) by lia. subst j2.
      rewrite N1 in N2. injection N2 as <-.
      apply D. rewrite <- (keyed_lookup _ _ _ K Q1). exact (keyed_lookup _ _ _ K Q2).
    + intros Lt. rewrite J1, J2 in Lt.
      destruct (Nat.lt_trichotomy j1 j2) as [H|[H|H]]; [lia| |].
      * subst j2. rewrite N1 in N2. injection N2 as <-. lia.
      * pose proof (sorted_nth sorted S j2 j1 q2 q1 H N2 N1) as B.
        unfold joinedBefore in B. lia.
Qed.

(** ** Every roster is keyed by the ids of its players *)

Ltac rk_room :=
  match goal with
  | A : allRooms rosterKeyed ?st, G : getRoom ?st _ = Some ?r |- _ =>
      lazymatch goal with
      | _ : keyed (r_players r) |- _ => fail
      | _ => let H := fresh "K" in
             pose proof (allRooms_getRoom rosterKeyed st _ r A G) as H;
             unfold rosterKeyed in H
      end
  end.

Ltac rk_id :=
  cbn [p_id setReadyFlag setFinished setPosition newPlayer];
  first [ reflexivity | eapply keyed_lookup; eassumption ].

Ltac rk_set :=
  match goal with
  | |- allRooms rosterKeyed (setRoom _ _) =>
      apply allRooms_setRoom;
      [ repeat rk_room; unfold rosterKeyed;
        cbn [r_players withRoster withPhase];
        first [ assumption
              | apply keyed_assignFrom; assumption
              | apply keyed_remove; assumption
              | apply keyed_insert; [assumption | rk_id] ]
      | ]
  end.

Ltac rk := repeat (first [rooms_step | rk_set]); auto.

Lemma rk_startRaceCountdown st k n :
  allRooms rosterKeyed st -> allRooms rosterKeyed (startRaceCountdown st k n).
Proof.
  intros A. unfold startRaceCountdown.
  destruct (getRoom st k) as [room|] eqn:G; [|exact A].
  assert (A1 : allRooms rosterKeyed
                 (broadcast (setRoom st (withPhase room racecountdown (r_pregameTimer room)
                                           (r_raceTimer room) (r_raceStartAt room)))
                    k "racecountdown:tick")) by rk.
  cbv zeta.
  destruct (getRoom (broadcast _ _ _) k) as [room'|] eqn:G'; rk.
Qed.

Lemma rk_assign st k :
  allRooms rosterKeyed st -> allRooms rosterKeyed (assignStartPositions st k).
Proof. intros A. unfold assignStartPositions. rk. Qed.

Lemma rk_endRace st k :
  allRooms rosterKeyed st -> allRooms rosterKeyed (endRace st k).
Proof. intros A. unfold endRace. rk. Qed.

Lemma rk_startRace env st k :
  allRooms rosterKeyed st -> allRooms rosterKeyed (startRace env st k).
Proof. intros A. unfold startRace. rk. Qed.

Lemma keyed_nil : keyed [].
Proof. split; constructor. Qed.

Lemma rk_getOrCreate env st a b c d st' r :
  allRooms rosterKeyed st -> getOrCreateOpenRoom env st a b c d = (st', r) ->
  allRooms rosterKeyed st' /\ keyed (r_players r).
Proof.
  unfold getOrCreateOpenRoom. intros A.
  destruct (findOpenRoom st) as [room|] eqn:F.
  - intros [= <- <-]. destruct (allRooms_findOpenRoom _ _ _ A F) as [C O].
    split; [exact A|exact C].
  - intros [= <- <-].
    assert (K : keyed (if nonEmpty a then [(a, newPlayer a b (now env))] else [])).
    { destruct (nonEmpty a); [|apply keyed_nil].
      apply (keyed_insert [] a); [apply keyed_nil|reflexivity]. }
    split; [|exact K].
    apply allRooms_setRoom; [exact K|rk].
Qed.

Lemma rk_onJoin env st ws pid pl :
  allRooms rosterKeyed st -> allRooms rosterKeyed (onJoin env st ws pid pl).
Proof.
  intros A. unfold onJoin.
  destruct (getOrCreateOpenRoom env st pid _ _ _) as [st' room] eqn:G.
  destruct (rk_getOrCreate _ _ _ _ _ _ _ _ A G) as (A' & K).
  repeat rooms_step; auto.
  apply allRooms_setRoom; [|rk].
  unfold rosterKeyed. cbn [r_players withRoster].
  apply keyed_insert; [exact K|reflexivity].
Qed.

Lemma rk_onRemoved st ws pid rid s :
  allRooms rosterKeyed st -> onRemoved st ws pid rid = Some s -> allRooms rosterKeyed s.
Proof.
  intros A. unfold onRemoved.
  destruct rid as [rid|]; [|discriminate].
  destruct (negb (nonEmpty rid)); [discriminate|].
  destruct (getRoom st rid) eqn:G; [|discriminate].
  destruct (lookup pid (r_players r)); [|discriminate].
  intros [= <-]. rk.
Qed.

Lemma rk_after_room env st pid m rid :
  allRooms rosterKeyed st ->
  allRooms rosterKeyed (fst (match m with
    | SetReady payload => onSetReady st pid rid payload
    | Input payload => onInput st pid rid payload
    | Config payload => (onConfig st pid rid payload, Completed)
    | Finish => (onFinish env st pid rid, Completed)
    | StartNow => (if ALLOW_FORCE_START env then startPregameCountdown env st rid 3 else st, Completed)
    | _ => (st, Completed)
    end)).
Proof.
  intros A.
  destruct m; cbn [fst]; auto;
    unfold onSetReady, onInput, onConfig, onFinish, startPregameCountdown; rk;
    try (apply rk_endRace; rk).
Qed.

Lemma rk_step env st e :
  allRooms rosterKeyed st -> allRooms rosterKeyed (fst (step env st e)).
Proof.
  intros A. destruct e; simpl.
  - rk.
  - unfold onMessage. destruct (lookupN ws (clients st)) as [c|]; [|exact A].
    destruct f; [exact A|exact A|].
    match goal with |- allRooms _ (fst (match ?x with _ => _ end)) => destruct x as [s1|] eqn:E1 end;
      [|exact A].
    assert (A1 : allRooms rosterKeyed s1).
    { destruct m; try (injection E1 as <-; auto).
      - apply rk_onJoin; auto.
      - eapply rk_onRemoved; eauto. }
    destruct (match lookupN ws (clients s1) with Some c' => s_roomId c' | None => None end);
      [|exact A1].
    destruct (nonEmpty s); [|exact A1].
    apply rk_after_room; auto.
  - unfold onClose, cleanupRoom. rk.
  - unfold onWorkerMessage. rk.
  - unfold onWorkerExit. rk.
  - unfold pregameInterval. rk; apply rk_startRaceCountdown; rk; apply rk_assign; rk.
  - unfold raceInterval. rk; apply rk_startRace; rk.
Qed.

Lemma rk_run es : forall st,
  allRooms rosterKeyed st -> allRooms rosterKeyed (fst (run st es)).
Proof.
  induction es as [|[env e] es IH]; intros st A; simpl; auto.
  destruct (step env st e) as [st' o] eqn:S.
  destruct (run st' es) as [st'' os] eqn:R. simpl.
  change st'' with (fst (st'', os)). rewrite <- R. apply IH.
  change st' with (fst (st', o)). rewrite <- S. now apply rk_step.
Qed.

(** X28: in every state the server can reach, [assignStartPositions] gives
    the players of a room the grid positions 1 to n in the order in which
    they joined: every player keeps its entry and gets a position between 1
    and the size of the roster, no two players get the same position, and a
    player who joined earlier gets the lower position. *)
Theorem grid_follows_join_order (es : list (envT * event)) (roomId : string) (room : roomT) :
  let st := fst (run initial es) in
  getRoom st roomId = Some room ->
  exists room',
    getRoom (assignStartPositions st roomId) roomId = Some room' /\
    map fst (r_players room') = map fst (r_players room) /\
    (forall k p, lookup k (r_players room) = Some p ->
       exists n, lookup k (r_players room') = Some (setPosition p n) /\
                 1 <= n <= Z.of_nat (List.length (r_players room))) /\
    (forall k1 k2 p1 p2 n1 n2,
       lookup k1 (r_players room') = Some p1 -> lookup k2 (r_players room') = Some p2 ->
       p_position p1 = Some n1 -> p_position p2 = Some n2 ->
       (k1 <> k2 -> n1 <> n2) /\ (p_joinedAt p1 < p_joinedAt p2 -> n1 < n2)).
Proof.
  intros st G.
  assert (RS : reachable st) by (exists es; reflexivity).
  pose proof (wellKeyed_lookup _ _ _ (reachable_wellKeyed _ RS) G) as Id.
  pose proof (allRooms_getRoom rosterKeyed _ _ _ (rk_run es initial (Forall_nil _)) G) as K.
  unfold assignStartPositions. rewrite G.
  eexists. split; [now apply getRoom_setRoom|].
  cbn [r_players withRoster]. exact (grid_of_roster _ K).
Qed.

(** Two players in a room. *)
Lemma grid_follows_join_order_witness :
  getRoom (fst (run initial twoJoined)) "room-1"
  = Some (mkRoom "room-1"
            [("alice", mkPlayer "alice" "anon" 1000 false 0 0 None None);
             ("bob", mkPlayer "bob" "anon" 1000 false 0 0 None None)]
            lobby "/stages/stage1" None None None (Some "room-1") None None) /\
  exists room',
    getRoom (assignStartPositions (fst (run initial twoJoined)) "room-1") "room-1" = Some room' /\
    map fst (r_players room') = ["alice"; "bob"].
Proof.
  split; [reflexivity|].
  destruct (grid_follows_join_order twoJoined "room-1" _ eq_refl) as (room' & G' & Keys & _).
  exists room'. split; [exact G'|exact Keys].
Defined.

End Grid.

(* ====================================================================== *)
(** * A player without an orientation *)
(* ====================================================================== *)

Module Lost.

Import JsNum MathJs PhysicsWorker EngineFacts FloatFacts CurveEdges.
Local Open Scope float_scope.

Lemma Math_min_nan_r a : Math_min a nan = nan.
Proof. unfold Math_min. now destruct (is_nan a). Qed.

Lemma Math_min_nan_l a : Math_min nan a = nan.
Proof. reflexivity. Qed.

Lemma Math_max_nan_r a : Math_max a nan = nan.
Proof. unfold Math_max. now destruct (is_nan a). Qed.

Lemma Math_max_nan_l a : Math_max nan a = nan.
Proof. reflexivity. Qed.

Lemma clamp_nan lo hi : clamp nan lo hi = nan.
Proof. unfold clamp. now rewrite Math_min_nan_r, Math_max_nan_r. Qed.

Lemma sqrt_nan : Math_sqrt nan = nan.
Proof. reflexivity. Qed.

Lemma eqb_nan_l a : (nan =? a) = false.
Proof. rewrite FloatAxioms.eqb_spec. reflexivity. Qed.

#[local] Hint Rewrite fadd_nan_l fadd_nan_r fsub_nan_l fsub_nan_r fmul_nan_l fmul_nan_r
  fdiv_nan_r nan_div ltb_nan_l ltb_nan_r eqb_nan_l
  Math_min_nan_l Math_min_nan_r Math_max_nan_l Math_max_nan_r clamp_nan sqrt_nan
  : nan_algebra.

Lemma applyQuaternion_lost v : applyQuaternion v lost = nowhere.
Proof.
  unfold applyQuaternion, lost, nowhere. cbv zeta. cbn [qx qy qz qw].
  autorewrite with nan_algebra. reflexivity.
Qed.

Lemma normalize_nowhere : normalize nowhere = nowhere.
Proof. reflexivity. Qed.

Lemma premultiply_lost q : premultiply lost q = lost.
Proof.
  unfold premultiply, lost. cbn [qx qy qz qw].
  autorewrite with nan_algebra. reflexivity.
Qed.

Lemma qnormalize_lost : qnormalize lost = lost.
Proof. reflexivity. Qed.

Section WithHost.
Context {host : HostMath}.

Lemma rotationStep_lost st av : rot st = lost -> rotationStep st av = lost.
Proof.
  intros R. unfold rotationStep. cbv zeta. rewrite R.
  now rewrite !premultiply_lost, qnormalize_lost.
Qed.

Lemma speedStep_nan st : speedStep st nan = nan.
Proof.
  unfold speedStep. cbv zeta. autorewrite with nan_algebra.
  destruct (0 <? throttle st); [now autorewrite with nan_algebra|].
  destruct (throttle st <? 0); now autorewrite with nan_algebra.
Qed.

Lemma velocityStep_nowhere st : velocityStep st nowhere nan = nowhere.
Proof.
  unfold velocityStep. cbv zeta.
  unfold multiplyScalar, lerp, nowhere, length. cbn [x y z].
  autorewrite with nan_algebra. reflexivity.
Qed.

Lemma motion_lost st :
  rot st = lost ->
  m_rot (motion st) = lost /\ m_velocity (motion st) = nowhere /\
  m_pos (motion st) = nowhere.
Proof.
  intros R. unfold motion. cbv zeta. cbn [m_rot m_velocity m_pos].
  rewrite (rotationStep_lost st _ R).
  unfold forwardAxis. rewrite applyQuaternion_lost, normalize_nowhere.
  assert (D : dot (velocity st) nowhere = nan).
  { unfold dot, nowhere. cbn [x y z]. now autorewrite with nan_algebra. }
  rewrite D, speedStep_nan, velocityStep_nowhere.
  repeat split. unfold add, multiplyScalar, nowhere. cbn [x y z].
  now autorewrite with nan_algebra.
Qed.

Lemma updatePlayerPhysics_lost (w : workerState) (st : playerState)
  (closest : Vector3) :
  rot st = lost ->
  let st' := fst (updatePlayerPhysics w st closest) in
  rot st' = lost /\ pos st' = nowhere /\ velocity st' = nowhere.
Proof.
  intros R st'. destruct (motion_lost st R) as (Q & V & P).
  unfold st', updatePlayerPhysics. cbv zeta.
  destruct (collisionTest w st closest) as [obb closest'].
  destruct (distance obb <? playerRadius).
  - rewrite V, P. unfold contactResponse, toArr, nowhere.
    destruct (normal obb) as [nx ny nz]. cbn [x y z].
    destruct (m_angularVelocity (motion st)) as [ax ay az]. cbn [x y z fst].
    cbn [rot pos velocity ofArr floatOps nadd nsub nmul nneg].
    split; [exact Q|]. autorewrite with nan_algebra. split; reflexivity.
  - cbn [fst rot pos velocity]. auto.
Qed.

Lemma updatePhysics_lost w id st :
  lookup id (players w) = Some st -> rot st = lost ->
  exists st', lookup id (players (updatePhysics w)) = Some st' /\
              rot st' = lost /\ pos st' = nowhere /\ velocity st' = nowhere.
Proof.
  intros L R. unfold updatePhysics.
  destruct (stepPlayers_lookup w (players w) (closestCorner w) id st L) as [c E].
  destruct (stepPlayers w (players w) (closestCorner w)) as [ps closest].
  cbn [fst players withPlayers] in *.
  eexists. split; [exact E|]. exact (updatePlayerPhysics_lost w st c R).
Qed.

(** X29: an orientation that is [NaN] is never recovered: if the four
    components of a player's quaternion are [NaN] (as in the start pose at
    the end of a curve), then after every later run of [updatePhysics],
    whatever the input, the terrain and the contacts, they still are, and the
    three components of the position and of the velocity are [NaN] too. *)
Theorem lost_orientation_is_never_recovered (w : workerState) (id : String.string)
  (st : playerState) (n : nat) :
  lookup id (players w) = Some st -> rot st = lost ->
  exists st', lookup id (players (Nat.iter (Datatypes.S n) updatePhysics w)) = Some st' /\
              rot st' = lost /\ pos st' = nowhere /\ velocity st' = nowhere.
Proof.
  intros L R. induction n as [|n (st1 & L1 & R1 & _)].
  - exact (updatePhysics_lost w id st L R).
  - exact (updatePhysics_lost _ id st1 L1 R1).
Qed.

End WithHost.

(** A player whose start pose had no orientation, after three steps. *)
Lemma lost_orientation_is_never_recovered_witness :
  exists st',
    lookup "a"%string
      (players
         (Nat.iter 3 (updatePhysics (host := RefHost.refHost))
            (withPlayers loaded
               [("a"%string,
                 mkPlayerState (mkV3 5 0 (-3)) lost (mkV3 0 0 0) (mkV3 0 0 0)
                   0 0 0 20 3 6 0.998 50)]
               (mkV3 0 0 0) []))) = Some st' /\
    pos st' = nowhere.
Proof.
  destruct (@lost_orientation_is_never_recovered RefHost.refHost
              (withPlayers loaded
                 [("a"%string,
                   mkPlayerState (mkV3 5 0 (-3)) lost (mkV3 0 0 0) (mkV3 0 0 0)
                     0 0 0 20 3 6 0.998 50)]
                 (mkV3 0 0 0) [])
              "a"%string _ 2%nat eq_refl eq_refl) as (st' & L & _ & P & _).
  exists st'. split; [exact L|exact P].
Defined.

End Lost.

(* ====================================================================== *)
(** * The path of a config message *)
(* ====================================================================== *)

Module ConfigPath.

Import JsNum PhysicsWorker Server ServerFacts Samples Queue WorkerPlayers.
Local Open Scope string_scope.

Section WithHost.
Context {host : HostMath}.

(** X30: the payload of a [config] message chooses the command the worker
    runs. Without the keys [type] and [playerId] the message is the [config]
    of the sender. With [type: 'stop'] the server posts a [stop], after which
    the worker is not running and has no tick interval; with
    [type: 'removePlayer'] and the [playerId] of any player, it posts a
    [removePlayer] for that player, after which the worker no longer has
    it. *)
Theorem config_payload_chooses_the_command (st : serverT) (playerId roomId wid other : string)
  (room : roomT) (sw : workerT) :
  getRoom st roomId = Some room ->
  r_physicsWorker room = Some wid ->
  lookup wid (workers st) = Some sw ->
  nonEmpty other = true ->
  (forall pl, onConfigObject st playerId roomId (Some (plainConfig pl))
              = onConfig st playerId roomId (Some pl)) /\
  onConfigObject st playerId roomId None = onConfig st playerId roomId None /\
  postedTo (onConfigObject st playerId roomId (Some (typedConfig "stop" None))) wid
  = (w_posted sw ++ [CStop])%list /\
  postedTo (onConfigObject st playerId roomId (Some (typedConfig "removePlayer" (Some other))))
    wid
  = (w_posted sw ++ [CRemovePlayer other])%list /\
  forall (os : list occurrence) (w : workerState),
    PhysicsWorker.run loaded os = Some w ->
    (exists w', PhysicsWorker.onMessage w CStop = Some w' /\
                running w' = false /\ interval w' = false) /\
    (exists w', PhysicsWorker.onMessage w (CRemovePlayer other) = Some w' /\
                lookup other (players w') = None).
Proof.
  intros G W L N.
  assert (P : forall c, postedTo (postToRoomWorker st room c) wid = (w_posted sw ++ [c])%list).
  { intros c. unfold postToRoomWorker, postedTo. rewrite W, L.
    cbn [workers setWorker]. now rewrite lookup_insert. }
  split; [|split; [|split; [|split]]].
  - intros pl. unfold onConfigObject, onConfig. now rewrite G.
  - unfold onConfigObject, onConfig. now rewrite G.
  - unfold onConfigObject. rewrite G. apply P.
  - unfold onConfigObject. rewrite G. apply P.
  - intros os w R. split.
    + eexists. split; [reflexivity|]. split; reflexivity.
    + eexists. split; [reflexivity|].
      unfold removePlayer. rewrite N. cbn [negb players log post withPlayers].
      apply lookup_remove_same. apply (run_keeps_ids os loaded w); [constructor|exact R].
Qed.

End WithHost.

(** The one player of a room sends a config with the type [stop]. *)
Lemma config_payload_chooses_the_command_witness :
  (getRoom alone "room-1" = Some aloneRoom /\
   r_physicsWorker aloneRoom = Some "room-1" /\
   lookup "room-1" (workers alone)
   = Some (mkWorkerT [addPlayerMessage "alice" None None] false false [] true "alice" None None) /\
   nonEmpty "bob" = true) /\
  postedTo (onConfigObject alone "alice" "room-1" (Some (typedConfig "stop" None))) "room-1"
  = [addPlayerMessage "alice" None None; CStop].
Proof.
  split; [repeat split|].
  exact (proj1 (proj2 (proj2
           (@config_payload_chooses_the_command RefHost.refHost alone "alice" "room-1"
              "room-1" "bob" aloneRoom _ eq_refl eq_refl eq_refl eq_refl)))).
Defined.

End ConfigPath.
